(** * Contest proctoring engine: scoring, timing analysis, ingest counters
      and the winnowing fingerprinter

    A shallow embedding of the server-side detection core
    (models/GitHubAnalysis.js, utils/suspicionCalculator.js,
    utils/commitAnalysis.js, routes/events.js, utils/similarity.js,
    routes/github-monitor.js, cron/githubSync.js) and the properties the
    specification states about it.

    Conventions.  A JavaScript Number that holds a score is an exact rational
    ([Q]); only the participant score, which goes through [Math.log10], lives
    in [R].  Counters and millisecond timestamps are integers ([Z]).  A
    JavaScript string is a list of 8-bit code units ([list ascii], the
    Latin-1 range of UTF-16 code units). *)

From Stdlib Require Import ZArith QArith Qround Qminmax Lia Lqa List Bool.
From Stdlib Require Import Ascii String.
From Stdlib Require Import Reals Lra.
From Stdlib Require Import Permutation Sorted.
Import ListNotations.

(* ===================================================================== *)
(** * Part I: the program                                                  *)
(* ===================================================================== *)

(** ** JavaScript Number helpers over exact rationals *)
Module Js.

Local Open Scope Q_scope.

(** [a < b] on Numbers. *)
Definition ltb (a b : Q) : bool := negb (Qle_bool b a).

(** [Math.round(x)]: the nearest integer, halves rounded towards +infinity. *)
Definition round (x : Q) : Z := Qfloor (x + (1 # 2)).

(** [Math.round(x * 1000) / 1000]. *)
Definition round3 (x : Q) : Q := inject_Z (round (x * 1000)) / 1000.

(** [Math.min(a, b)]. *)
Definition min (a b : Q) : Q := Qmin a b.

End Js.

(** ** models/GitHubAnalysis.js *)
Module GitHubAnalysis.

Local Open Scope Q_scope.

Record IdleBurst := mkIdleBurst {
  idleStartedAt : Z;
  burstStartedAt : Z;
  idleDurationMin : Z;
  burstCommitCount : Z
}.

Record SimilarityMatch := mkSimilarityMatch {
  otherParticipantId : string;
  otherRepo : string;
  file1 : string;
  file2 : string;
  similarity : Q;
  identicalContent : bool
}.

(** The fields of the analysis document that the scoring reads or writes. *)
Record t := mk {
  participantId : string;
  idleBursts : list IdleBurst;
  avgCommitSuspicionScore : Q;
  similarityMatches : list SimilarityMatch;
  highestSimilarity : Q;
  githubSuspicionScore : Q
}.

(** Schema defaults of a freshly created document. *)
Definition fresh (pid : string) : t :=
  mk pid [] 0 [] 0 0.

(** The local [score] of [recalculateSuspicion], just before it is rounded. *)
Definition rawScore (this : t) : Q :=
  let score := 0 in
  (* Weight 1: commit pattern suspicion *)
  let score :=
    if Js.ltb 0 (avgCommitSuspicionScore this)
    then score + avgCommitSuspicionScore this * (35 # 100)
    else score in
  (* Weight 2: idle-burst patterns *)
  let burstCount := Z.of_nat (List.length (idleBursts this)) in
  let score :=
    if (0 <? burstCount)%Z
    then score + Js.min (inject_Z burstCount * (1 # 10)) (25 # 100)
    else score in
  (* Weight 3: similarity matches *)
  let score :=
    if Js.ltb (8 # 10) (highestSimilarity this) then score + (4 # 10)
    else if Js.ltb (5 # 10) (highestSimilarity this)
         then score + highestSimilarity this * (3 # 10)
         else score in
  score.

(** [recalculateSuspicion]: stores and returns the new score. *)
Definition recalculateSuspicion (this : t) : t * Q :=
  let s := Js.min (Js.round3 (rawScore this)) 1 in
  (mk (participantId this) (idleBursts this) (avgCommitSuspicionScore this)
      (similarityMatches this) (highestSimilarity this) s, s).



End GitHubAnalysis.

(** ** models/Participant.js: the aggregate counters *)
Module Participant.

Record Stats := mkStats {
  pasteCount : Z;
  pasteCharsTotal : Z;
  typingAnomalies : Z;
  windowBlurCount : Z;
  windowBlurTotalMs : Z;
  clipboardChanges : Z;
  filesCreated : Z;
  filesDeleted : Z
}.

(** Schema defaults. *)
Definition noStats : Stats := mkStats 0 0 0 0 0 0 0 0.

End Participant.

(** ** utils/suspicionCalculator.js: the aggregate participant score *)
Module SuspicionCalculator.

Import Participant.
Local Open Scope R_scope.

Definition WARNING_BLUR_TOTAL_MS : Z := 600000.

(** [Math.log10]. *)
Definition log10 (x : R) : R := ln x / ln 10.

(** [Math.round] on a real number. *)
Definition round (x : R) : Z := Zfloor (x + / 2).

Definition calculateParticipantSuspicion (stats : Stats) : R :=
  let score := 0 in
  (* Paste frequency *)
  let score :=
    if (0 <? pasteCount stats)%Z
    then score + Rmin (log10 (IZR (pasteCount stats + 1)) * 0.18) 0.5
    else score in
  (* Large paste volume *)
  let score :=
    if (1000 <? pasteCharsTotal stats)%Z
    then score + Rmin (IZR (pasteCharsTotal stats) / 10000) 0.3
    else score in
  (* Typing anomaly frequency *)
  let score :=
    if (5 <? typingAnomalies stats)%Z
    then score + Rmin (IZR (typingAnomalies stats) / 100) 0.2
    else score in
  (* Window blur total *)
  let score :=
    if (WARNING_BLUR_TOTAL_MS <? windowBlurTotalMs stats)%Z
    then score + 0.15
    else score in
  (* Clipboard changes *)
  let score :=
    if (20 <? clipboardChanges stats)%Z
    then score + Rmin (IZR (clipboardChanges stats) / 200) 0.15
    else score in
  Rmin (IZR (round (score * 1000)) / 1000) 1.

End SuspicionCalculator.

(** ** utils/commitAnalysis.js: timing distribution and idle bursts *)
Module CommitAnalysis.

Import GitHubAnalysis.
Local Open Scope Z_scope.

Record Commit := mkCommit {
  sha : string;
  message : string;
  date : Z;            (* [new Date(c.date).getTime()], milliseconds *)
  additions : Z;
  deletions : Z;
  filesChanged : Z
}.

Definition BURST_INTERVAL_MS : Z := 5 * 60 * 1000.
Definition LONG_IDLE_MS : Z := 30 * 60 * 1000.

Definition noCommit : Commit := mkCommit "" "" 0 0 0 0.

(** [new Date(commits[i].date).getTime()]. *)
Definition timeAt (commits : list Commit) (i : nat) : Z :=
  date (nth i commits noCommit).

(** [time(commits[i]) - time(commits[i - 1])]. *)
Definition gapAt (commits : list Commit) (i : nat) : Z :=
  timeAt commits i - timeAt commits (i - 1).

(** [dt.getUTCHours()]. *)
Definition getUTCHours (ms : Z) : nat := Z.to_nat ((ms / 3600000) mod 24).

(** [arr[h]++]. *)
Fixpoint increment (arr : list Z) (h : nat) : list Z :=
  match arr, h with
  | [], _ => []
  | x :: rest, O => (x + 1) :: rest
  | x :: rest, S h' => x :: increment rest h'
  end.

(** [Math.round(gap / 60000)] on an integer gap. *)
Definition roundMinutes (gap : Z) : Z := (gap + 30000) / 60000.

(** The look-ahead loop [for (j = ...; j < commits.length; j++)]:
    [remaining] is [commits.length - j]; leaving the match on a gap that is
    not short is the [break]. *)
Fixpoint lookAhead (commits : list Commit) (j remaining : nat)
    (burstCount : Z) : Z :=
  match remaining with
  | O => burstCount
  | S remaining' =>
      let nextGap := gapAt commits j in
      if nextGap <? BURST_INTERVAL_MS
      then lookAhead commits (S j) remaining' (burstCount + 1)
      else burstCount
  end.

Record Timing := mkTiming {
  hourlyDistribution : list Z;
  timingIdleBursts : list IdleBurst;
  totalGapMs : Z
}.

(** One iteration of the outer loop, at index [i]. *)
Definition timingStep (commits : list Commit) (acc : Timing) (i : nat)
    : Timing :=
  let hourly := increment (hourlyDistribution acc)
                          (getUTCHours (timeAt commits i)) in
  if (0 <? i)%nat then
    let gap := gapAt commits i in
    let total := totalGapMs acc + gap in
    if LONG_IDLE_MS <? gap then
      let burstCount :=
        lookAhead commits (i + 1) (List.length commits - (i + 1)) 1 in
      if 3 <=? burstCount then
        mkTiming hourly
          (timingIdleBursts acc ++
           [mkIdleBurst (timeAt commits (i - 1)) (timeAt commits i)
                        (roundMinutes gap) burstCount])
          total
      else mkTiming hourly (timingIdleBursts acc) total
    else mkTiming hourly (timingIdleBursts acc) total
  else mkTiming hourly (timingIdleBursts acc) (totalGapMs acc).

Definition analyzeTimingDistribution (commits : list Commit) : Timing :=
  fold_left (timingStep commits) (seq 0 (List.length commits))
            (mkTiming (repeat 0 24) [] 0).

(** The episodes the outer loop pushes during iteration [i]. *)
Definition episodesAt (commits : list Commit) (i : nat) : list IdleBurst :=
  if (0 <? i)%nat then
    if LONG_IDLE_MS <? gapAt commits i then
      let burstCount :=
        lookAhead commits (i + 1) (List.length commits - (i + 1)) 1 in
      if 3 <=? burstCount then
        [mkIdleBurst (timeAt commits (i - 1)) (timeAt commits i)
                     (roundMinutes (gapAt commits i)) burstCount]
      else []
    else []
  else [].

End CommitAnalysis.

(** ** routes/events.js: counters and the typing pattern *)
Module Events.

Import Participant.
Local Open Scope Z_scope.

Inductive EventType :=
  paste | typing | file_change | file_operation | window_blur | clipboard.

(** The optional payload fields the handler reads. *)
Record EventData := mkData {
  length : option Z;
  anomaly : option string;
  focused : option bool;
  unfocusedDurationMs : option Z;
  operation : option string
}.

Record Event := mkEvent {
  type : EventType;
  timestamp : Z;
  data : EventData
}.

Definition noData : EventData := mkData None None None None None.

(** [x || 0] on an optional number. *)
Definition orZero (x : option Z) : Z :=
  match x with Some v => v | None => 0 end.

(** Truthiness of an optional number: present and not zero. *)
Definition truthyNumber (x : option Z) : bool :=
  match x with Some v => negb (v =? 0) | None => false end.

(** Truthiness of an optional string: present and not empty. *)
Definition truthyString (x : option string) : bool :=
  match x with Some v => negb (String.eqb v "") | None => false end.

(** [x === "lit"] on an optional string. *)
Definition isString (x : option string) (lit : string) : bool :=
  match x with Some v => String.eqb v lit | None => false end.

(** [event.data.focused === false]. *)
Definition isFalse (x : option bool) : bool :=
  match x with Some false => true | _ => false end.

(** The [switch (event.type)] that updates the aggregate counters. *)
Definition updateStats (stats : Stats) (event : Event) : Stats :=
  let d := data event in
  match type event with
  | paste =>
      mkStats (pasteCount stats + 1)
              (pasteCharsTotal stats + orZero (length d))
              (typingAnomalies stats) (windowBlurCount stats)
              (windowBlurTotalMs stats) (clipboardChanges stats)
              (filesCreated stats) (filesDeleted stats)
  | typing =>
      mkStats (pasteCount stats) (pasteCharsTotal stats)
              (if truthyString (anomaly d)
               then typingAnomalies stats + 1 else typingAnomalies stats)
              (windowBlurCount stats) (windowBlurTotalMs stats)
              (clipboardChanges stats) (filesCreated stats)
              (filesDeleted stats)
  | window_blur =>
      mkStats (pasteCount stats) (pasteCharsTotal stats)
              (typingAnomalies stats)
              (if isFalse (focused d)
               then windowBlurCount stats + 1 else windowBlurCount stats)
              (if truthyNumber (unfocusedDurationMs d)
               then windowBlurTotalMs stats + orZero (unfocusedDurationMs d)
               else windowBlurTotalMs stats)
              (clipboardChanges stats) (filesCreated stats)
              (filesDeleted stats)
  | clipboard =>
      mkStats (pasteCount stats) (pasteCharsTotal stats)
              (typingAnomalies stats) (windowBlurCount stats)
              (windowBlurTotalMs stats) (clipboardChanges stats + 1)
              (filesCreated stats) (filesDeleted stats)
  | file_operation =>
      if isString (operation d) "create" then
        mkStats (pasteCount stats) (pasteCharsTotal stats)
                (typingAnomalies stats) (windowBlurCount stats)
                (windowBlurTotalMs stats) (clipboardChanges stats)
                (filesCreated stats + 1) (filesDeleted stats)
      else if isString (operation d) "delete" then
        mkStats (pasteCount stats) (pasteCharsTotal stats)
                (typingAnomalies stats) (windowBlurCount stats)
                (windowBlurTotalMs stats) (clipboardChanges stats)
                (filesCreated stats) (filesDeleted stats + 1)
      else stats
  | file_change => stats
  end.

(** [for (const event of events) { ... }] as far as the counters go. *)
Definition ingestStats (stats : Stats) (events : list Event) : Stats :=
  fold_left updateStats events stats.

(** [arr.slice(-n)]. *)
Definition sliceLast (n : Z) (arr : list Z) : list Z :=
  let len := Z.of_nat (List.length arr) in
  skipn (Z.to_nat (Z.max (len - n) 0)) arr.

(** Step 4 of the handler on the stored intervals: push the batch, then cut
    back to the last 8000 once the length exceeds 10000. *)
Definition appendIntervals (stored batch : list Z) : list Z :=
  let intervals := stored ++ batch in
  if 10000 <? Z.of_nat (List.length intervals)
  then sliceLast 8000 intervals
  else intervals.

End Events.

(** ** cron/githubSync.js and routes/github-monitor.js: persisting matches *)
Module GitHubSync.

Import GitHubAnalysis.
Local Open Scope Q_scope.

(** A match as [crossCompareRepos] returns it. *)
Record Flag := mkFlag {
  repo1 : string;
  repo2 : string;
  flagFile1 : string;
  flagFile2 : string;
  flagSimilarity : Q;
  flagIdentical : bool
}.

(** The update [{ $push: { similarityMatches: m }, $max: {
    highestSimilarity: m.similarity } }] applied to one document. *)
Definition pushMax (m : SimilarityMatch) (doc : t) : t :=
  mk (participantId doc) (idleBursts doc) (avgCommitSuspicionScore doc)
     (similarityMatches doc ++ [m])
     (if Js.ltb (highestSimilarity doc) (similarity m)
      then similarity m else highestSimilarity doc)
     (githubSuspicionScore doc).

(** [GitHubAnalysis.findOneAndUpdate({ participantId: pid }, update)]: the
    first document of the collection with that id is updated; without one
    nothing happens (no upsert). *)
Fixpoint findOneAndUpdate (pid : string) (update : t -> t) (store : list t)
    : list t :=
  match store with
  | [] => []
  | doc :: rest =>
      if String.eqb (participantId doc) pid
      then update doc :: rest
      else doc :: findOneAndUpdate pid update rest
  end.

(** [Map.get] on the repoId -> participantId lookup. *)
Fixpoint lookup (key : string) (m : list (string * string)) : option string :=
  match m with
  | [] => None
  | (k, v) :: rest => if String.eqb k key then Some v else lookup key rest
  end.

(** Body of the "Persist matches" loop of [runCrossComparison]. *)
Definition persistFlag (repoToParticipant : list (string * string))
    (store : list t) (flag : Flag) : list t :=
  match lookup (repo1 flag) repoToParticipant,
        lookup (repo2 flag) repoToParticipant with
  | Some pid1, Some pid2 =>
      if String.eqb pid1 "" || String.eqb pid2 "" then store else
      let matchData1 :=
        mkSimilarityMatch pid2 (repo2 flag) (flagFile1 flag) (flagFile2 flag)
                          (flagSimilarity flag) (flagIdentical flag) in
      let matchData2 :=
        mkSimilarityMatch pid1 (repo1 flag) (flagFile2 flag) (flagFile1 flag)
                          (flagSimilarity flag) (flagIdentical flag) in
      let store := findOneAndUpdate pid1 (pushMax matchData1) store in
      findOneAndUpdate pid2 (pushMax matchData2) store
  | _, _ => store
  end.

(** The "Persist matches" loop of [runCrossComparison]. *)
Definition persistFlags (repoToParticipant : list (string * string))
    (flags : list Flag) (store : list t) : list t :=
  fold_left (persistFlag repoToParticipant) flags store.

(** [findOne({ participantId: pid })], [doc.recalculateSuspicion()],
    [doc.save()]. *)
Definition recalculateFor (store : list t) (pid : string) : list t :=
  findOneAndUpdate pid (fun doc => fst (recalculateSuspicion doc)) store.

(** [Set.add] on a set of ids. *)
Definition addPid (pid : option string) (pids : list string) : list string :=
  match pid with
  | Some p =>
      if String.eqb p "" then pids
      else if existsb (String.eqb p) pids then pids else pids ++ [p]
  | None => pids
  end.

Definition affectedPids (repoToParticipant : list (string * string))
    (flags : list Flag) : list string :=
  fold_left
    (fun pids flag =>
       addPid (lookup (repo2 flag) repoToParticipant)
              (addPid (lookup (repo1 flag) repoToParticipant) pids))
    flags [].

(** [runCrossComparison] from the point where [flags] is known: persist
    every match on both sides, then recalculate the affected documents. *)
Definition runCrossComparison (repoToParticipant : list (string * string))
    (flags : list Flag) (store : list t) : list t :=
  match flags with
  | [] => store
  | _ :: _ =>
      fold_left recalculateFor (affectedPids repoToParticipant flags)
                (persistFlags repoToParticipant flags store)
  end.

(** Body of the persist loop of [compareRepositories] for the two
    participants [pid1] (repository [name1]) and [pid2] ([name2]). *)
Definition persistMatch (pid1 name1 pid2 name2 : string)
    (store : list t) (m : Flag) : list t :=
  let store :=
    findOneAndUpdate pid1
      (pushMax (mkSimilarityMatch pid2 name2 (flagFile1 m) (flagFile2 m)
                                  (flagSimilarity m) (flagIdentical m)))
      store in
  findOneAndUpdate pid2
    (pushMax (mkSimilarityMatch pid1 name1 (flagFile2 m) (flagFile1 m)
                                (flagSimilarity m) (flagIdentical m)))
    store.

(** [compareRepositories] from the point where [matches] is known. *)
Definition compareRepositories (pid1 name1 pid2 name2 : string)
    (matches : list Flag) (store : list t) : list t :=
  fold_left recalculateFor [pid1; pid2]
            (fold_left (persistMatch pid1 name1 pid2 name2) matches store).

End GitHubSync.

(** ** utils/similarity.js: the winnowing fingerprinter *)
Module Similarity.

Local Open Scope char_scope.

(** Text is a list of code units. *)
Definition text := list ascii.

Definition DEFAULT_K : nat := 25.
Definition DEFAULT_W : nat := 4.

(** [str.charCodeAt(i)]. *)
Definition charCode (c : ascii) : Z := Z.of_N (N_of_ascii c).

(** Line terminators: what [.] does not match and [$] (flag m) stops at. *)
Definition isLineTerminator (c : ascii) : bool :=
  (charCode c =? 10)%Z || (charCode c =? 13)%Z.

(** [\s], which is also what [trim] removes: tab, line feed, vertical tab,
    form feed, carriage return, space, no-break space. *)
Definition isWhiteSpace (c : ascii) : bool :=
  ((9 <=? charCode c) && (charCode c <=? 13))%Z
  || (charCode c =? 32)%Z || (charCode c =? 160)%Z.

(** [toLowerCase] on one code unit: A-Z, and the capital letters
    U+00C0..U+00DE except the multiplication sign U+00D7. *)
Definition toLowerChar (c : ascii) : ascii :=
  let n := charCode c in
  if (((65 <=? n) && (n <=? 90))
      || ((192 <=? n) && (n <=? 222) && negb (n =? 215)))%Z
  then ascii_of_N (Z.to_N (n + 32))
  else c.

(** Does [s] start with [prefix]? *)
Fixpoint startsWith (prefix s : text) : bool :=
  match prefix, s with
  | [], _ => true
  | _ :: _, [] => false
  | p :: prefix', c :: s' => Ascii.eqb p c && startsWith prefix' s'
  end.

(** [replace(/M.*$/gm, "")] for a marker [M] ("//" or "#"): from every
    position where the marker starts, everything up to (not including) the
    next line terminator is removed.  [inComment] says that the scanner is
    inside such a match. *)
Fixpoint stripToEol (marker : text) (inComment : bool) (s : text) : text :=
  match s with
  | [] => []
  | c :: rest =>
      if inComment then
        if isLineTerminator c
        then c :: stripToEol marker false rest
        else stripToEol marker true rest
      else if startsWith marker s
      then stripToEol marker true rest
      else c :: stripToEol marker false rest
  end.

(** Offset of the first "*/" in [s]. *)
Fixpoint closeOffset (s : text) : option nat :=
  match s with
  | [] => None
  | _ :: rest =>
      if startsWith ["*"; "/"] s then Some O
      else option_map S (closeOffset rest)
  end.

(** [replace(/\/\*[\s\S]*?\*\//g, "")]: an opener "/*" that has a closer
    "*/" after it is removed together with everything up to the first such
    closer; an opener without a closer stays.  [skip] counts the code units
    of the current match that are still to be dropped. *)
Fixpoint stripBlock (skip : nat) (s : text) : text :=
  match s with
  | [] => []
  | c :: rest =>
      match skip with
      | S skip' => stripBlock skip' rest
      | O =>
          if startsWith ["/"; "*"] s then
            match closeOffset (skipn 1 rest) with
            | Some n => stripBlock (n + 3) rest
            | None => c :: stripBlock 0 rest
            end
          else c :: stripBlock 0 rest
      end
  end.

(** [replace(/\s+/g, " ")]: a white-space unit that is followed by another
    one is dropped, the last one of a run becomes a space. *)
Fixpoint collapseWhiteSpace (s : text) : text :=
  match s with
  | [] => []
  | c :: rest =>
      if isWhiteSpace c then
        match rest with
        | c' :: _ =>
            if isWhiteSpace c' then collapseWhiteSpace rest
            else " " :: collapseWhiteSpace rest
        | [] => [" "]
        end
      else c :: collapseWhiteSpace rest
  end.

Definition toLowerCase (s : text) : text := map toLowerChar s.

Fixpoint trimStart (s : text) : text :=
  match s with
  | [] => []
  | c :: rest => if isWhiteSpace c then trimStart rest else s
  end.

Fixpoint trimEnd (s : text) : text :=
  match s with
  | [] => []
  | c :: rest =>
      match trimEnd rest with
      | [] => if isWhiteSpace c then [] else [c]
      | kept => c :: kept
      end
  end.

Definition trim (s : text) : text := trimEnd (trimStart s).

Definition normalise (code : text) : text :=
  trim
    (toLowerCase
       (collapseWhiteSpace
          (stripToEol ["#"] false
             (stripBlock 0
                (stripToEol ["/"; "/"] false code))))).

Local Open Scope Z_scope.

(** A Number that holds an integer [p], as the nearest double (ties to
    even): exact below 2^53, otherwise rounded to 53 significant bits. *)
Definition roundToDouble (p : Z) : Z :=
  let a := Z.abs p in
  if a <? 2 ^ 53 then p else
  let e := Z.log2 a - 52 in
  let q := Z.shiftr a e in
  let r := a - Z.shiftl q e in
  let half := Z.shiftl 1 (e - 1) in
  let q' := if (half <? r) || ((r =? half) && Z.odd q) then q + 1 else q in
  Z.sgn p * Z.shiftl q' e.

(** [ToInt32] and [ToUint32] of an integer-valued Number. *)
Definition toUint32 (z : Z) : Z := z mod 2 ^ 32.
Definition toInt32 (z : Z) : Z :=
  let m := z mod 2 ^ 32 in if m <? 2 ^ 31 then m else m - 2 ^ 32.

(** One round of the loop of [simpleHash]:
    [hash ^= c; hash = (hash * 0x01000193) >>> 0]. *)
Definition hashStep (hash : Z) (c : ascii) : Z :=
  let hash := Z.lxor (toInt32 hash) (toInt32 (charCode c)) in
  toUint32 (roundToDouble (hash * 16777619)).

Definition simpleHash (str : text) : Z :=
  fold_left hashStep str 2166136261.

(** [text.slice(i, i + k)]. *)
Definition slice (s : text) (i k : nat) : text := firstn k (skipn i s).

Definition kgramHashes (s : text) (k : nat) : list Z :=
  if (List.length s <? k)%nat then [simpleHash s]
  else map (fun i => simpleHash (slice s i k))
           (seq 0 (List.length s - k + 1)).

(** A [Set] of numbers in insertion order. *)
Definition setHas (x : Z) (set : list Z) : bool := existsb (Z.eqb x) set.
Definition setAdd (x : Z) (set : list Z) : list Z :=
  if setHas x set then set else set ++ [x].

(** [Math.min(...hashes)] on a non-empty array. *)
Definition minimum (hashes : list Z) : Z :=
  match hashes with
  | [] => 0
  | h :: rest => fold_left Z.min rest h
  end.

(** The inner loop of [winnow]: the least element of a window. *)
Definition windowMin (window : list Z) : Z :=
  match window with
  | [] => 0
  | h :: rest => fold_left (fun minVal x => if x <? minVal then x else minVal)
                           rest h
  end.

(** One round of the outer loop of [winnow] on the state
    [(fingerprints, prevMin)]. *)
Definition winnowStep (hashes : list Z) (w : nat) (st : list Z * Z)
    (i : nat) : list Z * Z :=
  let (fingerprints, prevMin) := st in
  let minVal := windowMin (firstn w (skipn i hashes)) in
  if minVal =? prevMin then (fingerprints, prevMin)
  else (setAdd minVal fingerprints, minVal).

Definition winnow (hashes : list Z) (w : nat) : list Z :=
  match hashes with
  | [] => []
  | _ :: _ =>
      if (List.length hashes <=? w)%nat then setAdd (minimum hashes) []
      else fst (fold_left (winnowStep hashes w)
                          (seq 0 (List.length hashes - w + 1))
                          ([], -1))
  end.

Record Fingerprint := mkFingerprint {
  fingerprints : list Z;
  hash : string;
  normLength : nat
}.

(** [Set.size] is the length of the duplicate-free list. *)
Definition jaccardSimilarity (a b : list Z) : Q :=
  match a, b with
  | [], [] => 1%Q
  | [], _ | _, [] => 0%Q
  | _, _ =>
      let intersection :=
        Z.of_nat (List.length (filter (fun v => setHas v b) a)) in
      let union :=
        Z.of_nat (List.length a) + Z.of_nat (List.length b) - intersection in
      if union =? 0 then 0%Q
      else (inject_Z intersection / inject_Z union)%Q
  end.

Record Comparison := mkComparison {
  similarity : Q;
  hash1 : string;
  hash2 : string;
  identicalContent : bool
}.

Record File := mkFile { path : string; content : text }.
Record Repo := mkRepo { repoId : string; files : list File }.

(** [Map.set]: the value of an existing key is replaced in place, a new key
    goes to the end. *)
Fixpoint mapSet {V : Type} (key : string) (v : V) (m : list (string * V))
    : list (string * V) :=
  match m with
  | [] => [(key, v)]
  | (k, v') :: rest =>
      if String.eqb k key then (k, v) :: rest
      else (k, v') :: mapSet key v rest
  end.

(** [path.split(".").pop()]: what follows the last "." of the path, or the
    whole path without one. *)
Fixpoint afterLastDot (s : string) : option string :=
  match s with
  | EmptyString => None
  | String c rest =>
      match afterLastDot rest with
      | Some e => Some e
      | None => if Ascii.eqb c "." then Some rest else None
      end
  end.

Definition extension (p : string) : string :=
  match afterLastDot p with Some e => e | None => p end.

(** [flags.sort((a, b) => b.similarity - a.similarity)], a stable sort. *)
Fixpoint insertFlag (f : GitHubSync.Flag) (sorted : list GitHubSync.Flag)
    : list GitHubSync.Flag :=
  match sorted with
  | [] => [f]
  | g :: rest =>
      if Js.ltb (GitHubSync.flagSimilarity f) (GitHubSync.flagSimilarity g)
      then g :: insertFlag f rest
      else f :: sorted
  end.

Definition sortFlags (flags : list GitHubSync.Flag) : list GitHubSync.Flag :=
  fold_right insertFlag [] flags.

Section WithDigest.

(** [crypto.createHash("sha256")...digest("hex")], taken as given. *)
Variable sha256 : text -> string.

Definition fingerprint (code : text) (k w : nat) : Fingerprint :=
  let norm := normalise code in
  let hashes := kgramHashes norm k in
  let fps := winnow hashes w in
  mkFingerprint fps (sha256 norm) (List.length norm).

Definition compareCode (code1 code2 : text) : Comparison :=
  let fp1 := fingerprint code1 DEFAULT_K DEFAULT_W in
  let fp2 := fingerprint code2 DEFAULT_K DEFAULT_W in
  let identical := String.eqb (hash fp1) (hash fp2) in
  let sim :=
    if identical then 1%Q
    else Js.round3 (jaccardSimilarity (fingerprints fp1) (fingerprints fp2)) in
  mkComparison sim (hash fp1) (hash fp2) identical.

(** The fingerprint index: repoId -> path -> fingerprint. *)
Definition buildIndex (repos : list Repo)
    : list (string * list (string * Fingerprint)) :=
  fold_left
    (fun index repo =>
       mapSet (repoId repo)
              (fold_left
                 (fun fpMap file =>
                    mapSet (path file)
                           (fingerprint (content file) DEFAULT_K DEFAULT_W)
                           fpMap)
                 (files repo) [])
              index)
    repos [].

(** Body of the innermost loop of [crossCompareRepos] for one pair of
    files: the flag it pushes, if any. *)
Definition compareFiles (threshold : Q) (idA idB : string)
    (a b : string * Fingerprint) : list GitHubSync.Flag :=
  let (pathA, fpA) := a in
  let (pathB, fpB) := b in
  let extA := extension pathA in
  let extB := extension pathB in
  if negb (String.eqb extA extB) then []          (* continue *)
  else
    let sim := jaccardSimilarity (fingerprints fpA) (fingerprints fpB) in
    if Qle_bool threshold sim
    then [GitHubSync.mkFlag idA idB pathA pathB (Js.round3 sim)
                            (String.eqb (hash fpA) (hash fpB))]
    else [].

(** The loops over the files of two repositories. *)
Definition compareMaps (threshold : Q)
    (A B : string * list (string * Fingerprint)) : list GitHubSync.Flag :=
  flat_map (fun a =>
              flat_map (fun b => compareFiles threshold (fst A) (fst B) a b)
                       (snd B))
           (snd A).

(** The loops [for i] / [for j = i + 1] over the repositories. *)
Fixpoint comparePairs (threshold : Q)
    (index : list (string * list (string * Fingerprint)))
    : list GitHubSync.Flag :=
  match index with
  | [] => []
  | A :: others =>
      flat_map (fun B => compareMaps threshold A B) others
      ++ comparePairs threshold others
  end.

Definition crossCompareRepos (repos : list Repo) (threshold : Q)
    : list GitHubSync.Flag :=
  sortFlags (comparePairs threshold (buildIndex repos)).

End WithDigest.

(** The sample source text of the specification's scenarios. *)
Definition sumSource : text :=
  list_ascii_of_string "function sum(a,b){ return a+b; }".

End Similarity.

(** ** The scoring formulas in the words of the specification *)
Module Spec.

Local Open Scope Q_scope.



End Spec.

(** ** The participant score in the words of the specification *)
Module SpecParticipant.

Import Participant.
Local Open Scope R_scope.

(** A summand that counts "only when" its guard holds. *)
Definition onlyWhen (guard : bool) (x : R) : R := if guard then x else 0.

(** "score = min(0.5, 0.18 * log10(pasteCount+1)) + min(0.3,
    pasteCharsTotal/10000 [only when >1000]) + min(0.2, typingAnomalies/100
    [only when >5]) + (0.15 if windowBlurTotalMs > 600000 else 0) +
    min(0.15, clipboardChanges/200 [only when >20]).  Clamp to 1.0; round
    to 3 decimals." *)
Definition participantScore (stats : Stats) : R :=
  let sum :=
    onlyWhen (0 <? pasteCount stats)%Z
      (Rmin 0.5 (0.18 * SuspicionCalculator.log10
                           (IZR (pasteCount stats + 1))))
    + onlyWhen (1000 <? pasteCharsTotal stats)%Z
        (Rmin 0.3 (IZR (pasteCharsTotal stats) / 10000))
    + onlyWhen (5 <? typingAnomalies stats)%Z
        (Rmin 0.2 (IZR (typingAnomalies stats) / 100))
    + onlyWhen (600000 <? windowBlurTotalMs stats)%Z 0.15
    + onlyWhen (20 <? clipboardChanges stats)%Z
        (Rmin 0.15 (IZR (clipboardChanges stats) / 200)) in
  IZR (SuspicionCalculator.round (Rmin 1 sum * 1000)) / 1000.

End SpecParticipant.

(** ** Idle bursts and the similarity maximum in the words of the
       specification *)
Module SpecTiming.

Import CommitAnalysis.
Local Open Scope Z_scope.

(** The burst that starts at commit [i] is a run of exactly [n] commits
    [i, i+1, ..., i+n-1]: each one after the first comes less than 5 minutes
    after its predecessor, and the run stops at the end of the history or at
    the first gap of 5 minutes or more. *)
Definition burstRun (commits : list Commit) (i n : nat) : Prop :=
  (1 <= n)%nat /\ (i + n <= List.length commits)%nat
  /\ (forall j, (i < j < i + n)%nat -> gapAt commits j < 5 * 60 * 1000)
  /\ ((i + n)%nat = List.length commits
      \/ 5 * 60 * 1000 <= gapAt commits (i + n)).

(** An idle burst at [i]: the gap that ends at commit [i] is longer than 30
    minutes and the burst it starts has at least 3 commits. *)
Definition idleBurstAt (commits : list Commit) (i n : nat) : Prop :=
  (1 <= i < List.length commits)%nat
  /\ 30 * 60 * 1000 < gapAt commits i
  /\ (3 <= n)%nat /\ burstRun commits i n.

End SpecTiming.

Module SpecSimilarity.

Import GitHubAnalysis.
Local Open Scope Q_scope.





End SpecSimilarity.

(** ** Shapes of text that the normaliser produces *)
Module TextShape.

Import Similarity.
Local Open Scope char_scope.

(** Does [pattern] occur somewhere in [s]? *)
Fixpoint occurs (pattern s : text) : bool :=
  startsWith pattern s
  || match s with [] => false | _ :: rest => occurs pattern rest end.

(** Is there an opener "/*" with a closer "*/" after it? *)
Fixpoint hasBlockComment (s : text) : bool :=
  match s with
  | [] => false
  | _ :: rest =>
      (startsWith ["/"; "*"] s && occurs ["*"; "/"] (skipn 1 rest))
      || hasBlockComment rest
  end.

Definition headWhiteSpace (s : text) : bool :=
  match s with [] => false | c :: _ => isWhiteSpace c end.

(** Every white-space unit is a space and stands alone. *)
Fixpoint collapsed (s : text) : bool :=
  match s with
  | [] => true
  | c :: rest =>
      (if isWhiteSpace c
       then Ascii.eqb c " " && negb (headWhiteSpace rest)
       else true)
      && collapsed rest
  end.

(** The code units the comment syntax is made of; every other one is
    plain. *)
Definition isPlain (c : ascii) : bool :=
  negb (Ascii.eqb c "/" || Ascii.eqb c "*" || Ascii.eqb c "#").

Definition sameShape (c' c : ascii) : Prop :=
  c' = c \/ (isPlain c' = true /\ isPlain c = true).

Definition headPlain (t : text) : Prop :=
  match t with [] => True | c :: _ => isPlain c = true end.

(** [thinned t s]: [t] comes from [s] by replacing plain units by plain
    units and by dropping units in front of a plain unit or of the end, so
    that no two comment-syntax units become neighbours. *)
Inductive thinned : text -> text -> Prop :=
| thinned_nil : thinned [] []
| thinned_keep c' c t s :
    sameShape c' c -> thinned t s -> thinned (c' :: t) (c :: s)
| thinned_drop d t s :
    headPlain t -> thinned t s -> thinned t (d :: s).

(** What [normalise] leaves behind. *)
Definition normalForm (x : text) : Prop :=
  occurs ["/"; "/"] x = false
  /\ hasBlockComment x = false
  /\ occurs ["#"] x = false
  /\ collapsed x = true
  /\ toLowerCase x = x
  /\ trim x = x.

End TextShape.

(** ** utils/suspicionCalculator.js: per-event scoring and alerts *)
Module EventScoring.

Import Participant Events.
Local Open Scope Q_scope.

(** [THRESHOLDS]. *)
Definition PASTE_MEDIUM_CHARS : Z := 100.
Definition PASTE_LARGE_CHARS : Z := 500.
Definition PASTE_MEDIUM_SCORE : Q := 6 # 10.
Definition PASTE_LARGE_SCORE : Q := 9 # 10.
Definition FAST_TYPING_INTERVAL_MS : Z := 30.
Definition FAST_TYPING_SCORE : Q := 4 # 10.
Definition HIGH_VARIANCE : Q := 15000.
Definition HIGH_VARIANCE_SCORE : Q := 3 # 10.
Definition LONG_BLUR_SECONDS : Z := 120.
Definition LONG_BLUR_SCORE : Q := 2 # 10.
Definition CLIPBOARD_BURST_COUNT : Z := 5.
Definition CLIPBOARD_BURST_SCORE : Q := 3 # 10.
Definition FILE_NO_TYPING_SCORE : Q := 5 # 10.
Definition ALERT_SCORE : Q := 7 # 10.
Definition WARNING_PASTE_COUNT : Z := 10.
Definition WARNING_BLUR_TOTAL_MS : Z := 600000.

(** [typingStats]; a field is [None] when the object lacks it. *)
Record TypingStats := mkTypingStats {
  avgInterval : option Q;
  variance : option Q
}.

(** [recentContext]. *)
Record RecentContext := mkRecentContext {
  clipboardChanges60s : option Z;
  hadTypingBefore : option bool
}.

(** A reason string, kept as its tag and the numbers interpolated into
    it. *)
Inductive Reason :=
| large_paste (chars : Z)
| medium_paste (chars : Z)
| fast_typing (ms : Z)
| avg_typing_too_fast (ms : Q)
| high_variance (rounded : Z)
| long_blur (seconds : Z)
| clipboard_burst (recent : Z)
| file_created_no_typing.

(** [score += amount; reasons.push(reason)], when [cond] holds. *)
Definition bump {R : Type} (cond : bool) (amount : Q) (reason : R)
    (st : Q * list R) : Q * list R :=
  if cond then (fst st + amount, snd st ++ [reason]) else st.

(** The shape of a tally: either nothing was added yet, or at least 0.2
    was. *)
Definition tallied {R : Type} (st : Q * list R) : Prop :=
  (snd st = [] /\ fst st == 0) \/ (snd st <> [] /\ (2 # 10) <= fst st).

(** [x > bound] on an optional Number: a missing one compares false. *)
Definition optionGt (x : option Q) (bound : Q) : bool :=
  match x with Some v => Js.ltb bound v | None => false end.

Definition optionLt (x : option Q) (bound : Q) : bool :=
  match x with Some v => Js.ltb v bound | None => false end.

Definition isTrue (b : option bool) : bool :=
  match b with Some true => true | _ => false end.

(** [calculateEventSuspicion]; [interval] is [event.data.interval], which
    the event record of the counters does not carry. *)
Definition calculateEventSuspicion (event : Event) (interval : option Z)
    (typingStats : TypingStats) (recentContext : RecentContext)
    : Q * list Reason :=
  let d := data event in
  let st : Q * list Reason := (0, []) in
  (* Paste detection *)
  let st :=
    match type event with
    | paste =>
        let len := orZero (length d) in
        if (PASTE_LARGE_CHARS <? len)%Z
        then bump true PASTE_LARGE_SCORE (large_paste len) st
        else bump (PASTE_MEDIUM_CHARS <? len)%Z PASTE_MEDIUM_SCORE
                  (medium_paste len) st
    | _ => st
    end in
  (* Typing speed anomaly *)
  let st :=
    match type event with
    | typing =>
        if isString (anomaly d) "fast_typing" then
          let i := orZero interval in
          bump ((0 <? i)%Z && (i <? FAST_TYPING_INTERVAL_MS)%Z)
               FAST_TYPING_SCORE (fast_typing i) st
        else st
    | _ => st
    end in
  (* Typing pattern stats *)
  let st :=
    if optionGt (avgInterval typingStats) 0 then
      bump (optionLt (avgInterval typingStats)
                     (inject_Z FAST_TYPING_INTERVAL_MS))
           FAST_TYPING_SCORE
           (avg_typing_too_fast
              (match avgInterval typingStats with Some a => a | None => 0 end))
           st
    else st in
  let st :=
    bump (optionGt (variance typingStats) HIGH_VARIANCE) HIGH_VARIANCE_SCORE
         (high_variance
            (Js.round
               (match variance typingStats with Some v => v | None => 0 end)))
         st in
  (* Window blur *)
  let st :=
    match type event with
    | window_blur =>
        if isFalse (focused d) then
          let durationMs := orZero (unfocusedDurationMs d) in
          bump (LONG_BLUR_SECONDS * 1000 <? durationMs)%Z LONG_BLUR_SCORE
               (long_blur (Js.round (inject_Z durationMs / 1000))) st
        else st
    | _ => st
    end in
  (* Clipboard burst *)
  let st :=
    match type event with
    | clipboard =>
        let recent := orZero (clipboardChanges60s recentContext) in
        bump (CLIPBOARD_BURST_COUNT <? recent)%Z CLIPBOARD_BURST_SCORE
             (clipboard_burst recent) st
    | _ => st
    end in
  (* File created without prior typing *)
  let st :=
    match type event with
    | file_operation =>
        if isString (operation d) "create" then
          bump (match hadTypingBefore recentContext with
                | Some false => true
                | _ => false
                end)
               FILE_NO_TYPING_SCORE file_created_no_typing st
        else st
    | _ => st
    end in
  (* Clamp, then round *)
  let score := Js.min (fst st) 1 in
  (Js.round3 score, snd st).

(** [const flagged = score >= 0.5] of the ingest handler. *)
Definition flagged (score : Q) : bool := Qle_bool (5 # 10) score.

(** The participant document as far as [checkAlertConditions] reads it. *)
Record ParticipantDoc := mkParticipantDoc {
  suspicionScore : Q;
  stats : Stats
}.

Inductive Level := none | warning | critical.

Inductive AlertReason :=
| suspicion_score (score : Q)
| paste_count (count : Z)
| blur_total (seconds : Z).

Record AlertCheck := mkAlertCheck {
  shouldAlert : bool;
  level : Level;
  alertReasons : list AlertReason
}.

Definition isCritical (l : Level) : bool :=
  match l with critical => true | _ => false end.

Definition isNone (l : Level) : bool :=
  match l with none => true | _ => false end.

Definition checkAlertConditions (participant : ParticipantDoc) : AlertCheck :=
  let reasons : list AlertReason := [] in
  let level := none in
  let '(level, reasons) :=
    if Js.ltb ALERT_SCORE (suspicionScore participant)
    then (critical, reasons ++ [suspicion_score (suspicionScore participant)])
    else (level, reasons) in
  let '(level, reasons) :=
    if (WARNING_PASTE_COUNT <? pasteCount (stats participant))%Z
    then (if isCritical level then level else warning,
          reasons ++ [paste_count (pasteCount (stats participant))])
    else (level, reasons) in
  let '(level, reasons) :=
    if (WARNING_BLUR_TOTAL_MS <? windowBlurTotalMs (stats participant))%Z
    then (if isCritical level then level else warning,
          reasons ++
          [blur_total
             (Js.round
                (inject_Z (windowBlurTotalMs (stats participant)) / 1000))])
    else (level, reasons) in
  mkAlertCheck (negb (isNone level)) level reasons.

End EventScoring.

(** ** Tallies of a batch and the order on counter states *)
Module IngestShape.

Import Participant Events.
Local Open Scope Z_scope.

(** Number of events of the batch that satisfy [p]. *)
Definition tally (p : Event -> bool) (events : list Event) : Z :=
  Z.of_nat (List.length (filter p events)).

(** Sum of [f] over the events of the batch that satisfy [p]. *)
Definition total (p : Event -> bool) (f : Event -> Z) (events : list Event)
    : Z :=
  fold_right (fun e acc => f e + acc) 0 (filter p events).

Definition isPaste (e : Event) : bool :=
  match type e with paste => true | _ => false end.
Definition isAnomaly (e : Event) : bool :=
  match type e with
  | typing => truthyString (anomaly (data e))
  | _ => false
  end.
Definition isBlur (e : Event) : bool :=
  match type e with window_blur => true | _ => false end.
Definition isBlurStart (e : Event) : bool :=
  isBlur e && isFalse (focused (data e)).
Definition isClipboard (e : Event) : bool :=
  match type e with clipboard => true | _ => false end.
Definition isFileOperation (op : string) (e : Event) : bool :=
  match type e with
  | file_operation => isString (operation (data e)) op
  | _ => false
  end.

(** The payload numbers the counters add up are not negative. *)
Definition nonNegativePayload (e : Event) : Prop :=
  0 <= orZero (length (data e))
  /\ 0 <= orZero (unfocusedDurationMs (data e)).

(** Counter by counter, [a] is at most [b]. *)
Definition statsLe (a b : Stats) : Prop :=
  pasteCount a <= pasteCount b
  /\ pasteCharsTotal a <= pasteCharsTotal b
  /\ typingAnomalies a <= typingAnomalies b
  /\ windowBlurCount a <= windowBlurCount b
  /\ windowBlurTotalMs a <= windowBlurTotalMs b
  /\ clipboardChanges a <= clipboardChanges b
  /\ filesCreated a <= filesCreated b
  /\ filesDeleted a <= filesDeleted b.

End IngestShape.

(** ** utils/commitAnalysis.js: per-commit scoring, patterns, statistics *)
Module CommitPattern.

Import CommitAnalysis.
Local Open Scope Q_scope.

Definition LARGE_COMMIT_LINES : Z := 500.
Definition SHORT_MESSAGE_MAX_LEN : Z := 15.

(** A reason string, kept as its tag and the numbers interpolated into
    it. *)
Inductive CommitReason :=
| large_commit_short_msg (lines msgLen : Z)
| very_large_commit (lines : Z)
| burst_commit (seconds : Z)
| single_file_bulk_add (additions deletions : Z).

(** [(commit.message || "").trim().length]. *)
Definition messageLength (commit : Commit) : Z :=
  Z.of_nat (List.length
              (Similarity.trim (list_ascii_of_string (message commit)))).

(** [Math.round(interval / 1000)]. *)
Definition roundSeconds (interval : Z) : Z :=
  Js.round (inject_Z interval / 1000).

(** [0 < interval && interval < BURST_INTERVAL_MS]. *)
Definition isBurstInterval (interval : Z) : bool :=
  ((0 <? interval) && (interval <? BURST_INTERVAL_MS))%Z.

Definition detectSuspiciousCommit (commit : Commit) (prevCommit : option Commit)
    : Q * list CommitReason :=
  let st : Q * list CommitReason := (0, []) in
  let totalLines := (additions commit + deletions commit)%Z in
  let msgLen := messageLength commit in
  (* Large commit with short message *)
  let st :=
    EventScoring.bump
      ((LARGE_COMMIT_LINES <? totalLines)%Z
       && (msgLen <? SHORT_MESSAGE_MAX_LEN)%Z)
      (5 # 10) (large_commit_short_msg totalLines msgLen) st in
  (* Very large single commit *)
  let st :=
    EventScoring.bump (1000 <? totalLines)%Z (3 # 10)
                      (very_large_commit totalLines) st in
  (* Burst commit (close to previous) *)
  let st :=
    match prevCommit with
    | Some prev =>
        let interval := (date commit - date prev)%Z in
        EventScoring.bump (isBurstInterval interval) (2 # 10)
                          (burst_commit (roundSeconds interval)) st
    | None => st
    end in
  (* Single-file commit with huge additions *)
  let st :=
    EventScoring.bump
      ((filesChanged commit =? 1)%Z && (200 <? additions commit)%Z
       && (deletions commit <? 10)%Z)
      (4 # 10)
      (single_file_bulk_add (additions commit) (deletions commit)) st in
  (Js.min (Js.round3 (fst st)) 1, snd st).

Record SuspiciousCommit := mkSuspiciousCommit {
  suspiciousSha : string;
  suspiciousMessage : string;
  suspiciousDate : Z;
  score : Q;
  reasons : list CommitReason
}.

Record BurstCommit := mkBurstCommit {
  burstSha : string;
  burstDate : Z;
  intervalSeconds : Z
}.

Record Pattern := mkPattern {
  burstCommits : list BurstCommit;
  suspiciousCommits : list SuspiciousCommit;
  avgScore : Q
}.

(** [i > 0 ? commits[i - 1] : null]. *)
Definition prevAt (commits : list Commit) (i : nat) : option Commit :=
  if (0 <? i)%nat then nth_error commits (i - 1) else None.

(** One round of the loop of [analyzeCommitPattern] on the state
    [(burstCommits, suspiciousCommits, totalScore)]. *)
Definition patternStep (commits : list Commit)
    (st : list BurstCommit * list SuspiciousCommit * Q) (i : nat)
    : list BurstCommit * list SuspiciousCommit * Q :=
  let '(bursts, suspicious, totalScore) := st in
  let commit := nth i commits noCommit in
  let prev := prevAt commits i in
  let result := detectSuspiciousCommit commit prev in
  let totalScore := totalScore + fst result in
  let suspicious :=
    if Js.ltb 0 (fst result)
    then suspicious ++
         [mkSuspiciousCommit (sha commit) (message commit) (date commit)
                             (fst result) (snd result)]
    else suspicious in
  let bursts :=
    match prev with
    | Some p =>
        let interval := (date commit - date p)%Z in
        if isBurstInterval interval
        then bursts ++
             [mkBurstCommit (sha commit) (date commit)
                            (roundSeconds interval)]
        else bursts
    | None => bursts
    end in
  (bursts, suspicious, totalScore).

Definition analyzeCommitPattern (commits : list Commit) : Pattern :=
  match commits with
  | [] => mkPattern [] [] 0
  | _ :: _ =>
      let '(bursts, suspicious, totalScore) :=
        fold_left (patternStep commits) (seq 0 (List.length commits))
                  ([], [], 0) in
      mkPattern bursts suspicious
        (Js.round3
           (totalScore / inject_Z (Z.of_nat (List.length commits))))
  end.

Record CommitStats := mkCommitStats {
  totalCommits : Z;
  totalAdditions : Z;
  totalDeletions : Z;
  totalFilesChanged : Z;
  avgAdditionsPerCommit : Z;
  avgDeletionsPerCommit : Z;
  avgFilesPerCommit : Z;
  avgIntervalMs : Z;
  firstCommitDate : option Z;
  lastCommitDate : option Z
}.

(** One round of the loop of [calculateCommitStats] on the state
    [(totalAdditions, totalDeletions, totalFilesChanged, intervals)]. *)
Definition statsStep (commits : list Commit)
    (st : Z * Z * Z * list Z) (i : nat) : Z * Z * Z * list Z :=
  let '(adds, dels, files, intervals) := st in
  let commit := nth i commits noCommit in
  let intervals :=
    if (0 <? i)%nat then
      let interval := gapAt commits i in
      if (0 <? interval)%Z then intervals ++ [interval] else intervals
    else intervals in
  ((adds + additions commit)%Z, (dels + deletions commit)%Z,
   (files + filesChanged commit)%Z, intervals).

(** [Math.round(a / b)] on integers. *)
Definition roundDiv (a b : Z) : Z := Js.round (inject_Z a / inject_Z b).

(** [arr.reduce((a, b) => a + b, 0)]. *)
Definition sum (arr : list Z) : Z := fold_left Z.add arr 0%Z.

Definition calculateCommitStats (commits : list Commit) : CommitStats :=
  match commits with
  | [] => mkCommitStats 0 0 0 0 0 0 0 0 None None
  | first :: _ =>
      let len := Z.of_nat (List.length commits) in
      let '(adds, dels, files, intervals) :=
        fold_left (statsStep commits) (seq 0 (List.length commits))
                  (0%Z, 0%Z, 0%Z, []) in
      let avgInterval :=
        match intervals with
        | [] => 0%Z
        | _ :: _ =>
            roundDiv (sum intervals) (Z.of_nat (List.length intervals))
        end in
      mkCommitStats len adds dels files
        (roundDiv adds len) (roundDiv dels len) (roundDiv files len)
        avgInterval
        (Some (date first))
        (Some (timeAt commits (List.length commits - 1)))
  end.

(** Commit times strictly increase. *)
Definition strictlyChronological (commits : list Commit) : Prop :=
  forall i, (0 < i < List.length commits)%nat -> (0 < gapAt commits i)%Z.

(** What the loop of [analyzeCommitPattern] computes and pushes at index
    [i]. *)
Definition resultAt (commits : list Commit) (i : nat)
    : Q * list CommitReason :=
  detectSuspiciousCommit (nth i commits noCommit) (prevAt commits i).

Definition suspiciousAt (commits : list Commit) (i : nat)
    : list SuspiciousCommit :=
  let commit := nth i commits noCommit in
  if Js.ltb 0 (fst (resultAt commits i))
  then [mkSuspiciousCommit (sha commit) (message commit) (date commit)
                           (fst (resultAt commits i))
                           (snd (resultAt commits i))]
  else [].

Definition burstAt (commits : list Commit) (i : nat) : list BurstCommit :=
  let commit := nth i commits noCommit in
  match prevAt commits i with
  | Some p =>
      if isBurstInterval (date commit - date p)
      then [mkBurstCommit (sha commit) (date commit)
                          (roundSeconds (date commit - date p))]
      else []
  | None => []
  end.

(** The positive interval the loop of [calculateCommitStats] pushes at
    index [i]. *)
Definition intervalAt (commits : list Commit) (i : nat) : list Z :=
  if (0 <? i)%nat then
    if (0 <? gapAt commits i)%Z then [gapAt commits i] else []
  else [].

End CommitPattern.

(** ** Windows of hashes and the order of flags *)
Module SimilarityShape.

Import Similarity.
Local Open Scope Z_scope.

(** [hashes.slice(i, i + w)]. *)
Definition windowAt (hashes : list Z) (w i : nat) : list Z :=
  firstn w (skipn i hashes).

(** [m] is a least element of [window]. *)
Definition leastOf (m : Z) (window : list Z) : Prop :=
  In m window /\ forall x, In x window -> m <= x.

(** The state [(fingerprints, prevMin)] of the loop of [winnow]: the set has
    no duplicates, holds only hashes, and holds [prevMin] unless that is
    still the initial -1. *)
Definition loopInvariant (hashes : list Z) (st : list Z * Z) : Prop :=
  NoDup (fst st)
  /\ (forall x, In x (fst st) -> In x hashes)
  /\ (snd st = -1 \/ In (snd st) (fst st)).

(** A 32-bit unsigned value. *)
Definition isUint32 (h : Z) : Prop := 0 <= h < 2 ^ 32.

(** [f] does not come after [g] in an order by similarity, highest
    first. *)
Definition notBelow (f g : GitHubSync.Flag) : Prop :=
  (GitHubSync.flagSimilarity g <= GitHubSync.flagSimilarity f)%Q.

(** A per-repository index whose fingerprint sets have no duplicates. *)
Definition setsOnly (fpMap : list (string * Fingerprint)) : Prop :=
  Forall (fun fp => NoDup (fingerprints fp)) (map snd fpMap).

End SimilarityShape.



(** ** How the match-persisting operations change a document *)
Module SyncShape.

Import GitHubAnalysis.
Local Open Scope Q_scope.

(** The stored score is the one [recalculateSuspicion] computes from the
    stored signals. *)
Definition upToDate (doc : t) : Prop :=
  githubSuspicionScore doc == snd (recalculateSuspicion doc).

Definition scoreNotLowered (before after : t) : Prop :=
  githubSuspicionScore before <= githubSuspicionScore after.

(** The same participant's document, with every recorded match still in
    place and possibly more after them. *)
Definition matchesKept (before after : t) : Prop :=
  participantId after = participantId before
  /\ exists added,
       similarityMatches after = similarityMatches before ++ added.

(** [after] comes from [before] by pushing matches: only the matches and
    the highest similarity changed, and the similarity did not go down. *)
Definition pushed (before after : t) : Prop :=
  matchesKept before after
  /\ idleBursts after = idleBursts before
  /\ avgCommitSuspicionScore after = avgCommitSuspicionScore before
  /\ highestSimilarity before <= highestSimilarity after.

(** Pushed, and the score is the old one or a recalculated one. *)
Definition settled (before after : t) : Prop :=
  pushed before after
  /\ (githubSuspicionScore after = githubSuspicionScore before
      \/ githubSuspicionScore after = snd (recalculateSuspicion after)).

End SyncShape.

(** ** routes/events.js: context, typing statistics and scores of a batch *)
Module IngestHandler.

Import Participant Events EventScoring.
Local Open Scope Q_scope.

(** A document of the events collection, as far as the handler writes and
    queries it. *)
Record EventDoc := mkEventDoc {
  docParticipantId : string;
  eventType : EventType;
  docTimestamp : Z;
  docData : EventData;
  docSuspicionScore : Q;
  docFlagged : bool
}.

(** [Event.countDocuments(query)]. *)
Definition countDocuments (query : EventDoc -> bool)
    (collection : list EventDoc) : Z :=
  Z.of_nat (List.length (filter query collection)).

Definition isClipboardDoc (d : EventDoc) : bool :=
  match eventType d with clipboard => true | _ => false end.

(** [eventType: { $in: ["typing", "file_change"] }]. *)
Definition isTypingDoc (d : EventDoc) : bool :=
  match eventType d with typing | file_change => true | _ => false end.

(** Step 2 of the handler: the context, counted at time [now] on the
    documents stored so far. *)
Definition recentContextOf (collection : list EventDoc) (id : string)
    (now : Z) : RecentContext :=
  let sixtySecondsAgo := (now - 60000)%Z in
  let recentClipboardCount :=
    countDocuments
      (fun d => String.eqb (docParticipantId d) id && isClipboardDoc d
                && (sixtySecondsAgo <=? docTimestamp d)%Z)
      collection in
  let hadTypingBefore :=
    (0 <? countDocuments
            (fun d => String.eqb (docParticipantId d) id && isTypingDoc d)
            collection)%Z in
  mkRecentContext (Some recentClipboardCount) (Some hadTypingBefore).

(** The [typingStats] of the handler: zeros, or the mean and the variance of
    the intervals of the batch's typing pattern ([typingPattern] is the list
    of the [interval] fields). *)
Definition batchTypingStats (typingPattern : list Z) : TypingStats :=
  match typingPattern with
  | [] => mkTypingStats (Some 0) (Some 0)
  | _ :: _ =>
      let intervals := map inject_Z typingPattern in
      let n := inject_Z (Z.of_nat (List.length intervals)) in
      let sum := fold_left Qplus intervals 0 in
      let avgInterval := sum / n in
      let mean := avgInterval in
      let variance :=
        fold_left (fun a v => a + (v - mean) ^ 2) intervals 0 / n in
      mkTypingStats (Some avgInterval) (Some variance)
  end.

(** One round of the scoring loop on [(eventDocs, batchMaxScore)]; an event
    comes with its [data.interval]. *)
Definition scoreEvent (id : string) (typingStats : TypingStats)
    (recentContext : RecentContext) (st : list EventDoc * Q)
    (e : Event * option Z) : list EventDoc * Q :=
  let event := fst e in
  let result :=
    calculateEventSuspicion event (snd e) typingStats recentContext in
  let score := fst result in
  let batchMaxScore := if Js.ltb (snd st) score then score else snd st in
  (fst st ++ [mkEventDoc id (type event) (timestamp event) (data event)
                         score (flagged score)],
   batchMaxScore).

(** Step 3 of the handler. *)
Definition scoreEvents (id : string) (events : list (Event * option Z))
    (typingStats : TypingStats) (recentContext : RecentContext)
    : list EventDoc * Q :=
  fold_left (scoreEvent id typingStats recentContext) events ([], 0).

(** Steps 2 and 3 and the bulk insert, on the events collection. *)
Definition storeBatch (collection : list EventDoc) (id : string) (now : Z)
    (events : list (Event * option Z)) (typingPattern : list Z)
    : list EventDoc :=
  let recentContext := recentContextOf collection id now in
  let typingStats := batchTypingStats typingPattern in
  collection ++ fst (scoreEvents id events typingStats recentContext).

(** The number of the participant's clipboard documents of the last 60
    seconds. *)
Definition recentClipboard (collection : list EventDoc) (id : string)
    (now : Z) : Z :=
  orZero (clipboardChanges60s (recentContextOf collection id now)).

End IngestHandler.

(** ** models/TypingPattern.js, and step 4 of the ingest handler *)
Module TypingPattern.

Import Events SuspicionCalculator.
Local Open Scope R_scope.

Record t := mk {
  intervals : list Z;
  avgInterval : R;
  avgWPM : R;
  variance : R;
  stdDev : R;
  sampleCount : Z
}.

(** [new TypingPattern({ participantId, intervals: [] })], with the schema
    defaults. *)
Definition fresh : t := mk [] 0 0 0 0 0.

(** [Math.round(x * 100) / 100]. *)
Definition round2 (x : R) : R := IZR (round (x * 100)) / 100.

(** [arr.reduce((a, b) => a + b, 0)]. *)
Definition sum (arr : list R) : R := fold_left Rplus arr 0.

(** The mean of the stored intervals. *)
Definition mean (intervals : list Z) : R :=
  sum (map IZR intervals) / INR (List.length intervals).

Definition recalculate (this : t) : t :=
  match intervals this with
  | [] => mk (intervals this) 0 0 0 0 (sampleCount this)
  | _ :: _ =>
      let mean := mean (intervals this) in
      let avgInterval := round2 mean in
      let avgWPM :=
        if Rlt_dec 0 mean then round2 (60000 / mean / 5)
        else avgWPM this in
      let squareDiffs :=
        map (fun v => (v - mean) ^ 2) (map IZR (intervals this)) in
      let variance :=
        round2 (sum squareDiffs / INR (List.length (intervals this))) in
      let stdDev := round2 (sqrt variance) in
      mk (intervals this) avgInterval avgWPM variance stdDev
         (Z.of_nat (List.length (intervals this)))
  end.

(** Step 4 of the handler on the participant's pattern document
    ([None]: there is none yet); [typingPattern] is the list of the
    [interval] fields of the batch. *)
Definition updateTypingPattern (patternDoc : option t)
    (typingPattern : list Z) : option t :=
  match typingPattern with
  | [] => patternDoc
  | _ :: _ =>
      let doc := match patternDoc with Some d => d | None => fresh end in
      Some (recalculate
              (mk (appendIntervals (intervals doc) typingPattern)
                  (avgInterval doc) (avgWPM doc) (variance doc) (stdDev doc)
                  (sampleCount doc)))
  end.

(** The intervals stored before step 4. *)
Definition storedIntervals (patternDoc : option t) : list Z :=
  match patternDoc with Some d => intervals d | None => [] end.

End TypingPattern.

(** ** routes/github-monitor.js: one monitoring run *)
Module Monitor.

Import GitHubAnalysis CommitAnalysis CommitPattern.
Local Open Scope Z_scope.

(** The analysis document: the fields the scoring uses ([scored]) and the
    ones a monitoring run writes beside them ([hourly] and [totalGap] are
    [timingAnalysis.hourlyDistribution] and [timingAnalysis.totalGapMs]). *)
Record Analysis := mkAnalysis {
  scored : GitHubAnalysis.t;
  commitStats : CommitStats;
  hourly : list Z;
  totalGap : Z;
  suspicious : list SuspiciousCommit;
  bursts : list BurstCommit;
  lastProcessedSha : string;
  lastSyncAt : Z
}.

(** The loop over [rawCommits], each taken with the detail fetched for it:
    it stops at the commit that was processed last. *)
Fixpoint collect (lastProcessedSha : string) (rawCommits : list Commit)
    : list Commit :=
  match rawCommits with
  | [] => []
  | rc :: rest =>
      if negb (String.eqb lastProcessedSha "")
         && String.eqb (sha rc) lastProcessedSha
      then []
      else rc :: collect lastProcessedSha rest
  end.

(** [commits.sort((a, b) => new Date(a.date) - new Date(b.date))]: a stable
    sort, oldest first. *)
Fixpoint insertByDate (c : Commit) (sorted : list Commit) : list Commit :=
  match sorted with
  | [] => [c]
  | x :: rest =>
      if date x <? date c then x :: insertByDate c rest
      else c :: x :: rest
  end.

Definition sortByDate (commits : list Commit) : list Commit :=
  fold_right insertByDate [] commits.

(** [arr.slice(-n)]. *)
Definition lastN {A : Type} (n : nat) (arr : list A) : list A :=
  skipn (List.length arr - n) arr.

(** [analysis.lastSyncAt = new Date()]. *)
Definition touch (analysis : Analysis) (now : Z) : Analysis :=
  mkAnalysis (scored analysis) (commitStats analysis) (hourly analysis)
             (totalGap analysis) (suspicious analysis) (bursts analysis)
             (lastProcessedSha analysis) now.

(** [monitorRepository] from the point where the document and the fetched
    commits are known; [now] is the time of the run. *)
Definition monitorRepository (analysis : Analysis) (rawCommits : list Commit)
    (now : Z) : Analysis :=
  match rawCommits with
  | [] => touch analysis now
  | _ :: _ =>
      match collect (lastProcessedSha analysis) rawCommits with
      | [] => touch analysis now
      | (_ :: _) as collected =>
          let commits := sortByDate collected in
          let patternResult := analyzeCommitPattern commits in
          let timingResult := analyzeTimingDistribution commits in
          let statsResult := calculateCommitStats commits in
          let doc :=
            GitHubAnalysis.mk
              (participantId (scored analysis))
              (timingIdleBursts timingResult)
              (avgScore patternResult)
              (similarityMatches (scored analysis))
              (highestSimilarity (scored analysis))
              (githubSuspicionScore (scored analysis)) in
          mkAnalysis
            (fst (recalculateSuspicion doc))
            statsResult
            (hourlyDistribution timingResult)
            (totalGapMs timingResult)
            (lastN 200 (suspicious analysis
                        ++ suspiciousCommits patternResult))
            (lastN 100 (bursts analysis ++ burstCommits patternResult))
            (sha (nth (List.length commits - 1) commits noCommit))
            now
      end
  end.


(** The suspicious commits a run finds among the commits it collects. *)
Definition found (analysis : Analysis) (rawCommits : list Commit)
    : list SuspiciousCommit :=
  suspiciousCommits
    (analyzeCommitPattern
       (sortByDate (collect (lastProcessedSha analysis) rawCommits))).

End Monitor.

(** ** config/database.js: connecting with retries *)
Module Database.

Local Open Scope Z_scope.

(** How [connectDatabase] ends: it returns once connected, or it calls
    [process.exit(code)]. *)
Inductive Outcome := connected | exited (code : Z).

(** [Math.min(Math.pow(2, attempt) * 1000, 30000)]. *)
Definition delayAfter (attempt : Z) : Z := Z.min (2 ^ attempt * 1000) 30000.

(** The [while (attempt < maxRetries)] loop; [remaining] counts the rounds
    left, [maxRetries - attempt]. [connects k] tells whether the call
    number [k] (from 0) of [mongoose.connect] succeeds; [slept] collects the
    delays waited for. *)
Fixpoint attemptLoop (connects : nat -> bool) (maxRetries : Z)
    (remaining : nat) (attempt : Z) (slept : list Z) : Outcome * list Z :=
  match remaining with
  | O => (exited 1, slept)
  | S remaining' =>
      if connects (Z.to_nat attempt) then (connected, slept)
      else
        let attempt := attempt + 1 in
        let delay := delayAfter attempt in
        let slept :=
          if attempt <? maxRetries then slept ++ [delay] else slept in
        attemptLoop connects maxRetries remaining' attempt slept
  end.

Definition connectDatabase (connects : nat -> bool) (maxRetries : Z)
    : Outcome * list Z :=
  attemptLoop connects maxRetries (Z.to_nat maxRetries) 0 [].

(** The delays after the failed attempts number 1 to [n]. *)
Definition backoff (n : nat) : list Z :=
  map (fun k => delayAfter (Z.of_nat k)) (seq 1 n).

End Database.



(* ===================================================================== *)
(** * Part II: properties                                                  *)
(* ===================================================================== *)

Module JsFacts.

Import Lqa.
Local Open Scope Q_scope.

Lemma ltb_lt (a b : Q) : Js.ltb a b = true <-> a < b.
Proof.
  unfold Js.ltb. rewrite negb_true_iff.
  split; intro H.
  - apply Qnot_le_lt. intro Hle. apply Qle_bool_iff in Hle. congruence.
  - destruct (Qle_bool b a) eqn:E; [|reflexivity].
    apply Qle_bool_iff in E. exfalso. apply (Qlt_not_le _ _ H E).
Qed.

Lemma ltb_ge (a b : Q) : Js.ltb a b = false <-> b <= a.
Proof.
  unfold Js.ltb. rewrite negb_false_iff. apply Qle_bool_iff.
Qed.

#[export] Instance round_comp : Proper (Qeq ==> eq) Js.round.
Proof. intros x y H. unfold Js.round. now rewrite H. Qed.

#[export] Instance round3_comp : Proper (Qeq ==> Qeq) Js.round3.
Proof. intros x y H. unfold Js.round3. now rewrite H. Qed.

Lemma round_mono (x y : Q) : x <= y -> (Js.round x <= Js.round y)%Z.
Proof.
  intro H. unfold Js.round. apply Qfloor_resp_le. lra.
Qed.

Lemma round_Z (z : Z) : Js.round (inject_Z z) = z.
Proof.
  unfold Js.round.
  assert (Hlo : (z <= Qfloor (inject_Z z + (1 # 2)))%Z).
  { rewrite <- (Qfloor_Z z) at 1. apply Qfloor_resp_le. lra. }
  assert (Hhi : (Qfloor (inject_Z z + (1 # 2)) < z + 1)%Z).
  { rewrite Zlt_Qlt.
    eapply Qle_lt_trans; [apply Qfloor_le|].
    rewrite inject_Z_plus. change (inject_Z 1) with 1. lra. }
  lia.
Qed.

Lemma round3_mono (x y : Q) : x <= y -> Js.round3 x <= Js.round3 y.
Proof.
  intro H. unfold Js.round3.
  assert (Hz : (Js.round (x * 1000) <= Js.round (y * 1000))%Z)
    by (apply round_mono; lra).
  rewrite Zle_Qle in Hz.
  apply Qmult_le_compat_r; [exact Hz|]. discriminate.
Qed.

Lemma round3_1 : Js.round3 1 == 1.
Proof. reflexivity. Qed.


End JsFacts.

(** ** The aggregate source suspicion score *)
Module GitHubAnalysisFacts.

Import GitHubAnalysis Lqa.
Local Open Scope Q_scope.








End GitHubAnalysisFacts.

(** ** The aggregate participant suspicion score *)
Module SuspicionCalculatorFacts.

Import Participant SuspicionCalculator Lra.
Local Open Scope R_scope.

Lemma round_monotone (x y : R) : x <= y -> (round x <= round y)%Z.
Proof. intro H. unfold round. apply Zfloor_le. lra. Qed.

Lemma round_of_integer (z : Z) : round (IZR z) = z.
Proof. unfold round. apply Zfloor_eq. lra. Qed.

(** Rounding to three decimals and clamping at 1 commute. *)
Lemma min_round_clamp (x : R) :
  Rmin (IZR (round (x * 1000)) / 1000) 1
  = IZR (round (Rmin 1 x * 1000)) / 1000.
Proof.
  assert (H1 : IZR (round (1 * 1000)) / 1000 = 1).
  { replace (1 * 1000) with (IZR 1000) by lra. rewrite round_of_integer. lra. }
  destruct (Rle_lt_dec x 1) as [Hle | Hgt].
  - rewrite (Rmin_right 1 x) by exact Hle.
    apply Rmin_left. rewrite <- H1.
    apply Rmult_le_compat_r; [lra|].
    apply IZR_le, round_monotone. lra.
  - rewrite (Rmin_left 1 x) by lra.
    rewrite H1. apply Rmin_right. rewrite <- H1 at 1.
    apply Rmult_le_compat_r; [lra|].
    apply IZR_le, round_monotone. lra.
Qed.

Lemma ln10_pos : 0 < ln 10.
Proof. rewrite <- ln_1. apply ln_increasing; lra. Qed.



Lemma calculateParticipantSuspicion_spec (stats : Stats) :
  calculateParticipantSuspicion stats = SpecParticipant.participantScore stats.
Proof.
  unfold calculateParticipantSuspicion, SpecParticipant.participantScore,
    SpecParticipant.onlyWhen, WARNING_BLUR_TOTAL_MS.
  rewrite min_round_clamp. do 5 f_equal.
  rewrite (Rmin_comm 0.5), (Rmin_comm 0.3), (Rmin_comm 0.2),
    (Rmin_comm 0.15), (Rmult_comm 0.18).
  generalize (Rmin (log10 (IZR (pasteCount stats + 1)) * 0.18) 0.5)
             (Rmin (IZR (pasteCharsTotal stats) / 10000) 0.3)
             (Rmin (IZR (typingAnomalies stats) / 100) 0.2)
             (Rmin (IZR (clipboardChanges stats) / 200) 0.15).
  intros a b c d.
  destruct (0 <? pasteCount stats)%Z, (1000 <? pasteCharsTotal stats)%Z,
    (5 <? typingAnomalies stats)%Z, (600000 <? windowBlurTotalMs stats)%Z,
    (20 <? clipboardChanges stats)%Z; lra.
Qed.



End SuspicionCalculatorFacts.

(** ** Idle-burst detection *)
Module CommitAnalysisFacts.

Import GitHubAnalysis CommitAnalysis SpecTiming.
Local Open Scope Z_scope.

Section Timing.

Variable commits : list Commit.

Lemma timingStep_idleBursts (acc : Timing) (i : nat) :
  timingIdleBursts (timingStep commits acc i)
  = timingIdleBursts acc ++ episodesAt commits i.
Proof.
  unfold timingStep, episodesAt.
  destruct (0 <? i)%nat; cbn [timingIdleBursts];
    [| now rewrite app_nil_r].
  destruct (LONG_IDLE_MS <? gapAt commits i); cbn [timingIdleBursts];
    [| now rewrite app_nil_r].
  destruct (3 <=? lookAhead commits (i + 1)
                    (List.length commits - (i + 1)) 1);
    cbn [timingIdleBursts]; [reflexivity | now rewrite app_nil_r].
Qed.

Lemma fold_timingStep_idleBursts (indices : list nat) (acc : Timing) :
  timingIdleBursts (fold_left (timingStep commits) indices acc)
  = timingIdleBursts acc ++ flat_map (episodesAt commits) indices.
Proof.
  revert acc. induction indices as [| i rest IH]; intro acc; simpl.
  - now rewrite app_nil_r.
  - rewrite IH, timingStep_idleBursts, <- app_assoc. reflexivity.
Qed.

Lemma analyze_idleBursts :
  timingIdleBursts (analyzeTimingDistribution commits)
  = flat_map (episodesAt commits) (seq 0 (List.length commits)).
Proof.
  unfold analyzeTimingDistribution.
  now rewrite fold_timingStep_idleBursts.
Qed.

(** What the look-ahead loop counts: the [m] consecutive short gaps from
    index [j] on, up to the end of the array or the first gap that is not
    short. *)
Lemma lookAhead_run (remaining : nat) :
  forall (j : nat) (burstCount : Z),
  exists m : nat,
    (m <= remaining)%nat
    /\ lookAhead commits j remaining burstCount = burstCount + Z.of_nat m
    /\ (forall k, (j <= k < j + m)%nat -> gapAt commits k < BURST_INTERVAL_MS)
    /\ (m = remaining \/ BURST_INTERVAL_MS <= gapAt commits (j + m)).
Proof.
  induction remaining as [| r IH]; intros j c.
  - exists 0%nat. simpl. repeat split; lia.
  - simpl. destruct (Z.ltb_spec (gapAt commits j) BURST_INTERVAL_MS) as [Hs | Hl].
    + destruct (IH (S j) (c + 1)) as (m & Hm & Heq & Hrun & Hstop).
      exists (S m). repeat split.
      * lia.
      * rewrite Heq. lia.
      * intros k Hk. destruct (Nat.eq_dec k j) as [-> | Hne]; [exact Hs|].
        apply Hrun. lia.
      * destruct Hstop as [-> | Hstop]; [now left | right].
        now replace (j + S m)%nat with (S j + m)%nat by lia.
    + exists 0%nat. repeat split; try lia.
      right. now rewrite Nat.add_0_r.
Qed.

Lemma burstRun_unique (i n n' : nat) :
  burstRun commits i n -> burstRun commits i n' -> n = n'.
Proof.
  intros (H1 & Hlen & Hrun & Hstop) (H1' & Hlen' & Hrun' & Hstop').
  destruct (Nat.lt_trichotomy n n') as [Hlt | [Heq | Hgt]]; [| exact Heq |].
  - destruct Hstop as [He | Hge]; [lia|].
    specialize (Hrun' (i + n)%nat ltac:(lia)). lia.
  - destruct Hstop' as [He | Hge]; [lia|].
    specialize (Hrun (i + n')%nat ltac:(lia)). lia.
Qed.

(** The counter the code computes at index [i] is the length of the burst
    run that starts at [i]. *)
Lemma lookAhead_burstRun (i : nat) :
  (i < List.length commits)%nat ->
  exists n : nat,
    lookAhead commits (i + 1) (List.length commits - (i + 1)) 1 = Z.of_nat n
    /\ burstRun commits i n.
Proof.
  intro Hi.
  destruct (lookAhead_run (List.length commits - (i + 1)) (i + 1) 1)
    as (m & Hm & Heq & Hrun & Hstop).
  exists (S m). split; [rewrite Heq; lia|].
  unfold burstRun. change (5 * 60 * 1000) with BURST_INTERVAL_MS.
  repeat split; try lia.
  - intros j Hj. apply Hrun. lia.
  - destruct Hstop as [-> | Hstop]; [left; lia | right].
    now replace (i + S m)%nat with (i + 1 + m)%nat by lia.
Qed.

Lemma episodesAt_spec (i : nat) (e : IdleBurst) :
  (i < List.length commits)%nat ->
  In e (episodesAt commits i) <->
  exists n, idleBurstAt commits i n
            /\ e = mkIdleBurst (timeAt commits (i - 1)) (timeAt commits i)
                               (roundMinutes (gapAt commits i)) (Z.of_nat n).
Proof.
  intro Hi. unfold episodesAt, idleBurstAt.
  change (30 * 60 * 1000) with LONG_IDLE_MS.
  destruct (lookAhead_burstRun i Hi) as (n & Hn & Hrun).
  rewrite Hn.
  destruct (Nat.ltb_spec 0 i) as [Hpos | Hzero].
  - destruct (Z.ltb_spec LONG_IDLE_MS (gapAt commits i)) as [Hgap | Hgap].
    + destruct (Z.leb_spec 3 (Z.of_nat n)) as [H3 | H3].
      * split.
        -- intros [<- | []]. exists n. split; [| reflexivity].
           split; [lia|]. split; [exact Hgap|]. split; [lia | exact Hrun].
        -- intros (n' & (_ & _ & _ & Hrun') & ->).
           rewrite (burstRun_unique i n' n Hrun' Hrun). now left.
      * split; [intros [] |].
        intros (n' & (_ & _ & H3' & Hrun') & _).
        rewrite (burstRun_unique i n' n Hrun' Hrun) in H3'. lia.
    + split; [intros [] |]. intros (n' & (_ & Hg & _) & _). lia.
  - split; [intros [] |]. intros (n' & (Hr & _) & _). lia.
Qed.

End Timing.


(** The specification's example: commits at minutes 0, 45, 46, 47, 48. *)
Example idleBurst_minutes_0_45_46_47_48 :
  let at_minute m := mkCommit "c" "msg" (m * 60000) 1 0 1 in
  timingIdleBursts
    (analyzeTimingDistribution (map at_minute [0; 45; 46; 47; 48]))
  = [mkIdleBurst 0 (45 * 60000) 45 4].
Proof. reflexivity. Qed.

End CommitAnalysisFacts.

(** ** Ingest counters and the typing pattern *)
Module EventsFacts.

Import Participant Events.
Local Open Scope Z_scope.

(** C5 (as the code has it).  A window_blur event increments
    windowBlurCount by 1 exactly when data.focused is false and,
    independently of data.focused, adds data.unfocusedDurationMs to
    windowBlurTotalMs whenever that field is present; every other counter
    is left alone. *)
Theorem window_blur_counters (stats : Stats) (event : Event) :
  type event = window_blur ->
  let stats' := updateStats stats event in
  windowBlurCount stats'
    = windowBlurCount stats
      + (if isFalse (focused (data event)) then 1 else 0)
  /\ windowBlurTotalMs stats'
    = windowBlurTotalMs stats + orZero (unfocusedDurationMs (data event))
  /\ pasteCount stats' = pasteCount stats
  /\ pasteCharsTotal stats' = pasteCharsTotal stats
  /\ typingAnomalies stats' = typingAnomalies stats
  /\ clipboardChanges stats' = clipboardChanges stats
  /\ filesCreated stats' = filesCreated stats
  /\ filesDeleted stats' = filesDeleted stats.
Proof.
  intros Ht stats'. subst stats'. unfold updateStats. rewrite Ht.
  cbn [windowBlurCount windowBlurTotalMs pasteCount pasteCharsTotal
       typingAnomalies clipboardChanges filesCreated filesDeleted].
  split; [destruct (isFalse _); lia|].
  split; [| repeat split].
  destruct (unfocusedDurationMs (data event)) as [d |]; simpl; [| lia].
  destruct (Z.eqb_spec d 0) as [-> | _]; simpl; lia.
Qed.

Lemma window_blur_counters_witness :
  let blurred :=
    mkEvent window_blur 1000 (mkData None None (Some false) None None) in
  let refocused :=
    mkEvent window_blur 6000
            (mkData None None (Some true) (Some 5000) None) in
  let stats' := ingestStats noStats [blurred; refocused] in
  windowBlurCount stats' = 1 /\ windowBlurTotalMs stats' = 5000.
Proof.
  intros blurred refocused stats'. subst stats'.
  unfold ingestStats. cbn [fold_left].
  pose proof (window_blur_counters noStats blurred eq_refl) as H1.
  pose proof (window_blur_counters (updateStats noStats blurred) refocused
                eq_refl) as H2.
  cbv zeta in H1, H2.
  destruct H1 as (Hc1 & Ht1 & _). destruct H2 as (Hc2 & Ht2 & _).
  rewrite Hc2, Ht2, Hc1, Ht1. split; reflexivity.
Defined.

(** C5 as stated fails: a window_blur event with data.focused = true that
    carries unfocusedDurationMs = 5000 (what the editor agent sends when the
    window regains focus) changes windowBlurTotalMs. *)
Lemma window_blur_focused_true_adds_duration :
  let event :=
    mkEvent window_blur 6000
            (mkData None None (Some true) (Some 5000) None) in
  type event = window_blur
  /\ focused (data event) <> Some false
  /\ windowBlurTotalMs (updateStats noStats event) = 5000
  /\ windowBlurTotalMs (updateStats noStats event)
     <> windowBlurTotalMs noStats.
Proof.
  intro event. repeat split; discriminate.
Qed.

(** [slice(-n)] keeps a suffix. *)
Lemma sliceLast_suffix (n : Z) (arr : list Z) :
  exists dropped, arr = dropped ++ sliceLast n arr.
Proof.
  unfold sliceLast.
  exists (firstn (Z.to_nat (Z.max (Z.of_nat (List.length arr) - n) 0)) arr).
  symmetry. apply firstn_skipn.
Qed.

Lemma sliceLast_length (n : Z) (arr : list Z) :
  0 <= n <= Z.of_nat (List.length arr) ->
  Z.of_nat (List.length (sliceLast n arr)) = n.
Proof.
  intro H. unfold sliceLast. rewrite length_skipn. lia.
Qed.

(** C7.  After every append of a batch to the stored intervals the
    sequence has at most 10000 elements; when the append pushes the length
    above 10000, exactly the most recent 8000 intervals are kept. *)
Theorem appendIntervals_capped (stored batch : list Z) :
  Z.of_nat (List.length (appendIntervals stored batch)) <= 10000
  /\ (10000 < Z.of_nat (List.length (stored ++ batch)) ->
      Z.of_nat (List.length (appendIntervals stored batch)) = 8000
      /\ exists oldest,
           stored ++ batch = oldest ++ appendIntervals stored batch).
Proof.
  unfold appendIntervals.
  destruct (Z.ltb_spec 10000 (Z.of_nat (List.length (stored ++ batch))))
    as [Hover | Hfit].
  - assert (Hlen : Z.of_nat (List.length (sliceLast 8000 (stored ++ batch)))
                   = 8000) by (apply sliceLast_length; lia).
    split; [lia|]. intros _. split; [exact Hlen|].
    apply sliceLast_suffix.
  - split; [exact Hfit | lia].
Qed.

Lemma appendIntervals_capped_witness :
  let stored := repeat 120 (Z.to_nat 9999) in
  let batch := [95; 80] in
  Z.of_nat (List.length (appendIntervals stored batch)) = 8000.
Proof.
  intros stored batch.
  apply (proj2 (appendIntervals_capped stored batch)).
  subst stored batch. rewrite length_app, repeat_length. simpl List.length.
  lia.
Defined.

End EventsFacts.

(** ** The similarity maximum of an analysis document *)
Module GitHubSyncFacts.

Import GitHubAnalysis GitHubSync SpecSimilarity Lqa.
Local Open Scope Q_scope.



















End GitHubSyncFacts.

(** ** The normaliser *)
Module NormaliseFacts.

Import Similarity TextShape.
Local Open Scope char_scope.
Local Arguments Ascii.eqb : simpl never.

(** *** Facts about single code units, by enumeration *)

Ltac by_enumeration c :=
  destruct c as [[] [] [] [] [] [] [] []]; vm_compute;
  try reflexivity; try discriminate; auto.

Lemma lower_whiteSpace (c : ascii) :
  isWhiteSpace (toLowerChar c) = isWhiteSpace c.
Proof. by_enumeration c. Qed.

Lemma lower_idempotent (c : ascii) :
  toLowerChar (toLowerChar c) = toLowerChar c.
Proof. by_enumeration c. Qed.

Lemma lower_space (c : ascii) :
  Ascii.eqb (toLowerChar c) " " = Ascii.eqb c " ".
Proof. by_enumeration c. Qed.

Lemma lower_shape_bool (c : ascii) :
  Ascii.eqb (toLowerChar c) c || (isPlain (toLowerChar c) && isPlain c) = true.
Proof. by_enumeration c. Qed.

Lemma whiteSpace_plain (c : ascii) :
  isWhiteSpace c = true -> isPlain c = true.
Proof. by_enumeration c. Qed.

Lemma lineTerminator_whiteSpace (c : ascii) :
  isLineTerminator c = true -> isWhiteSpace c = true.
Proof. by_enumeration c. Qed.

Lemma lower_shape (c : ascii) : sameShape (toLowerChar c) c.
Proof.
  pose proof (lower_shape_bool c) as H.
  apply orb_true_iff in H. destruct H as [H | H].
  - left. now apply Ascii.eqb_eq.
  - right. now apply andb_true_iff in H.
Qed.

Lemma plain_not (x c : ascii) :
  isPlain x = false -> isPlain c = true -> Ascii.eqb x c = false.
Proof.
  intros Hx Hc. destruct (Ascii.eqb_spec x c) as [-> | _]; congruence.
Qed.

Lemma sameShape_special (c' c : ascii) :
  sameShape c' c -> isPlain c' = false -> c' = c.
Proof. intros [H | [H _]] Hs; congruence. Qed.

Lemma sameShape_refl (c : ascii) : sameShape c c.
Proof. now left. Qed.

(** *** Occurrences *)

Lemma occurs_cons (p : text) (c : ascii) (s : text) :
  occurs p (c :: s) = startsWith p (c :: s) || occurs p s.
Proof. reflexivity. Qed.

Lemma occurs_tail (p : text) (c : ascii) (s : text) :
  occurs p (c :: s) = false -> occurs p s = false.
Proof. rewrite occurs_cons. intro H. now apply orb_false_iff in H. Qed.

Lemma occurs_skipn (p : text) (k : nat) (s : text) :
  occurs p s = false -> occurs p (skipn k s) = false.
Proof.
  revert s. induction k as [| k IH]; intros s H; [exact H|].
  destruct s as [| c s]; [exact H|].
  simpl skipn. apply IH. now apply occurs_tail in H.
Qed.

Lemma hasBlockComment_cons (c : ascii) (s : text) :
  hasBlockComment (c :: s)
  = (startsWith ["/"; "*"] (c :: s) && occurs ["*"; "/"] (skipn 1 s))
    || hasBlockComment s.
Proof. reflexivity. Qed.

Lemma occurs_single (x : ascii) (s : text) :
  occurs [x] s = true <-> In x s.
Proof.
  induction s as [| c s IH].
  - simpl. split; [discriminate | tauto].
  - rewrite occurs_cons. simpl startsWith. rewrite andb_true_r, orb_true_iff, IH.
    simpl. rewrite Ascii.eqb_eq. split; intros [H | H]; auto.
Qed.

(** *** Thinning keeps comment syntax apart *)

Lemma thinned_head_special (x : ascii) (t s : text) :
  thinned (x :: t) s -> isPlain x = false ->
  exists s', s = x :: s' /\ thinned t s'.
Proof.
  intros H Hx. remember (x :: t) as u eqn:Eu.
  induction H as [| c' c t0 s0 Hsh Hth _ | d t0 s0 Hhead Hth IH].
  - discriminate.
  - injection Eu as -> ->. exists s0.
    rewrite (sameShape_special _ _ Hsh Hx). now split.
  - subst t0. simpl in Hhead. congruence.
Qed.

Lemma thinned_occurs_pair (a b : ascii) (t s : text) :
  isPlain a = false -> isPlain b = false ->
  thinned t s -> occurs [a; b] t = true -> occurs [a; b] s = true.
Proof.
  intros Ha Hb H. induction H as [| c' c t s Hsh Hth IH | d t s Hhead Hth IH].
  - discriminate.
  - rewrite !occurs_cons, !orb_true_iff. intros [Hst | Hoc]; [left | right; auto].
    simpl in Hst. apply andb_true_iff in Hst. destruct Hst as [Hc Hrest].
    apply Ascii.eqb_eq in Hc. subst c'.
    pose proof (sameShape_special _ _ Hsh Ha) as Hcc. subst c.
    destruct t as [| b' t]; [discriminate|].
    rewrite andb_true_r in Hrest. apply Ascii.eqb_eq in Hrest. subst b'.
    destruct (thinned_head_special b t s Hth Hb) as (s' & -> & _).
    simpl. now rewrite !Ascii.eqb_refl.
  - intro Hoc. rewrite occurs_cons, (IH Hoc). apply orb_true_r.
Qed.

Lemma thinned_In (x : ascii) (t s : text) :
  isPlain x = false -> thinned t s -> In x t -> In x s.
Proof.
  intros Hx H. induction H as [| c' c t s Hsh Hth IH | d t s Hhead Hth IH].
  - tauto.
  - intros [-> | Hin].
    + left. symmetry. now apply sameShape_special.
    + right. auto.
  - intro Hin. right. auto.
Qed.

Lemma thinned_hasBlockComment (t s : text) :
  thinned t s -> hasBlockComment t = true -> hasBlockComment s = true.
Proof.
  intro H. induction H as [| c' c t s Hsh Hth IH | d t s Hhead Hth IH].
  - discriminate.
  - rewrite !hasBlockComment_cons, !orb_true_iff.
    intros [Hopen | Hlater]; [left | right; auto].
    apply andb_true_iff in Hopen. destruct Hopen as [Hst Hclose].
    simpl in Hst. apply andb_true_iff in Hst. destruct Hst as [Hc Hrest].
    apply Ascii.eqb_eq in Hc. subst c'.
    pose proof (sameShape_special _ _ Hsh eq_refl) as Hcc. subst c.
    destruct t as [| b' t]; [discriminate|].
    rewrite andb_true_r in Hrest. apply Ascii.eqb_eq in Hrest. subst b'.
    destruct (thinned_head_special "*" t s Hth eq_refl) as (s' & -> & Hth').
    simpl skipn in *.
    apply (thinned_occurs_pair "*" "/" t s' eq_refl eq_refl Hth') in Hclose.
    cbn [startsWith]. rewrite ?Ascii.eqb_refl, Hclose. reflexivity.
  - intro Hbc. rewrite hasBlockComment_cons, (IH Hbc). apply orb_true_r.
Qed.

Lemma thinned_refl (s : text) : thinned s s.
Proof.
  induction s; constructor; auto using sameShape_refl.
Qed.

(** *** Comments to the end of the line *)

Lemma stripToEol_inComment_head (marker : text) (s : text) :
  headPlain (stripToEol marker true s).
Proof.
  induction s as [| c s IH]; simpl; [exact I|].
  destruct (isLineTerminator c) eqn:E; [| exact IH].
  simpl. now apply whiteSpace_plain, lineTerminator_whiteSpace.
Qed.

Lemma stripToEol_thinned (marker : text) (s : text) :
  forall inComment, thinned (stripToEol marker inComment s) s.
Proof.
  induction s as [| c s IH]; [intros [|]; constructor|].
  intros [|]; simpl.
  - destruct (isLineTerminator c).
    + constructor; auto using sameShape_refl.
    + constructor; auto using stripToEol_inComment_head.
  - destruct (startsWith marker (c :: s)).
    + constructor; auto using stripToEol_inComment_head.
    + constructor; auto using sameShape_refl.
Qed.

Lemma stripToEol_absent (marker : text) (s : text) :
  occurs marker s = false -> stripToEol marker false s = s.
Proof.
  induction s as [| c s IH]; intro H; [reflexivity|].
  rewrite occurs_cons in H. apply orb_false_iff in H. destruct H as [Hst Hoc].
  cbn [stripToEol]. rewrite Hst, (IH Hoc). reflexivity.
Qed.

(** After "//"-stripping no "//" is left. *)
Lemma stripToEol_slashes_none (s : text) :
  forall inComment,
    occurs ["/"; "/"] (stripToEol ["/"; "/"] inComment s) = false.
Proof.
  induction s as [| c s IH]; intros [|]; try reflexivity.
  - cbn [stripToEol]. destruct (isLineTerminator c) eqn:E; [| apply IH].
    rewrite occurs_cons, IH, orb_false_r. cbn [startsWith].
    apply lineTerminator_whiteSpace, whiteSpace_plain in E.
    now rewrite (plain_not "/" c eq_refl E).
  - cbn [stripToEol].
    destruct (startsWith ["/"; "/"] (c :: s)) eqn:Hst; [apply IH|].
    rewrite occurs_cons, IH, orb_false_r.
    cbn [startsWith] in *.
    destruct (Ascii.eqb "/" c); [| reflexivity].
    destruct s as [| d s]; [reflexivity|].
    cbn [stripToEol startsWith] in *.
    destruct (Ascii.eqb "/" d) eqn:Ed; [discriminate Hst|].
    cbn [andb]. cbn [startsWith]. now rewrite Ed.
Qed.

(** After "#"-stripping no "#" is left. *)
Lemma stripToEol_hash_none (s : text) :
  forall inComment, ~ In "#" (stripToEol ["#"] inComment s).
Proof.
  induction s as [| c s IH]; [intros [|] []|].
  intros [|]; cbn [stripToEol startsWith].
  - destruct (isLineTerminator c) eqn:E; [| apply IH].
    intros [-> | H]; [discriminate E | exact (IH _ H)].
  - rewrite andb_true_r.
    destruct (Ascii.eqb_spec "#" c) as [<- | Hne]; [apply IH|].
    intros [H | H]; [congruence | exact (IH _ H)].
Qed.

(** *** Block comments *)

Lemma stripBlock_skip (s : text) :
  forall k, stripBlock k s = stripBlock 0 (skipn k s).
Proof.
  induction s as [| c s IH]; intros [| k]; try reflexivity.
  cbn [stripBlock skipn]. apply IH.
Qed.

Lemma closeOffset_occurs (s : text) :
  occurs ["*"; "/"] s = (match closeOffset s with Some _ => true | None => false end).
Proof.
  induction s as [| c s IH]; [reflexivity|].
  rewrite occurs_cons. cbn [closeOffset].
  destruct (startsWith ["*"; "/"] (c :: s)); [reflexivity|].
  rewrite IH. now destruct (closeOffset s).
Qed.

Lemma hasBlockComment_needs_close (s : text) :
  occurs ["*"; "/"] s = false -> hasBlockComment s = false.
Proof.
  induction s as [| c s IH]; intro H; [reflexivity|].
  rewrite hasBlockComment_cons.
  pose proof (occurs_tail _ _ _ H) as Ht.
  rewrite (IH Ht), orb_false_r.
  destruct s as [| d s]; [apply andb_false_r|].
  simpl skipn. rewrite (occurs_tail _ _ _ Ht). apply andb_false_r.
Qed.

Lemma stripBlock_absent (s : text) :
  hasBlockComment s = false -> stripBlock 0 s = s.
Proof.
  induction s as [| c s IH]; intro H; [reflexivity|].
  rewrite hasBlockComment_cons in H. apply orb_false_iff in H.
  destruct H as [Hopen Hlater].
  cbn [stripBlock].
  destruct (startsWith ["/"; "*"] (c :: s)).
  - rewrite andb_true_l, closeOffset_occurs in Hopen.
    destruct (closeOffset (skipn 1 s)); [discriminate|].
    now rewrite (IH Hlater).
  - now rewrite (IH Hlater).
Qed.

Lemma stripBlock_plain_head (c : ascii) (s : text) :
  Ascii.eqb "/" c = false -> stripBlock 0 (c :: s) = c :: stripBlock 0 s.
Proof.
  intro H. cbn [stripBlock startsWith]. now rewrite H.
Qed.

(** On text without "//", block-comment stripping leaves neither a "//"
    nor a closed block comment. *)
Lemma stripBlock_clean (n : nat) :
  forall s : text,
    (List.length s <= n)%nat ->
    occurs ["/"; "/"] s = false ->
    occurs ["/"; "/"] (stripBlock 0 s) = false
    /\ hasBlockComment (stripBlock 0 s) = false.
Proof.
  induction n as [| n IH]; intros s Hlen Hss.
  - destruct s; [now split | simpl in Hlen; lia].
  - destruct s as [| c rest]; [now split|].
    simpl in Hlen. pose proof (occurs_tail _ _ _ Hss) as Hss'.
    cbn [stripBlock].
    destruct (startsWith ["/"; "*"] (c :: rest)) eqn:Hst.
    + destruct (closeOffset (skipn 1 rest)) as [k |] eqn:Hc.
      * rewrite stripBlock_skip. apply IH.
        -- rewrite length_skipn. lia.
        -- now apply occurs_skipn.
      * assert (Hno : occurs ["*"; "/"] (skipn 1 rest) = false)
          by now rewrite closeOffset_occurs, Hc.
        assert (Hrest : hasBlockComment rest = false).
        { destruct rest as [| d body]; [reflexivity|].
          rewrite hasBlockComment_cons.
          simpl skipn in Hno.
          rewrite (hasBlockComment_needs_close body Hno), orb_false_r.
          destruct body as [| e body']; [apply andb_false_r|].
          simpl skipn. rewrite (occurs_tail _ _ _ Hno). apply andb_false_r. }
        rewrite (stripBlock_absent rest Hrest). split; [exact Hss|].
        rewrite hasBlockComment_cons, Hno, Hrest. now rewrite andb_false_r.
    + destruct (IH rest ltac:(lia) Hss') as [IHs IHb].
      rewrite occurs_cons, hasBlockComment_cons, IHs, IHb, !orb_false_r.
      rewrite occurs_cons in Hss. apply orb_false_iff in Hss.
      destruct Hss as [Hsl _].
      cbn [startsWith] in Hst, Hsl |- *.
      destruct (Ascii.eqb "/" c); [| now split].
      rewrite !andb_true_l in *.
      destruct rest as [| d r]; [now split|].
      rewrite andb_true_r in Hst, Hsl.
      rewrite (stripBlock_plain_head d r Hsl). cbn [startsWith].
      rewrite Hsl, Hst. now split.
Qed.

(** *** White space *)

Lemma collapse_head (s : text) :
  headWhiteSpace (collapseWhiteSpace s) = headWhiteSpace s.
Proof.
  induction s as [| c s IH]; [reflexivity|].
  cbn [collapseWhiteSpace headWhiteSpace].
  destruct (isWhiteSpace c) eqn:E; [| simpl; exact E].
  destruct s as [| d s]; [reflexivity|].
  destruct (isWhiteSpace d) eqn:Ed; [| reflexivity].
  rewrite IH. simpl. exact Ed.
Qed.

Lemma headWhiteSpace_plain (s : text) :
  headWhiteSpace s = true -> headPlain s.
Proof.
  destruct s as [| c s]; simpl; [trivial | apply whiteSpace_plain].
Qed.

Lemma collapse_thinned (s : text) : thinned (collapseWhiteSpace s) s.
Proof.
  induction s as [| c s IH]; [constructor|].
  cbn [collapseWhiteSpace].
  destruct (isWhiteSpace c) eqn:E.
  - destruct s as [| d s].
    + constructor; [| constructor]. right. split; [reflexivity|].
      now apply whiteSpace_plain.
    + destruct (isWhiteSpace d) eqn:Ed.
      * constructor; [| exact IH].
        apply headWhiteSpace_plain. rewrite collapse_head. exact Ed.
      * constructor; [| exact IH]. right. split; [reflexivity|].
        now apply whiteSpace_plain.
  - constructor; [apply sameShape_refl | exact IH].
Qed.

Lemma collapse_collapsed (s : text) : collapsed (collapseWhiteSpace s) = true.
Proof.
  induction s as [| c s IH]; [reflexivity|].
  cbn [collapseWhiteSpace].
  destruct (isWhiteSpace c) eqn:E.
  - destruct s as [| d s]; [reflexivity|].
    destruct (isWhiteSpace d) eqn:Ed; [exact IH|].
    cbn [collapsed]. rewrite IH, collapse_head. simpl. now rewrite Ed.
  - cbn [collapsed]. now rewrite E, IH.
Qed.

Lemma collapsed_fixed (s : text) :
  collapsed s = true -> collapseWhiteSpace s = s.
Proof.
  induction s as [| c s IH]; [reflexivity|].
  cbn [collapsed collapseWhiteSpace]. intro H.
  apply andb_true_iff in H. destruct H as [Hc Hs].
  rewrite (IH Hs).
  destruct (isWhiteSpace c); [| reflexivity].
  apply andb_true_iff in Hc. destruct Hc as [Hsp Hnext].
  apply Ascii.eqb_eq in Hsp. subst c.
  destruct s as [| d s]; [reflexivity|].
  simpl in Hnext. apply negb_true_iff in Hnext. now rewrite Hnext.
Qed.

Lemma lower_head (s : text) :
  headWhiteSpace (toLowerCase s) = headWhiteSpace s.
Proof. destruct s; [reflexivity | apply lower_whiteSpace]. Qed.

Lemma lower_collapsed (s : text) :
  collapsed s = true -> collapsed (toLowerCase s) = true.
Proof.
  induction s as [| c s IH]; [reflexivity|].
  cbn [collapsed toLowerCase map]. intro H.
  apply andb_true_iff in H. destruct H as [Hc Hs].
  fold (toLowerCase s). rewrite (IH Hs), andb_true_r.
  rewrite lower_whiteSpace, lower_space, lower_head. exact Hc.
Qed.

Lemma lower_thinned (s : text) : thinned (toLowerCase s) s.
Proof.
  induction s; constructor; auto using lower_shape.
Qed.

Lemma lower_fixed (s : text) : toLowerCase (toLowerCase s) = toLowerCase s.
Proof.
  unfold toLowerCase. rewrite map_map. apply map_ext, lower_idempotent.
Qed.

(** *** Trimming *)

Lemma trimStart_suffix (s : text) :
  exists ws, s = ws ++ trimStart s /\ Forall (fun c => isWhiteSpace c = true) ws.
Proof.
  induction s as [| c s (ws & Heq & Hws)]; [now exists []|].
  cbn [trimStart]. destruct (isWhiteSpace c) eqn:E.
  - exists (c :: ws). split; [simpl; now f_equal | now constructor].
  - now exists [].
Qed.

Lemma trimStart_occurs (p s : text) :
  occurs p s = false -> occurs p (trimStart s) = false.
Proof.
  induction s as [| c s IH]; intro H; [exact H|].
  cbn [trimStart]. destruct (isWhiteSpace c); [| exact H].
  apply IH. now apply occurs_tail in H.
Qed.

Lemma trimStart_hasBlockComment (s : text) :
  hasBlockComment s = false -> hasBlockComment (trimStart s) = false.
Proof.
  induction s as [| c s IH]; intro H; [exact H|].
  cbn [trimStart]. destruct (isWhiteSpace c); [| exact H].
  apply IH. rewrite hasBlockComment_cons in H.
  now apply orb_false_iff in H.
Qed.

Lemma trimStart_collapsed (s : text) :
  collapsed s = true -> collapsed (trimStart s) = true.
Proof.
  induction s as [| c s IH]; intro H; [exact H|].
  cbn [trimStart]. destruct (isWhiteSpace c); [| exact H].
  apply IH. cbn [collapsed] in H. now apply andb_true_iff in H.
Qed.

Lemma trimStart_In (x : ascii) (s : text) : In x (trimStart s) -> In x s.
Proof.
  induction s as [| c s IH]; [tauto|].
  cbn [trimStart]. destruct (isWhiteSpace c); [| tauto].
  intro H. right. auto.
Qed.

Lemma trimEnd_head (s : text) (k : ascii) (kept : text) :
  trimEnd s = k :: kept -> exists rest, s = k :: rest.
Proof.
  destruct s as [| c s]; [discriminate|].
  cbn [trimEnd]. destruct (trimEnd s).
  - destruct (isWhiteSpace c); [discriminate|].
    intro H. injection H as <- _. now exists s.
  - intro H. injection H as <- _. now exists s.
Qed.

Lemma trimEnd_thinned (s : text) : thinned (trimEnd s) s.
Proof.
  induction s as [| c s IH]; [constructor|].
  cbn [trimEnd]. destruct (trimEnd s) as [| k kept].
  - destruct (isWhiteSpace c).
    + constructor; [exact I | exact IH].
    + constructor; [apply sameShape_refl | exact IH].
  - constructor; [apply sameShape_refl | exact IH].
Qed.

Lemma trimEnd_In (x : ascii) (s : text) : In x (trimEnd s) -> In x s.
Proof.
  induction s as [| c s IH]; [tauto|].
  cbn [trimEnd]. destruct (trimEnd s) as [| k kept].
  - destruct (isWhiteSpace c); simpl; tauto.
  - intros [H | H]; [now left | right; auto].
Qed.

Lemma trimEnd_collapsed (s : text) :
  collapsed s = true -> collapsed (trimEnd s) = true.
Proof.
  induction s as [| c s IH]; intro H; [exact H|].
  cbn [collapsed] in H. apply andb_true_iff in H. destruct H as [Hc Hs].
  cbn [trimEnd]. destruct (trimEnd s) as [| k kept] eqn:E.
  - destruct (isWhiteSpace c) eqn:Ec; [reflexivity|].
    cbn [collapsed]. now rewrite Ec.
  - destruct (trimEnd_head s k kept E) as (rest & ->).
    cbn [collapsed headWhiteSpace] in *. now rewrite Hc, (IH Hs).
Qed.

Lemma trimEnd_cons (c : ascii) (s : text) :
  trimEnd (c :: s)
  = match trimEnd s with
    | [] => if isWhiteSpace c then [] else [c]
    | kept => c :: kept
    end.
Proof. reflexivity. Qed.

Lemma trimEnd_idempotent (s : text) : trimEnd (trimEnd s) = trimEnd s.
Proof.
  induction s as [| c s IH]; [reflexivity|].
  rewrite trimEnd_cons. destruct (trimEnd s) as [| k kept] eqn:E.
  - destruct (isWhiteSpace c) eqn:Ec; [reflexivity|].
    rewrite trimEnd_cons. cbn [trimEnd]. now rewrite Ec.
  - rewrite trimEnd_cons, IH. reflexivity.
Qed.

Lemma trimStart_trimmed (s : text) :
  headWhiteSpace (trimStart s) = false.
Proof.
  induction s as [| c s IH]; [reflexivity|].
  cbn [trimStart]. destruct (isWhiteSpace c) eqn:E; [exact IH | exact E].
Qed.

Lemma trimStart_fixed (s : text) :
  headWhiteSpace s = false -> trimStart s = s.
Proof.
  destruct s as [| c s]; [reflexivity|]. simpl. now intros ->.
Qed.

Lemma trimEnd_headWhiteSpace (s : text) :
  headWhiteSpace s = false -> headWhiteSpace (trimEnd s) = false.
Proof.
  destruct s as [| c s]; [reflexivity|].
  cbn [trimEnd headWhiteSpace]. intro H.
  destruct (trimEnd s); [now rewrite H | exact H].
Qed.

Lemma trim_idempotent (s : text) : trim (trim s) = trim s.
Proof.
  unfold trim.
  rewrite (trimStart_fixed (trimEnd (trimStart s))).
  - apply trimEnd_idempotent.
  - apply trimEnd_headWhiteSpace, trimStart_trimmed.
Qed.

Lemma trimStart_lower (s : text) :
  trimStart (toLowerCase s) = toLowerCase (trimStart s).
Proof.
  induction s as [| c s IH]; [reflexivity|].
  cbn [toLowerCase map trimStart]. rewrite lower_whiteSpace.
  destruct (isWhiteSpace c); [exact IH | reflexivity].
Qed.

Lemma trimEnd_lower (s : text) :
  trimEnd (toLowerCase s) = toLowerCase (trimEnd s).
Proof.
  induction s as [| c s IH]; [reflexivity|].
  cbn [toLowerCase map trimEnd]. fold (toLowerCase s). rewrite IH.
  destruct (trimEnd s); cbn [toLowerCase map].
  - rewrite lower_whiteSpace. now destruct (isWhiteSpace c).
  - reflexivity.
Qed.

(** *** The normal form *)

Lemma thinned_occurs_none (a b : ascii) (t s : text) :
  isPlain a = false -> isPlain b = false ->
  thinned t s -> occurs [a; b] s = false -> occurs [a; b] t = false.
Proof.
  intros Ha Hb Hth Hs. destruct (occurs [a; b] t) eqn:E; [| reflexivity].
  rewrite (thinned_occurs_pair a b t s Ha Hb Hth E) in Hs. discriminate.
Qed.

Lemma thinned_block_none (t s : text) :
  thinned t s -> hasBlockComment s = false -> hasBlockComment t = false.
Proof.
  intros Hth Hs. destruct (hasBlockComment t) eqn:E; [| reflexivity].
  rewrite (thinned_hasBlockComment t s Hth E) in Hs. discriminate.
Qed.

Lemma occurs_single_none (x : ascii) (s : text) :
  occurs [x] s = false <-> ~ In x s.
Proof.
  rewrite <- occurs_single. destruct (occurs [x] s); split; congruence.
Qed.

Lemma normalise_normalForm (s : text) : normalForm (normalise s).
Proof.
  unfold normalise.
  set (s1 := stripToEol ["/"; "/"] false s).
  set (s2 := stripBlock 0 s1).
  set (s3 := stripToEol ["#"] false s2).
  set (s4 := collapseWhiteSpace s3).
  set (s5 := toLowerCase s4).
  assert (H1 : occurs ["/"; "/"] s1 = false)
    by apply stripToEol_slashes_none.
  destruct (stripBlock_clean (List.length s1) s1 (le_n _) H1) as [H2s H2b].
  fold s2 in H2s, H2b.
  assert (T3 : thinned s3 s2) by apply stripToEol_thinned.
  assert (T4 : thinned s4 s3) by apply collapse_thinned.
  assert (T5 : thinned s5 s4) by apply lower_thinned.
  assert (T6 : thinned (trimEnd (trimStart s5)) (trimStart s5))
    by apply trimEnd_thinned.
  assert (H3h : ~ In "#" s3) by apply stripToEol_hash_none.
  repeat split.
  - apply (thinned_occurs_none "/" "/" _ _ eq_refl eq_refl T6).
    apply trimStart_occurs.
    apply (thinned_occurs_none "/" "/" _ _ eq_refl eq_refl T5).
    apply (thinned_occurs_none "/" "/" _ _ eq_refl eq_refl T4).
    apply (thinned_occurs_none "/" "/" _ _ eq_refl eq_refl T3).
    exact H2s.
  - apply (thinned_block_none _ _ T6).
    apply trimStart_hasBlockComment.
    apply (thinned_block_none _ _ T5).
    apply (thinned_block_none _ _ T4).
    apply (thinned_block_none _ _ T3).
    exact H2b.
  - apply occurs_single_none. intro Hin. apply H3h.
    apply (thinned_In "#" _ _ eq_refl T4).
    apply (thinned_In "#" _ _ eq_refl T5).
    apply trimStart_In, trimEnd_In. exact Hin.
  - apply trimEnd_collapsed, trimStart_collapsed, lower_collapsed,
      collapse_collapsed.
  - unfold trim, s5.
    now rewrite <- trimEnd_lower, <- trimStart_lower, lower_fixed.
  - apply trim_idempotent.
Qed.

Lemma normalForm_fixed (x : text) : normalForm x -> normalise x = x.
Proof.
  intros (Hs & Hb & Hh & Hc & Hl & Ht). unfold normalise.
  rewrite (stripToEol_absent _ x Hs), (stripBlock_absent x Hb),
    (stripToEol_absent _ x Hh), (collapsed_fixed x Hc), Hl.
  exact Ht.
Qed.

Lemma normalise_idempotent (s : text) : normalise (normalise s) = normalise s.
Proof. apply normalForm_fixed, normalise_normalForm. Qed.

End NormaliseFacts.

(** ** Fingerprints *)
Module SimilarityFacts.

Import Similarity.
Local Open Scope Z_scope.

Lemma hashStep_nonneg (h : Z) (c : ascii) : 0 <= hashStep h c.
Proof. unfold hashStep, toUint32. apply Z.mod_pos_bound. reflexivity. Qed.

Lemma simpleHash_nonneg (s : text) : 0 <= simpleHash s.
Proof.
  unfold simpleHash.
  assert (H : forall h, 0 <= h -> 0 <= fold_left hashStep s h).
  { induction s as [| c s IH]; intros h Hh; [exact Hh|].
    simpl. apply IH, hashStep_nonneg. }
  apply H. discriminate.
Qed.

Lemma kgramHashes_nonneg (s : text) (k : nat) :
  Forall (fun h => 0 <= h) (kgramHashes s k).
Proof.
  unfold kgramHashes. destruct (List.length s <? k)%nat.
  - repeat constructor. apply simpleHash_nonneg.
  - apply Forall_map, Forall_forall. intros i _. apply simpleHash_nonneg.
Qed.

Lemma kgramHashes_nonempty (s : text) (k : nat) : kgramHashes s k <> [].
Proof.
  unfold kgramHashes. destruct (List.length s <? k)%nat; [discriminate|].
  replace (List.length s - k + 1)%nat with (S (List.length s - k)) by lia.
  discriminate.
Qed.

Lemma windowMin_In (window : list Z) :
  window <> [] -> In (windowMin window) window.
Proof.
  destruct window as [| h rest]; [congruence | intros _].
  unfold windowMin. revert h.
  induction rest as [| x rest IH]; intro h; [now left|].
  cbn [fold_left].
  destruct (IH (if x <? h then x else h)) as [H | H].
  - destruct (x <? h); rewrite <- H; simpl; auto.
  - right. now right.
Qed.

Lemma setAdd_nonempty (x : Z) (set : list Z) : setAdd x set <> [].
Proof.
  unfold setAdd. destruct (setHas x set) eqn:E.
  - destruct set; [discriminate E | discriminate].
  - destruct set; discriminate.
Qed.

Lemma winnowStep_keeps (hashes : list Z) (w : nat) (st : list Z * Z)
    (i : nat) :
  fst st <> [] -> fst (winnowStep hashes w st i) <> [].
Proof.
  destruct st as [fps prev]. unfold winnowStep.
  destruct (_ =? prev); simpl; [auto | intros _; apply setAdd_nonempty].
Qed.

Lemma fold_winnowStep_keeps (hashes : list Z) (w : nat) (indices : list nat) :
  forall st, fst st <> [] ->
             fst (fold_left (winnowStep hashes w) indices st) <> [].
Proof.
  induction indices as [| i rest IH]; intros st H; [exact H|].
  simpl. apply IH, winnowStep_keeps, H.
Qed.

(** Winnowing a non-empty array of hashes selects at least one. *)
Lemma winnow_nonempty (hashes : list Z) (w : nat) :
  (1 <= w)%nat -> hashes <> [] -> Forall (fun h => 0 <= h) hashes ->
  winnow hashes w <> [].
Proof.
  intros Hw Hne Hpos. unfold winnow.
  destruct hashes as [| h0 rest]; [congruence|].
  destruct (Nat.leb_spec (List.length (h0 :: rest)) w) as [Hle | Hgt].
  - apply setAdd_nonempty.
  - replace (List.length (h0 :: rest) - w + 1)%nat
      with (S (List.length (h0 :: rest) - w)) by lia.
    cbn [seq fold_left]. apply fold_winnowStep_keeps.
    unfold winnowStep. cbn [skipn].
    set (window := firstn w (h0 :: rest)).
    assert (Hwin : window <> []).
    { unfold window. destruct w; [lia | discriminate]. }
    pose proof (windowMin_In window Hwin) as Hin.
    assert (Hmin : 0 <= windowMin window).
    { rewrite Forall_forall in Hpos. apply Hpos.
      rewrite <- (firstn_skipn w (h0 :: rest)).
      apply in_or_app. left. exact Hin. }
    destruct (Z.eqb_spec (windowMin window) (-1)) as [E | _]; [lia|].
    simpl. apply setAdd_nonempty.
Qed.

Section WithDigest.

Variable sha256 : text -> string.

(** C9.  Normalising is idempotent, and a text and its normalisation have
    the same fingerprint: same digest, same fingerprint set, same
    normalised length. *)
Theorem normalise_fingerprint_roundtrip (s : text) (k w : nat) :
  normalise (normalise s) = normalise s
  /\ fingerprint sha256 s k w = fingerprint sha256 (normalise s) k w.
Proof.
  split; [apply NormaliseFacts.normalise_idempotent|].
  unfold fingerprint. now rewrite NormaliseFacts.normalise_idempotent.
Qed.

(** C10.  A fingerprint set is never empty (text shorter than k is hashed
    once as a whole, and winnowing a non-empty hash list keeps a hash);
    and two texts whose normalisations are both empty compare as similarity
    1.0 with identicalContent = true. *)
Theorem fingerprint_never_empty (code : text) (k w : nat) :
  (1 <= w)%nat ->
  (1 <= List.length (fingerprints (fingerprint sha256 code k w)))%nat
  /\ (forall code2,
        normalise code = [] -> normalise code2 = [] ->
        similarity (compareCode sha256 code code2) = 1%Q
        /\ identicalContent (compareCode sha256 code code2) = true).
Proof.
  intro Hw. split.
  - unfold fingerprint. cbn [fingerprints].
    pose proof (winnow_nonempty (kgramHashes (normalise code) k) w Hw
                  (kgramHashes_nonempty _ _) (kgramHashes_nonneg _ _)) as H.
    destruct (winnow (kgramHashes (normalise code) k) w);
      [congruence | simpl; lia].
  - intros code2 H1 H2. unfold compareCode, fingerprint.
    cbn [hash similarity identicalContent].
    rewrite H1, H2, String.eqb_refl. now split.
Qed.

End WithDigest.

Lemma fingerprint_never_empty_witness :
  let digest := fun t : text => string_of_list_ascii t in
  let code1 := list_ascii_of_string "// only a comment" in
  let code2 := list_ascii_of_string "  /* nothing here */  # at all" in
  (1 <= DEFAULT_W)%nat
  /\ normalise code1 = [] /\ normalise code2 = []
  /\ (1 <= List.length
             (fingerprints (fingerprint digest code1 DEFAULT_K DEFAULT_W)))%nat
  /\ similarity (compareCode digest code1 code2) = 1%Q
  /\ identicalContent (compareCode digest code1 code2) = true.
Proof.
  intros digest code1 code2.
  assert (Hw : (1 <= DEFAULT_W)%nat) by (unfold DEFAULT_W; lia).
  assert (H1 : normalise code1 = []) by reflexivity.
  assert (H2 : normalise code2 = []) by reflexivity.
  destruct (fingerprint_never_empty digest code1 DEFAULT_K DEFAULT_W Hw)
    as [Hsize Hcmp].
  destruct (Hcmp code2 H1 H2) as [Hsim Hid].
  exact (conj Hw (conj H1 (conj H2 (conj Hsize (conj Hsim Hid))))).
Defined.

End SimilarityFacts.

(** ** The cross-repository scan *)
Module CrossCompareFacts.

Import Similarity GitHubSync.

Lemma compareFiles_other_extension (sha256 : text -> string) (threshold : Q)
    (idA idB : string) (a b : string * Fingerprint) :
  String.eqb (extension (fst a)) (extension (fst b)) = false ->
  compareFiles threshold idA idB a b = [].
Proof.
  destruct a as [pathA fpA], b as [pathB fpB]. simpl. now intros ->.
Qed.

(** C6, evaluated.  The scan compares the raw last segments: "A.JS" against
    "b.js" is skipped although the contents are identical, whereas "a.js"
    against "b.js" is reported. *)
Theorem crossCompareRepos_extension_case (sha256 : text -> string) :
  extension "A.JS" = "JS"%string
  /\ extension "b.js" = "js"%string
  /\ crossCompareRepos sha256
       [mkRepo "alice/sol" [mkFile "A.JS" sumSource];
        mkRepo "bob/sol" [mkFile "b.js" sumSource]] (8 # 10) = []
  /\ map (fun f => (flagFile1 f, flagFile2 f, flagSimilarity f))
         (crossCompareRepos sha256
            [mkRepo "alice/sol" [mkFile "a.js" sumSource];
             mkRepo "bob/sol" [mkFile "b.js" sumSource]] (8 # 10))
     = [("a.js"%string, "b.js"%string, 1000 # 1000)].
Proof.
  split; [reflexivity|]. split; [reflexivity|].
  split; vm_compute; reflexivity.
Qed.

End CrossCompareFacts.

(** ** Per-event scoring and alerts *)
Module EventScoringFacts.

Import Participant Events EventScoring Lqa.
Local Open Scope Q_scope.

Lemma tallied_start {R : Type} : tallied ((0, []) : Q * list R).
Proof. left. split; reflexivity. Qed.

Lemma bump_tallied {R : Type} (cond : bool) (amount : Q) (reason : R)
    (st : Q * list R) :
  (2 # 10) <= amount -> tallied st -> tallied (bump cond amount reason st).
Proof.
  intros Ha H. unfold bump. destruct cond; [| exact H]. right. simpl.
  split; [destruct (snd st); discriminate|].
  destruct H as [[_ H0] | [_ H2]]; lra.
Qed.

Lemma round3_bounds (x : Q) :
  0 <= x -> x <= 1 -> 0 <= Js.round3 x /\ Js.round3 x <= 1.
Proof.
  intros H0 H1. split.
  - apply Qle_trans with (y := Js.round3 0); [discriminate|].
    now apply JsFacts.round3_mono.
  - rewrite <- JsFacts.round3_1. now apply JsFacts.round3_mono.
Qed.

(** The final clamp and rounding of a tally. *)
Lemma clamp_round_tallied {R : Type} (st : Q * list R) :
  tallied st ->
  0 <= Js.round3 (Js.min (fst st) 1) <= 1
  /\ (0 < Js.round3 (Js.min (fst st) 1) <-> snd st <> []).
Proof.
  intro H. unfold Js.min.
  assert (Hmin0 : 0 <= Qmin (fst st) 1).
  { apply Q.min_glb; [destruct H as [[_ H] | [_ H]]; lra | discriminate]. }
  assert (Hmin1 : Qmin (fst st) 1 <= 1) by apply Q.le_min_r.
  split; [apply round3_bounds; assumption|].
  destruct H as [[Hnil H0] | [Hne H2]].
  - rewrite Hnil. split; [| congruence]. intro Hpos.
    assert (E : Js.round3 (Qmin (fst st) 1) == 0).
    { transitivity (Js.round3 0); [| reflexivity].
      apply JsFacts.round3_comp. rewrite Q.min_l by lra. exact H0. }
    lra.
  - split; [auto | intros _].
    assert (Hlow : (2 # 10) <= Qmin (fst st) 1)
      by (apply Q.min_glb; [exact H2 | discriminate]).
    apply Qlt_le_trans with (y := Js.round3 (2 # 10)); [reflexivity|].
    now apply JsFacts.round3_mono.
Qed.

Lemma calculateEventSuspicion_tallied (event : Event) (interval : option Z)
    (typingStats : TypingStats) (recentContext : RecentContext) :
  exists st : Q * list Reason,
    tallied st
    /\ calculateEventSuspicion event interval typingStats recentContext
       = (Js.round3 (Js.min (fst st) 1), snd st).
Proof.
  unfold calculateEventSuspicion.
  eexists. split; [| reflexivity].
  repeat match goal with
  | |- tallied (bump _ _ _ _) => apply bump_tallied; [discriminate|]
  | |- tallied (0, []) => apply tallied_start
  | |- tallied (match ?x with _ => _ end) => destruct x
  | |- tallied (if ?x then _ else _) => destruct x
  end.
Qed.

(** X1.  The score of an event lies in [0, 1], and it is positive exactly when
    a reason is reported. *)
Theorem calculateEventSuspicion_range (event : Event) (interval : option Z)
    (typingStats : TypingStats) (recentContext : RecentContext) :
  let result :=
    calculateEventSuspicion event interval typingStats recentContext in
  0 <= fst result <= 1 /\ (0 < fst result <-> snd result <> []).
Proof.
  destruct (calculateEventSuspicion_tallied event interval typingStats
              recentContext) as (st & Hst & ->).
  cbv zeta. cbn [fst snd]. now apply clamp_round_tallied.
Qed.

Lemma bump_fst_ge {R : Type} (cond : bool) (amount : Q) (reason : R)
    (st : Q * list R) :
  0 <= amount -> fst st <= fst (bump cond amount reason st).
Proof. intro H. unfold bump. destruct cond; simpl; lra. Qed.

(** X2.  A paste of more than 100 characters is always flagged: it scores at
    least 0.6, whatever the typing statistics and the context say. *)
Theorem paste_over_100_flagged (event : Event) (interval : option Z)
    (typingStats : TypingStats) (recentContext : RecentContext) :
  type event = paste ->
  (100 < orZero (length (data event)))%Z ->
  let score :=
    fst (calculateEventSuspicion event interval typingStats recentContext) in
  (6 # 10) <= score /\ flagged score = true.
Proof.
  intros Ht Hlen. cbv zeta.
  assert (H : (6 # 10)
              <= fst (calculateEventSuspicion event interval typingStats
                        recentContext)).
  { unfold calculateEventSuspicion. rewrite Ht. cbn [fst].
    set (st1 := if (PASTE_LARGE_CHARS <? orZero (length (data event)))%Z
                then _ else _).
    assert (H1 : (6 # 10) <= fst st1).
    { subst st1. unfold bump, PASTE_LARGE_SCORE, PASTE_MEDIUM_SCORE.
      destruct (_ <? _)%Z; [cbn [fst]; lra|].
      assert (E : (PASTE_MEDIUM_CHARS <? orZero (length (data event)))%Z
                  = true) by (apply Z.ltb_lt; exact Hlen).
      rewrite E. cbn [fst]. lra. }
    clearbody st1.
    match goal with
    | |- _ <= Js.round3 (Js.min (fst ?st) 1) =>
        assert (H2 : (6 # 10) <= fst st)
    end.
    { repeat match goal with
      | |- _ <= fst (bump _ _ _ _) =>
          eapply Qle_trans; [| apply bump_fst_ge; discriminate]
      | |- _ <= fst (if ?c then _ else _) => destruct c
      end; exact H1. }
    apply Qle_trans with (y := Js.round3 (6 # 10)); [discriminate|].
    apply JsFacts.round3_mono. unfold Js.min.
    apply Q.min_glb; [exact H2 | discriminate]. }
  split; [exact H|]. unfold flagged. apply Qle_bool_iff. lra.
Qed.

Lemma paste_over_100_flagged_witness :
  let event :=
    mkEvent paste 1000 (mkData (Some 101%Z) None None None None) in
  flagged (fst (calculateEventSuspicion event None
                  (mkTypingStats None None) (mkRecentContext None None)))
  = true.
Proof.
  intro event.
  apply (paste_over_100_flagged event None (mkTypingStats None None)
           (mkRecentContext None None)); [reflexivity | simpl; lia].
Defined.

(** X3.  The alert level is critical exactly when the score exceeds 0.7 (a
    later warning condition never downgrades it), warning exactly when only
    the paste count or the blur total exceeds its limit, and an alert is
    raised exactly when some reason is reported. *)
Theorem checkAlertConditions_level (participant : ParticipantDoc) :
  let check := checkAlertConditions participant in
  (level check = critical <-> (7 # 10) < suspicionScore participant)
  /\ (level check = warning <->
      suspicionScore participant <= (7 # 10)
      /\ ((10 < pasteCount (stats participant))%Z
          \/ (600000 < windowBlurTotalMs (stats participant))%Z))
  /\ (shouldAlert check = true <-> level check <> none)
  /\ (shouldAlert check = true <-> alertReasons check <> []).
Proof.
  cbv zeta. unfold checkAlertConditions, ALERT_SCORE, WARNING_PASTE_COUNT,
    WARNING_BLUR_TOTAL_MS.
  destruct (Js.ltb (7 # 10) (suspicionScore participant)) eqn:Es;
    [apply JsFacts.ltb_lt in Es | apply JsFacts.ltb_ge in Es];
  destruct (Z.ltb_spec 10 (pasteCount (stats participant)));
  destruct (Z.ltb_spec 600000 (windowBlurTotalMs (stats participant)));
  cbn [level shouldAlert alertReasons isCritical isNone negb app];
  repeat split; intros; try discriminate; try congruence; try lra;
    try lia; auto;
  try (match goal with H : _ /\ _ |- _ => destruct H as [? [? | ?]] end;
       first [lra | lia]).
Qed.

End EventScoringFacts.



(** ** Counters of a batch and the participant score *)
Module IngestFacts.

Import Participant Events SuspicionCalculator IngestShape.
Local Open Scope Z_scope.


(** What one event does to each counter. *)
Lemma updateStats_fields (stats : Stats) (e : Event) :
  let stats' := updateStats stats e in
  pasteCount stats' = pasteCount stats + tally isPaste [e]
  /\ pasteCharsTotal stats'
     = pasteCharsTotal stats
       + total isPaste (fun e => orZero (length (data e))) [e]
  /\ typingAnomalies stats' = typingAnomalies stats + tally isAnomaly [e]
  /\ windowBlurCount stats' = windowBlurCount stats + tally isBlurStart [e]
  /\ windowBlurTotalMs stats'
     = windowBlurTotalMs stats
       + total isBlur (fun e => orZero (unfocusedDurationMs (data e))) [e]
  /\ clipboardChanges stats' = clipboardChanges stats + tally isClipboard [e]
  /\ filesCreated stats'
     = filesCreated stats + tally (isFileOperation "create") [e]
  /\ filesDeleted stats'
     = filesDeleted stats + tally (isFileOperation "delete") [e].
Proof.
  cbv zeta. unfold updateStats, tally, total, isPaste, isAnomaly, isBlurStart,
    isBlur, isClipboard, isFileOperation.
  destruct e as [ty ts [len an fo du op]].
  destruct ty; simpl.
  - repeat split; lia.
  - destruct (truthyString an); simpl; repeat split; lia.
  - repeat split; lia.
  - destruct op as [s |]; simpl.
    + destruct (String.eqb_spec s "create") as [-> | Hc].
      * simpl. repeat split; lia.
      * destruct (String.eqb s "delete"); simpl; repeat split; lia.
    + repeat split; lia.
  - destruct (isFalse fo); destruct du as [d |]; simpl;
      try (destruct (Z.eqb_spec d 0) as [-> | ?]); simpl; repeat split; lia.
  - repeat split; lia.
Qed.

Lemma tally_cons (p : Event -> bool) (e : Event) (events : list Event) :
  tally p (e :: events) = tally p [e] + tally p events.
Proof. unfold tally. simpl. destruct (p e); simpl List.length; lia. Qed.

Lemma total_cons (p : Event -> bool) (f : Event -> Z) (e : Event)
    (events : list Event) :
  total p f (e :: events) = total p f [e] + total p f events.
Proof. unfold total. simpl. destruct (p e); simpl; lia. Qed.

Lemma ingestStats_counters (events : list Event) (stats : Stats) :
  let stats' := ingestStats stats events in
  pasteCount stats' = pasteCount stats + tally isPaste events
  /\ pasteCharsTotal stats'
     = pasteCharsTotal stats
       + total isPaste (fun e => orZero (length (data e))) events
  /\ typingAnomalies stats' = typingAnomalies stats + tally isAnomaly events
  /\ windowBlurCount stats' = windowBlurCount stats + tally isBlurStart events
  /\ windowBlurTotalMs stats'
     = windowBlurTotalMs stats
       + total isBlur (fun e => orZero (unfocusedDurationMs (data e))) events
  /\ clipboardChanges stats'
     = clipboardChanges stats + tally isClipboard events
  /\ filesCreated stats'
     = filesCreated stats + tally (isFileOperation "create") events
  /\ filesDeleted stats'
     = filesDeleted stats + tally (isFileOperation "delete") events.
Proof.
  cbv zeta. unfold ingestStats. revert stats.
  induction events as [| e rest IH]; intro stats.
  - unfold tally, total. simpl. repeat split; lia.
  - cbn [fold_left].
    destruct (IH (updateStats stats e))
      as (H1 & H2 & H3 & H4 & H5 & H6 & H7 & H8).
    destruct (updateStats_fields stats e)
      as (U1 & U2 & U3 & U4 & U5 & U6 & U7 & U8).
    cbv zeta in U1, U2, U3, U4, U5, U6, U7, U8.
    rewrite H1, H2, H3, H4, H5, H6, H7, H8, U1, U2, U3, U4, U5, U6, U7, U8.
    rewrite (tally_cons isPaste e rest), (tally_cons isAnomaly e rest),
      (tally_cons isBlurStart e rest), (tally_cons isClipboard e rest),
      (tally_cons (isFileOperation "create") e rest),
      (tally_cons (isFileOperation "delete") e rest),
      (total_cons isPaste _ e rest), (total_cons isBlur _ e rest).
    repeat split; lia.
Qed.






Lemma total_nonneg (p : Event -> bool) (f : Event -> Z) (events : list Event) :
  Forall (fun e => 0 <= f e) events -> 0 <= total p f events.
Proof.
  induction 1 as [| e rest He _ IH]; [unfold total; simpl; lia|].
  rewrite total_cons. unfold total at 1. simpl.
  destruct (p e); simpl; lia.
Qed.

Lemma tally_nonneg (p : Event -> bool) (events : list Event) :
  0 <= tally p events.
Proof. unfold tally. lia. Qed.

(** A batch whose payload numbers are not negative lowers no counter. *)
Lemma ingestStats_statsLe (stats : Stats) (events : list Event) :
  Forall nonNegativePayload events ->
  statsLe stats (ingestStats stats events).
Proof.
  intro H.
  destruct (ingestStats_counters events stats)
    as (H1 & H2 & H3 & H4 & H5 & H6 & H7 & H8).
  assert (Hlen : 0 <= total isPaste (fun e => orZero (length (data e))) events).
  { apply total_nonneg. eapply Forall_impl; [| exact H]. now intros e []. }
  assert (Hdur : 0 <= total isBlur
                        (fun e => orZero (unfocusedDurationMs (data e))) events).
  { apply total_nonneg. eapply Forall_impl; [| exact H]. now intros e []. }
  unfold statsLe. rewrite H1, H2, H3, H4, H5, H6, H7, H8.
  pose proof (tally_nonneg isPaste events).
  pose proof (tally_nonneg isAnomaly events).
  pose proof (tally_nonneg isBlurStart events).
  pose proof (tally_nonneg isClipboard events).
  pose proof (tally_nonneg (isFileOperation "create") events).
  pose proof (tally_nonneg (isFileOperation "delete") events).
  repeat split; lia.
Qed.

End IngestFacts.

(** ** Range and monotonicity of the participant score *)
Module ParticipantScoreFacts.

Import Participant Events SuspicionCalculator IngestShape Lra.
Local Open Scope R_scope.

Lemma log10_nonneg (x : R) : 1 <= x -> 0 <= log10 x.
Proof.
  intro H. unfold log10. pose proof SuspicionCalculatorFacts.ln10_pos as Hp.
  apply Rmult_le_pos; [| left; now apply Rinv_0_lt_compat].
  destruct H as [H | <-]; [| rewrite ln_1; lra].
  left. rewrite <- ln_1. apply ln_increasing; lra.
Qed.

Lemma log10_le (x y : R) : 0 < x -> x <= y -> log10 x <= log10 y.
Proof.
  intros Hx Hxy. unfold log10.
  pose proof SuspicionCalculatorFacts.ln10_pos as Hp.
  apply Rmult_le_compat_r; [left; now apply Rinv_0_lt_compat|].
  destruct Hxy as [Hlt | <-]; [| lra].
  left. now apply ln_increasing.
Qed.

Lemma Rmin_mono (a b c : R) : a <= b -> Rmin c a <= Rmin c b.
Proof. intro H. apply Rmin_glb; [apply Rmin_l|]. pose proof (Rmin_r c a). lra. Qed.

(** The five guarded summands, each not negative and monotone. *)
Lemma pasteTerm_mono (a b : Z) :
  (a <= b)%Z ->
  0 <= SpecParticipant.onlyWhen (0 <? a)%Z
         (Rmin 0.5 (0.18 * log10 (IZR (a + 1))))
    <= SpecParticipant.onlyWhen (0 <? b)%Z
         (Rmin 0.5 (0.18 * log10 (IZR (b + 1)))).
Proof.
  intro H. unfold SpecParticipant.onlyWhen.
  assert (Hpos : forall z, (0 < z)%Z ->
                           0 <= Rmin 0.5 (0.18 * log10 (IZR (z + 1)))).
  { intros z Hz. apply Rmin_glb; [lra|].
    apply Rmult_le_pos; [lra|]. apply log10_nonneg.
    change 1 with (IZR 1). apply IZR_le. lia. }
  destruct (Z.ltb_spec 0 a) as [Ha | Ha];
    destruct (Z.ltb_spec 0 b) as [Hb | Hb]; try lia.
  - split; [now apply Hpos|]. apply Rmin_mono.
    apply Rmult_le_compat_l; [lra|]. apply log10_le.
    + change 0 with (IZR 0). apply IZR_lt. lia.
    + apply IZR_le. lia.
  - split; [lra | now apply Hpos].
  - lra.
Qed.

Lemma ratioTerm_mono (guard : Z) (cap scale : R) (a b : Z) :
  (0 <= guard)%Z -> 0 <= cap -> 0 < scale -> (a <= b)%Z ->
  0 <= SpecParticipant.onlyWhen (guard <? a)%Z (Rmin cap (IZR a / scale))
    <= SpecParticipant.onlyWhen (guard <? b)%Z (Rmin cap (IZR b / scale)).
Proof.
  intros Hg Hcap Hs H. unfold SpecParticipant.onlyWhen.
  assert (Hpos : forall z, (guard < z)%Z -> 0 <= Rmin cap (IZR z / scale)).
  { intros z Hz. apply Rmin_glb; [exact Hcap|].
    apply Rmult_le_pos; [| left; now apply Rinv_0_lt_compat].
    change 0 with (IZR 0). apply IZR_le. lia. }
  destruct (Z.ltb_spec guard a) as [Ha | Ha];
    destruct (Z.ltb_spec guard b) as [Hb | Hb]; try lia.
  - split; [now apply Hpos|]. apply Rmin_mono.
    apply Rmult_le_compat_r; [left; now apply Rinv_0_lt_compat|].
    apply IZR_le. exact H.
  - split; [lra | now apply Hpos].
  - lra.
Qed.

Lemma flatTerm_mono (a b : Z) :
  (a <= b)%Z ->
  0 <= SpecParticipant.onlyWhen (600000 <? a)%Z 0.15
    <= SpecParticipant.onlyWhen (600000 <? b)%Z 0.15.
Proof.
  intro H. unfold SpecParticipant.onlyWhen.
  destruct (Z.ltb_spec 600000 a); destruct (Z.ltb_spec 600000 b);
    try lia; lra.
Qed.

Lemma score_of_sum (x y : R) :
  0 <= x <= y ->
  0 <= IZR (round (Rmin 1 x * 1000)) / 1000
    <= IZR (round (Rmin 1 y * 1000)) / 1000
  /\ IZR (round (Rmin 1 y * 1000)) / 1000 <= 1.
Proof.
  intros [H0 Hxy].
  assert (Hm : Rmin 1 x <= Rmin 1 y) by now apply Rmin_mono.
  assert (Hm0 : 0 <= Rmin 1 x) by (apply Rmin_glb; lra).
  assert (Hm1 : Rmin 1 y <= 1) by apply Rmin_l.
  assert (R0 : (0 <= round (Rmin 1 x * 1000))%Z).
  { apply Z.le_trans with (m := round (IZR 0));
      [rewrite SuspicionCalculatorFacts.round_of_integer; lia|].
    apply SuspicionCalculatorFacts.round_monotone. lra. }
  assert (Rxy : (round (Rmin 1 x * 1000) <= round (Rmin 1 y * 1000))%Z)
    by (apply SuspicionCalculatorFacts.round_monotone; lra).
  assert (R1 : (round (Rmin 1 y * 1000) <= 1000)%Z).
  { apply Z.le_trans with (m := round (IZR 1000));
      [| rewrite SuspicionCalculatorFacts.round_of_integer; lia].
    apply SuspicionCalculatorFacts.round_monotone. lra. }
  apply IZR_le in R0, Rxy, R1. lra.
Qed.

Lemma participantScore_mono (a b : Stats) :
  statsLe a b ->
  0 <= calculateParticipantSuspicion a <= calculateParticipantSuspicion b
  /\ calculateParticipantSuspicion b <= 1.
Proof.
  intros (H1 & H2 & H3 & _ & H5 & H6 & _ & _).
  rewrite !SuspicionCalculatorFacts.calculateParticipantSuspicion_spec.
  unfold SpecParticipant.participantScore.
  apply score_of_sum.
  pose proof (pasteTerm_mono _ _ H1) as T1.
  pose proof (ratioTerm_mono 1000 0.3 10000 _ _ ltac:(lia) ltac:(lra)
                ltac:(lra) H2) as T2.
  pose proof (ratioTerm_mono 5 0.2 100 _ _ ltac:(lia) ltac:(lra)
                ltac:(lra) H3) as T3.
  pose proof (flatTerm_mono _ _ H5) as T4.
  pose proof (ratioTerm_mono 20 0.15 200 _ _ ltac:(lia) ltac:(lra)
                ltac:(lra) H6) as T5.
  lra.
Qed.

(** X6.  Raising counters never lowers the participant score, and the score
    always lies in [0, 1]. *)
Theorem calculateParticipantSuspicion_monotone (a b : Stats) :
  statsLe a b ->
  0 <= calculateParticipantSuspicion a <= calculateParticipantSuspicion b
  /\ calculateParticipantSuspicion b <= 1.
Proof. exact (participantScore_mono a b). Qed.

Lemma calculateParticipantSuspicion_monotone_witness :
  calculateParticipantSuspicion (mkStats 1 600 0 0 0 0 0 0)
  <= calculateParticipantSuspicion (mkStats 12 4100 7 3 700000 25 1 0).
Proof.
  apply (calculateParticipantSuspicion_monotone
           (mkStats 1 600 0 0 0 0 0 0) (mkStats 12 4100 7 3 700000 25 1 0)).
  unfold statsLe. simpl. repeat split; lia.
Defined.

(** X7.  Ingesting a batch whose payload numbers are not negative never lowers
    the participant's score. *)
Theorem ingest_never_lowers_score (stats : Stats) (events : list Event) :
  Forall nonNegativePayload events ->
  calculateParticipantSuspicion stats
  <= calculateParticipantSuspicion (ingestStats stats events).
Proof.
  intro H.
  apply (participantScore_mono stats
           (ingestStats stats events)).
  now apply IngestFacts.ingestStats_statsLe.
Qed.

Lemma ingest_never_lowers_score_witness :
  let pasted := mkEvent paste 2 (mkData (Some 640%Z) None None None None) in
  calculateParticipantSuspicion noStats
  <= calculateParticipantSuspicion (ingestStats noStats [pasted; pasted]).
Proof.
  intro pasted. apply ingest_never_lowers_score.
  repeat constructor; simpl; lia.
Defined.

End ParticipantScoreFacts.



(** ** Per-commit scoring and commit patterns *)
Module CommitPatternFacts.

Import GitHubAnalysis CommitAnalysis CommitPattern EventScoring Lqa.
Local Open Scope Q_scope.

Lemma round3_0 : Js.round3 0 == 0.
Proof. reflexivity. Qed.

(** Rounding first and clamping afterwards, on a tally. *)
Lemma round_clamp_tallied {R : Type} (st : Q * list R) :
  tallied st ->
  0 <= Js.min (Js.round3 (fst st)) 1 <= 1
  /\ (0 < Js.min (Js.round3 (fst st)) 1 <-> snd st <> [])
  /\ (snd st <> [] -> (2 # 10) <= Js.min (Js.round3 (fst st)) 1).
Proof.
  intro H. unfold Js.min.
  assert (Hlow : snd st <> [] -> (2 # 10) <= Qmin (Js.round3 (fst st)) 1).
  { intro Hne. destruct H as [[Hnil _] | [_ H2]]; [congruence|].
    apply Q.min_glb; [| discriminate].
    apply Qle_trans with (y := Js.round3 (2 # 10)); [discriminate|].
    now apply JsFacts.round3_mono. }
  assert (H0 : 0 <= Js.round3 (fst st)).
  { apply Qle_trans with (y := Js.round3 0); [discriminate|].
    apply JsFacts.round3_mono. destruct H as [[_ H] | [_ H]]; lra. }
  split; [split; [apply Q.min_glb; [exact H0 | discriminate]
                 | apply Q.le_min_r]|].
  split; [| exact Hlow].
  split.
  - intros Hpos Hnil. destruct H as [[_ Hz] | [Hne _]]; [| congruence].
    assert (E : Js.round3 (fst st) == 0)
      by (rewrite <- round3_0; now apply JsFacts.round3_comp).
    pose proof (Q.le_min_l (Js.round3 (fst st)) 1). lra.
  - intro Hne. specialize (Hlow Hne). lra.
Qed.

Lemma detectSuspiciousCommit_tallied (commit : Commit)
    (prevCommit : option Commit) :
  exists st : Q * list CommitReason,
    tallied st
    /\ detectSuspiciousCommit commit prevCommit
       = (Js.min (Js.round3 (fst st)) 1, snd st).
Proof.
  unfold detectSuspiciousCommit. eexists. split; [| reflexivity].
  repeat match goal with
  | |- tallied (bump _ _ _ _) => apply EventScoringFacts.bump_tallied;
                                 [discriminate|]
  | |- tallied (0, []) => apply EventScoringFacts.tallied_start
  | |- tallied (match ?x with _ => _ end) => destruct x
  end.
Qed.

Lemma detect_bounds (commit : Commit)
    (prevCommit : option Commit) :
  let result := detectSuspiciousCommit commit prevCommit in
  0 <= fst result <= 1
  /\ (0 < fst result <-> snd result <> [])
  /\ (snd result <> [] -> (2 # 10) <= fst result).
Proof.
  destruct (detectSuspiciousCommit_tallied commit prevCommit)
    as (st & Hst & ->).
  cbv zeta. cbn [fst snd]. now apply round_clamp_tallied.
Qed.

(** X8.  The score of a commit lies in [0, 1]; it is positive exactly when a
    reason is reported, and then it is at least 0.2. *)
Theorem detectSuspiciousCommit_range (commit : Commit)
    (prevCommit : option Commit) :
  let result := detectSuspiciousCommit commit prevCommit in
  0 <= fst result <= 1
  /\ (0 < fst result <-> snd result <> [])
  /\ (snd result <> [] -> (2 # 10) <= fst result).
Proof. exact (detect_bounds commit prevCommit). Qed.

Lemma bump_In {R : Type} (cond : bool) (amount : Q) (reason r : R)
    (st : Q * list R) :
  In r (snd st) -> In r (snd (bump cond amount reason st)).
Proof.
  unfold bump. destruct cond; simpl; [| auto].
  intro H. apply in_or_app. now left.
Qed.

(** A commit less than five minutes after its predecessor carries the
    burst reason. *)
Lemma detect_burst_reason (commit prev : Commit) :
  isBurstInterval (date commit - date prev) = true ->
  In (burst_commit (roundSeconds (date commit - date prev)))
     (snd (detectSuspiciousCommit commit (Some prev))).
Proof.
  intro H. unfold detectSuspiciousCommit. cbn [snd]. rewrite H.
  apply bump_In. unfold bump at 1. cbn [snd].
  apply in_or_app. right. now left.
Qed.

Section Pattern.

Variable commits : list Commit.

Lemma fold_patternStep (indices : list nat) :
  forall bursts suspicious total,
    fold_left (patternStep commits) indices (bursts, suspicious, total)
    = (bursts ++ flat_map (burstAt commits) indices,
       suspicious ++ flat_map (suspiciousAt commits) indices,
       fold_left (fun t i => t + fst (resultAt commits i)) indices total).
Proof.
  induction indices as [| i rest IH]; intros bursts suspicious total.
  - simpl. now rewrite !app_nil_r.
  - cbn [fold_left flat_map].
    unfold patternStep at 2. fold (resultAt commits i).
    rewrite !app_assoc.
    replace (bursts ++ burstAt commits i)
      with (match prevAt commits i with
            | Some p =>
                if isBurstInterval
                     (date (nth i commits noCommit) - date p)
                then bursts ++
                     [mkBurstCommit (sha (nth i commits noCommit))
                        (date (nth i commits noCommit))
                        (roundSeconds
                           (date (nth i commits noCommit) - date p))]
                else bursts
            | None => bursts
            end).
    2:{ unfold burstAt. destruct (prevAt commits i);
          [destruct (isBurstInterval _)|]; now rewrite ?app_nil_r. }
    replace (suspicious ++ suspiciousAt commits i)
      with (if Js.ltb 0 (fst (resultAt commits i))
            then suspicious ++
                 [mkSuspiciousCommit (sha (nth i commits noCommit))
                    (message (nth i commits noCommit))
                    (date (nth i commits noCommit))
                    (fst (resultAt commits i)) (snd (resultAt commits i))]
            else suspicious).
    2:{ unfold suspiciousAt. destruct (Js.ltb 0 _); now rewrite ?app_nil_r. }
    apply IH.
Qed.

Lemma total_bounds (indices : list nat) (total : Q) :
  total
  <= fold_left (fun t i => t + fst (resultAt commits i)) indices total
  <= total + inject_Z (Z.of_nat (List.length indices)).
Proof.
  revert total. induction indices as [| i rest IH]; intro total.
  - cbn [fold_left List.length Z.of_nat]. change (inject_Z 0) with 0. lra.
  - cbn [fold_left List.length].
    specialize (IH (total + fst (resultAt commits i))).
    pose proof (detect_bounds (nth i commits noCommit)
                  (prevAt commits i)) as (Hr & _).
    cbv zeta in Hr. fold (resultAt commits i) in Hr.
    rewrite Nat2Z.inj_succ, <- Z.add_1_r, inject_Z_plus.
    change (inject_Z 1) with 1. lra.
Qed.

End Pattern.

Lemma analyzeCommitPattern_lists (commits : list Commit) :
  burstCommits (analyzeCommitPattern commits)
  = flat_map (burstAt commits) (seq 0 (List.length commits))
  /\ suspiciousCommits (analyzeCommitPattern commits)
     = flat_map (suspiciousAt commits) (seq 0 (List.length commits)).
Proof.
  unfold analyzeCommitPattern. destruct commits as [| c rest]; [now split|].
  rewrite fold_patternStep. now split.
Qed.

(** X9.  The average score of a history lies in [0, 1]; an empty history gives
    empty lists and the average 0. *)
Theorem analyzeCommitPattern_avgScore (commits : list Commit) :
  0 <= avgScore (analyzeCommitPattern commits) <= 1
  /\ analyzeCommitPattern [] = mkPattern [] [] 0.
Proof.
  split; [| reflexivity].
  unfold analyzeCommitPattern. destruct commits as [| c rest]; [cbn; lra|].
  rewrite fold_patternStep. cbn [avgScore].
  set (n := List.length (c :: rest)).
  pose proof (total_bounds (c :: rest) (seq 0 n) 0) as [Hlo Hhi].
  rewrite length_seq in Hhi.
  set (total := fold_left _ _ _) in *.
  assert (Hn : 0 < inject_Z (Z.of_nat n)).
  { change 0 with (inject_Z 0). rewrite <- Zlt_Qlt. unfold n. simpl. lia. }
  apply EventScoringFacts.round3_bounds.
  - apply Qle_shift_div_l; [exact Hn | lra].
  - apply Qle_shift_div_r; [exact Hn | lra].
Qed.

(** X10.  Every burst commit is also listed as suspicious: same commit, a
    score of at least 0.2, and the burst reason with the same number of
    seconds. *)
Theorem burst_commits_are_suspicious (commits : list Commit)
    (b : BurstCommit) :
  In b (burstCommits (analyzeCommitPattern commits)) ->
  exists s,
    In s (suspiciousCommits (analyzeCommitPattern commits))
    /\ suspiciousSha s = burstSha b
    /\ suspiciousDate s = burstDate b
    /\ (2 # 10) <= score s
    /\ In (burst_commit (intervalSeconds b)) (reasons s).
Proof.
  destruct (analyzeCommitPattern_lists commits) as [-> ->].
  rewrite in_flat_map. intros (i & Hi & Hb).
  unfold burstAt in Hb.
  destruct (prevAt commits i) as [p |] eqn:Ep; [| contradiction].
  destruct (isBurstInterval _) eqn:Eb; [| contradiction].
  destruct Hb as [<- | []].
  pose proof (detect_burst_reason (nth i commits noCommit) p Eb) as Hin.
  pose proof (detect_bounds (nth i commits noCommit) (Some p))
    as (_ & Hpos & Hlow).
  cbv zeta in Hpos, Hlow.
  assert (Hne : snd (detectSuspiciousCommit (nth i commits noCommit) (Some p))
                <> []) by (intro E; rewrite E in Hin; contradiction).
  exists (mkSuspiciousCommit (sha (nth i commits noCommit))
            (message (nth i commits noCommit))
            (date (nth i commits noCommit))
            (fst (resultAt commits i)) (snd (resultAt commits i))).
  unfold resultAt. rewrite Ep. cbn [suspiciousSha suspiciousDate score reasons
    burstSha burstDate intervalSeconds].
  split; [| repeat split; auto].
  apply in_flat_map. exists i. split; [exact Hi|].
  unfold suspiciousAt, resultAt. rewrite Ep.
  assert (E : Js.ltb 0 (fst (detectSuspiciousCommit (nth i commits noCommit)
                               (Some p))) = true)
    by (apply JsFacts.ltb_lt, Hpos, Hne).
  rewrite E. now left.
Qed.

Lemma burst_commits_are_suspicious_witness :
  let commits := [mkCommit "a1" "init" 0 10 0 1;
                  mkCommit "b2" "more" 60000 5 1 1] in
  let b := mkBurstCommit "b2" 60000 60 in
  In b (burstCommits (analyzeCommitPattern commits))
  /\ exists s,
       In s (suspiciousCommits (analyzeCommitPattern commits))
       /\ suspiciousSha s = "b2"%string.
Proof.
  intros commits b.
  assert (H : In b (burstCommits (analyzeCommitPattern commits)))
    by (left; reflexivity).
  split; [exact H|].
  destruct (burst_commits_are_suspicious commits b H)
    as (s & Hs & Hsha & _).
  exists s. split; [exact Hs | exact Hsha].
Defined.

End CommitPatternFacts.

(** ** Commit statistics and the timing totals *)
Module CommitStatsFacts.

Import GitHubAnalysis CommitAnalysis CommitPattern.
Local Open Scope Z_scope.

Lemma map_nth_seq (commits : list Commit) :
  map (fun i => nth i commits noCommit) (seq 0 (List.length commits))
  = commits.
Proof.
  induction commits as [| c rest IH]; [reflexivity|].
  cbn [List.length seq map nth]. f_equal.
  rewrite <- seq_shift, map_map. exact IH.
Qed.

Lemma filter_map_length {A B : Type} (p : B -> bool) (f : A -> B)
    (l : list A) :
  List.length (filter (fun x => p (f x)) l)
  = List.length (filter p (map f l)).
Proof.
  induction l as [| x l IH]; [reflexivity|].
  cbn [filter map]. destruct (p (f x)); cbn [List.length]; now rewrite IH.
Qed.

Lemma sum_snoc (arr : list Z) (x : Z) : sum (arr ++ [x]) = sum arr + x.
Proof. unfold sum. now rewrite fold_left_app. Qed.

(** The gaps up to index [k] add up to the time between the first commit
    and commit [k]. *)
Lemma sum_gaps (commits : list Commit) (k : nat) :
  sum (map (gapAt commits) (seq 1 k)) = timeAt commits k - timeAt commits 0.
Proof.
  induction k as [| k IH]; [unfold sum; simpl; lia|].
  rewrite seq_S, map_app. cbn [map]. rewrite sum_snoc, IH. unfold gapAt.
  replace (1 + k - 1)%nat with k by lia.
  replace (1 + k)%nat with (S k) by lia. lia.
Qed.

Section Stats.

Variable commits : list Commit.

Lemma fold_statsStep_intervals (indices : list nat) :
  forall adds dels files intervals,
    snd (fold_left (statsStep commits) indices (adds, dels, files, intervals))
    = intervals ++ flat_map (intervalAt commits) indices.
Proof.
  induction indices as [| i rest IH]; intros adds dels files intervals.
  - simpl. now rewrite app_nil_r.
  - cbn [fold_left flat_map]. unfold statsStep at 2.
    rewrite IH, app_assoc. f_equal. unfold intervalAt.
    destruct (0 <? i)%nat; [destruct (0 <? gapAt commits i)|];
      now rewrite ?app_nil_r.
Qed.

Lemma intervals_chronological (k : nat) :
  (forall i, (0 < i < S k)%nat -> 0 < gapAt commits i) ->
  flat_map (intervalAt commits) (seq 0 (S k))
  = map (gapAt commits) (seq 1 k).
Proof.
  intro H. cbn [seq flat_map]. unfold intervalAt at 1.
  cbn [Nat.ltb Nat.leb app].
  assert (Hin : forall i, In i (seq 1 k) -> (0 < i < S k)%nat)
    by (intros i Hi; apply in_seq in Hi; lia).
  induction (seq 1 k) as [| i l IH]; [reflexivity|].
  cbn [flat_map map]. rewrite IH by (intros j Hj; apply Hin; now right).
  unfold intervalAt.
  assert (Hi : (0 < i < S k)%nat) by (apply Hin; now left).
  replace (0 <? i)%nat with true by (symmetry; apply Nat.ltb_lt; lia).
  replace (0 <? gapAt commits i) with true
    by (symmetry; apply Z.ltb_lt, H; exact Hi).
  reflexivity.
Qed.

End Stats.

(** X11.  For a non-empty history whose commit times strictly increase, the
    statistics report the number of commits, the first and the last commit
    time, and as average interval the rounded quotient of the time between
    first and last commit by the number of gaps (0 for a single commit). *)
Theorem calculateCommitStats_chronological (commits : list Commit) :
  commits <> [] ->
  strictlyChronological commits ->
  let n := List.length commits in
  let stats := calculateCommitStats commits in
  totalCommits stats = Z.of_nat n
  /\ firstCommitDate stats = Some (timeAt commits 0)
  /\ lastCommitDate stats = Some (timeAt commits (n - 1))
  /\ avgIntervalMs stats
     = if (n =? 1)%nat then 0
       else roundDiv (timeAt commits (n - 1) - timeAt commits 0)
                     (Z.of_nat (n - 1)).
Proof.
  intros Hne Hchrono. cbv zeta.
  destruct commits as [| c rest]; [congruence|].
  unfold calculateCommitStats.
  set (n := List.length (c :: rest)).
  pose proof (fold_statsStep_intervals (c :: rest) (seq 0 n) 0 0 0 [])
    as Hints.
  destruct (fold_left (statsStep (c :: rest)) (seq 0 n) (0, 0, 0, []))
    as [[[adds dels] files] intervals].
  cbn [snd app] in Hints.
  cbn [totalCommits firstCommitDate lastCommitDate avgIntervalMs].
  split; [reflexivity|]. split; [reflexivity|]. split; [reflexivity|].
  assert (En : n = S (List.length rest)) by reflexivity.
  rewrite En in Hints.
  rewrite (intervals_chronological (c :: rest) (List.length rest)) in Hints
    by (intros i Hi; apply Hchrono; simpl; lia).
  subst intervals. rewrite En.
  destruct rest as [| c' rest']; [reflexivity|].
  cbn [List.length Nat.eqb].
  set (k := S (List.length rest')).
  replace (S k - 1)%nat with k by lia.
  assert (Hk : map (gapAt (c :: c' :: rest')) (seq 1 k) <> [])
    by (unfold k; discriminate).
  destruct (map (gapAt (c :: c' :: rest')) (seq 1 k)) as [| g gs] eqn:E;
    [congruence|].
  rewrite <- E, sum_gaps, length_map, length_seq. reflexivity.
Qed.

Lemma calculateCommitStats_chronological_witness :
  let commits := [mkCommit "a" "one" 0 3 0 1;
                  mkCommit "b" "two" 1000 4 1 1;
                  mkCommit "c" "three" 4001 5 2 2] in
  avgIntervalMs (calculateCommitStats commits) = 2001%Z.
Proof.
  intro commits.
  assert (Hne : commits <> []) by discriminate.
  assert (Hc : strictlyChronological commits).
  { intros i Hi. simpl in Hi.
    destruct i as [| [| [| i]]]; try lia; reflexivity. }
  destruct (calculateCommitStats_chronological commits Hne Hc)
    as (_ & _ & _ & H).
  rewrite H. reflexivity.
Defined.

Section Totals.

Variable commits : list Commit.

Lemma timingStep_totals (acc : Timing) (i : nat) :
  hourlyDistribution (timingStep commits acc i)
  = increment (hourlyDistribution acc) (getUTCHours (timeAt commits i))
  /\ totalGapMs (timingStep commits acc i)
     = totalGapMs acc + (if (0 <? i)%nat then gapAt commits i else 0).
Proof.
  unfold timingStep.
  destruct (0 <? i)%nat; [| split; [reflexivity | cbn; lia]].
  destruct (LONG_IDLE_MS <? gapAt commits i); [| now split].
  destruct (3 <=? lookAhead _ _ _ _); now split.
Qed.

Lemma increment_length (arr : list Z) (h : nat) :
  List.length (increment arr h) = List.length arr.
Proof.
  revert h. induction arr as [| x rest IH]; intros [| h]; simpl; auto.
Qed.

Lemma increment_nth (arr : list Z) (h k : nat) :
  (h < List.length arr)%nat ->
  nth k (increment arr h) 0 = nth k arr 0 + (if (k =? h)%nat then 1 else 0).
Proof.
  revert h k. induction arr as [| x rest IH]; intros h k Hh;
    [simpl in Hh; lia|].
  destruct h as [| h], k as [| k]; simpl; try lia.
  apply IH. simpl in Hh. lia.
Qed.

Lemma getUTCHours_lt (ms : Z) : (getUTCHours ms < 24)%nat.
Proof.
  unfold getUTCHours.
  pose proof (Z.mod_pos_bound (ms / 3600000) 24 ltac:(lia)). lia.
Qed.

Lemma fold_timingStep_hourly (indices : list nat) :
  forall acc,
    List.length (hourlyDistribution acc) = 24%nat ->
    List.length (hourlyDistribution
                   (fold_left (timingStep commits) indices acc)) = 24%nat
    /\ forall h,
         nth h (hourlyDistribution
                  (fold_left (timingStep commits) indices acc)) 0
         = nth h (hourlyDistribution acc) 0
           + Z.of_nat
               (List.length
                  (filter (fun i => (h =? getUTCHours (timeAt commits i))%nat)
                          indices)).
Proof.
  induction indices as [| i rest IH]; intros acc Hlen.
  - simpl. split; [exact Hlen | intro h; lia].
  - cbn [fold_left].
    destruct (timingStep_totals acc i) as [Hh _].
    assert (Hlen' : List.length (hourlyDistribution (timingStep commits acc i))
                    = 24%nat) by (rewrite Hh, increment_length; exact Hlen).
    destruct (IH _ Hlen') as [IH1 IH2]. split; [exact IH1|].
    intro h. rewrite IH2, Hh, increment_nth
      by (rewrite Hlen; apply getUTCHours_lt).
    cbn [filter].
    destruct (h =? getUTCHours (timeAt commits i))%nat; cbn [List.length]; lia.
Qed.

Lemma fold_timingStep_gap (k : nat) :
  forall acc,
    totalGapMs (fold_left (timingStep commits) (seq 0 (S k)) acc)
    = totalGapMs acc + (timeAt commits k - timeAt commits 0).
Proof.
  induction k as [| k IH]; intro acc.
  - cbn [seq fold_left].
    destruct (timingStep_totals acc 0) as [_ ->]. cbn. lia.
  - rewrite seq_S, fold_left_app. cbn [fold_left].
    destruct (timingStep_totals
                (fold_left (timingStep commits) (seq 0 (S k)) acc) (0 + S k))
      as [_ ->].
    rewrite IH. cbn [Nat.add Nat.ltb Nat.leb]. unfold gapAt.
    replace (S k - 1)%nat with k by lia. lia.
Qed.

End Totals.

(** X12.  The hourly histogram has 24 buckets, bucket [h] counts the commits
    whose UTC hour is [h], and totalGapMs is the time between the first and
    the last commit. *)
Theorem analyzeTimingDistribution_totals (commits : list Commit) :
  let timing := analyzeTimingDistribution commits in
  List.length (hourlyDistribution timing) = 24%nat
  /\ (forall h,
        nth h (hourlyDistribution timing) 0
        = Z.of_nat
            (List.length
               (filter (fun c => (h =? getUTCHours (date c))%nat) commits)))
  /\ totalGapMs timing
     = timeAt commits (List.length commits - 1) - timeAt commits 0.
Proof.
  cbv zeta. unfold analyzeTimingDistribution.
  destruct (fold_timingStep_hourly commits (seq 0 (List.length commits))
              (mkTiming (repeat 0 24) [] 0) eq_refl) as [Hlen Hnth].
  split; [exact Hlen|]. split.
  - intro h. rewrite Hnth. cbn [hourlyDistribution].
    replace (nth h (repeat 0 24) 0) with 0
      by (symmetry; apply nth_repeat).
    rewrite Z.add_0_l. f_equal.
    rewrite (filter_map_length
               (fun c => (h =? getUTCHours (date c))%nat)
               (fun i => nth i commits noCommit)).
    now rewrite map_nth_seq.
  - destruct commits as [| c rest]; [reflexivity|].
    cbn [List.length]. rewrite fold_timingStep_gap. cbn [totalGapMs].
    replace (S (List.length rest) - 1)%nat with (List.length rest) by lia.
    lia.
Qed.

(** X13.  Every recorded idle-burst episode spans more than 30 minutes of
    idleness, reports at least 30 idle minutes and at least 3 burst commits,
    and needs a history of at least 4 commits. *)
Theorem idleBurst_episode_bounds (commits : list Commit) (e : IdleBurst) :
  In e (timingIdleBursts (analyzeTimingDistribution commits)) ->
  idleStartedAt e + 30 * 60 * 1000 < burstStartedAt e
  /\ 30 <= idleDurationMin e
  /\ 3 <= burstCommitCount e <= Z.of_nat (List.length commits) - 1
  /\ (4 <= List.length commits)%nat.
Proof.
  rewrite CommitAnalysisFacts.analyze_idleBursts, in_flat_map.
  intros (i & Hi & He). apply in_seq in Hi.
  apply CommitAnalysisFacts.episodesAt_spec in He; [| lia].
  destruct He as (n & (Hrange & Hgap & Hn & (_ & Hlen & _)) & ->).
  cbn [idleStartedAt burstStartedAt idleDurationMin burstCommitCount].
  unfold gapAt in Hgap. unfold roundMinutes, gapAt.
  repeat split; try lia.
  apply Z.div_le_lower_bound; lia.
Qed.

Lemma idleBurst_episode_bounds_witness :
  let at_minute m := mkCommit "c" "msg" (m * 60000) 1 0 1 in
  let commits := map at_minute [0; 45; 46; 47; 48] in
  let e := mkIdleBurst 0 (45 * 60000) 45 4 in
  In e (timingIdleBursts (analyzeTimingDistribution commits))
  /\ 3 <= burstCommitCount e <= 4.
Proof.
  intros at_minute commits e.
  assert (H : In e (timingIdleBursts (analyzeTimingDistribution commits)))
    by (left; reflexivity).
  split; [exact H|].
  destruct (idleBurst_episode_bounds commits e H) as (_ & _ & Hc & _).
  exact Hc.
Defined.

End CommitStatsFacts.

(** ** Hashes, winnowing and the Jaccard index *)
Module WinnowFacts.

Import Similarity SimilarityShape.
Local Open Scope Z_scope.

Lemma hashStep_uint32 (h : Z) (c : ascii) : isUint32 (hashStep h c).
Proof. unfold hashStep, toUint32, isUint32. apply Z.mod_pos_bound. reflexivity. Qed.

Lemma simpleHash_uint32 (s : text) : isUint32 (simpleHash s).
Proof.
  unfold simpleHash.
  assert (H : forall h, isUint32 h -> isUint32 (fold_left hashStep s h)).
  { induction s as [| c s IH]; intros h Hh; [exact Hh|].
    simpl. apply IH, hashStep_uint32. }
  apply H. unfold isUint32. split; [discriminate | reflexivity].
Qed.

Lemma kgramHashes_uint32 (s : text) (k : nat) :
  Forall isUint32 (kgramHashes s k).
Proof.
  unfold kgramHashes. destruct (List.length s <? k)%nat.
  - constructor; [apply simpleHash_uint32 | constructor].
  - apply Forall_map, Forall_forall. intros i _. apply simpleHash_uint32.
Qed.

Lemma setHas_In (x : Z) (set : list Z) : setHas x set = true <-> In x set.
Proof.
  unfold setHas. rewrite existsb_exists. split.
  - intros (y & Hy & E). apply Z.eqb_eq in E. now subst.
  - intro H. exists x. split; [exact H | apply Z.eqb_refl].
Qed.

Lemma setAdd_In (x y : Z) (set : list Z) :
  In y (setAdd x set) <-> y = x \/ In y set.
Proof.
  unfold setAdd. destruct (setHas x set) eqn:E.
  - apply setHas_In in E. split; [auto | intros [-> | H]; auto].
  - rewrite in_app_iff. simpl. intuition.
Qed.

Lemma setAdd_NoDup (x : Z) (set : list Z) :
  NoDup set -> NoDup (setAdd x set).
Proof.
  intro H. unfold setAdd. destruct (setHas x set) eqn:E; [exact H|].
  apply NoDup_app; [exact H | repeat constructor; auto |].
  intros y Hy [<- | []].
  apply setHas_In in Hy. congruence.
Qed.

Lemma fold_min_least (rest : list Z) :
  forall h, leastOf (fold_left Z.min rest h) (h :: rest).
Proof.
  induction rest as [| x rest IH]; intro h.
  - simpl. split; [now left | intros y [<- | []]; lia].
  - cbn [fold_left]. destruct (IH (Z.min h x)) as [Hin Hle]. split.
    + destruct Hin as [E | Hin]; [| right; now right].
      rewrite <- E. destruct (Z.min_spec h x) as [[_ ->] | [_ ->]];
        [now left | right; now left].
    + intros y [<- | [<- | Hy]].
      * specialize (Hle (Z.min h x) (or_introl eq_refl)). lia.
      * specialize (Hle (Z.min h x) (or_introl eq_refl)). lia.
      * apply Hle. now right.
Qed.

Lemma minimum_least (hashes : list Z) :
  hashes <> [] -> leastOf (minimum hashes) hashes.
Proof.
  destruct hashes as [| h rest]; [congruence | intros _].
  apply fold_min_least.
Qed.

Lemma windowMin_minimum (window : list Z) : windowMin window = minimum window.
Proof.
  destruct window as [| h rest]; [reflexivity|].
  unfold windowMin, minimum. revert h.
  induction rest as [| x rest IH]; intro h; [reflexivity|].
  cbn [fold_left]. rewrite IH. f_equal.
  destruct (Z.ltb_spec x h); lia.
Qed.

Lemma windowMin_least (window : list Z) :
  window <> [] -> leastOf (windowMin window) window.
Proof. rewrite windowMin_minimum. apply minimum_least. Qed.

Lemma windowAt_nonempty (hashes : list Z) (w i : nat) :
  (1 <= w)%nat -> (i < List.length hashes)%nat -> windowAt hashes w i <> [].
Proof.
  intros Hw Hi. unfold windowAt. intro E.
  apply (f_equal (@List.length Z)) in E.
  rewrite length_firstn, length_skipn in E. simpl in E. lia.
Qed.

Lemma windowAt_incl (hashes : list Z) (w i : nat) (x : Z) :
  In x (windowAt hashes w i) -> In x hashes.
Proof.
  unfold windowAt. intro H.
  rewrite <- (firstn_skipn i hashes). apply in_or_app. right.
  rewrite <- (firstn_skipn w (skipn i hashes)). apply in_or_app. now left.
Qed.

Section Loop.

Variables (hashes : list Z) (w : nat).
Hypothesis Hw : (1 <= w)%nat.

Lemma winnowStep_invariant (st : list Z * Z) (i : nat) :
  (i < List.length hashes)%nat ->
  loopInvariant hashes st ->
  loopInvariant hashes (winnowStep hashes w st i)
  /\ (forall x, In x (fst st) -> In x (fst (winnowStep hashes w st i)))
  /\ (windowMin (windowAt hashes w i) <> -1 ->
      In (windowMin (windowAt hashes w i))
         (fst (winnowStep hashes w st i))).
Proof.
  intros Hi (Hnd & Hsub & Hprev). destruct st as [fps prev].
  unfold winnowStep. fold (windowAt hashes w i).
  cbn [fst snd] in *.
  destruct (Z.eqb_spec (windowMin (windowAt hashes w i)) prev) as [E | Hne].
  - cbn [fst snd]. repeat split; auto.
    intro Hm. destruct Hprev as [-> | Hin]; [congruence | now rewrite E].
  - cbn [fst snd]. repeat split.
    + now apply setAdd_NoDup.
    + intros x Hx. apply setAdd_In in Hx. destruct Hx as [-> | Hx]; auto.
      apply (windowAt_incl hashes w i).
      apply windowMin_least, windowAt_nonempty; assumption.
    + right. apply setAdd_In. now left.
    + intros x Hx. apply setAdd_In. now right.
    + intros _. apply setAdd_In. now left.
Qed.

Lemma fold_winnowStep_invariant (indices : list nat) :
  forall st,
    Forall (fun i => (i < List.length hashes)%nat) indices ->
    loopInvariant hashes st ->
    let st' := fold_left (winnowStep hashes w) indices st in
    loopInvariant hashes st'
    /\ (forall x, In x (fst st) -> In x (fst st'))
    /\ (forall i, In i indices ->
                  windowMin (windowAt hashes w i) <> -1 ->
                  In (windowMin (windowAt hashes w i)) (fst st')).
Proof.
  induction indices as [| i rest IH]; intros st Hall Hinv; cbv zeta.
  - simpl. split; [exact Hinv | split; [auto | intros i []]].
  - cbn [fold_left]. inversion Hall as [| ? ? Hi Hrest]; subst.
    destruct (winnowStep_invariant st i Hi Hinv) as (Hinv1 & Hkeep1 & Hadd1).
    destruct (IH _ Hrest Hinv1) as (Hinv2 & Hkeep2 & Hadd2).
    cbv zeta in Hinv2, Hkeep2, Hadd2.
    split; [exact Hinv2 | split; [auto|]].
    intros j [<- | Hj] Hm; auto.
Qed.

End Loop.

Lemma winnow_invariant (hashes : list Z) (w : nat) :
  (1 <= w)%nat ->
  NoDup (winnow hashes w)
  /\ (forall x, In x (winnow hashes w) -> In x hashes)
  /\ (forall i, (i + w <= List.length hashes)%nat ->
                windowMin (windowAt hashes w i) <> -1 ->
                In (windowMin (windowAt hashes w i)) (winnow hashes w)).
Proof.
  intro Hw. unfold winnow.
  destruct hashes as [| h0 rest] eqn:Eh.
  - repeat split; [constructor | intros x [] |].
    intros i Hi. simpl in Hi. lia.
  - rewrite <- Eh. assert (Hne : hashes <> []) by (rewrite Eh; discriminate).
    destruct (Nat.leb_spec (List.length hashes) w) as [Hle | Hgt].
    + destruct (minimum_least hashes Hne) as [Hin Hleast].
      repeat split.
      * apply setAdd_NoDup. constructor.
      * intros x Hx. apply setAdd_In in Hx. destruct Hx as [-> | []].
        exact Hin.
      * intros i Hi _. assert (i = 0%nat) by lia. subst i.
        apply setAdd_In. left. unfold windowAt. cbn [skipn].
        rewrite firstn_all2 by lia. apply windowMin_minimum.
    + destruct (fold_winnowStep_invariant hashes w Hw
                  (seq 0 (List.length hashes - w + 1)) ([], -1))
        as ((Hnd & Hsub & _) & _ & Hadd).
      * apply Forall_forall. intros i Hi. apply in_seq in Hi. lia.
      * repeat split; [constructor | intros x [] | now left].
      * repeat split; auto.
        intros i Hi Hm. apply Hadd; [apply in_seq; lia | exact Hm].
Qed.

Section WithDigest.

Variable sha256 : text -> string.

Lemma fingerprint_set (code : text) (k w : nat) :
  (1 <= w)%nat ->
  let fps := fingerprints (fingerprint sha256 code k w) in
  NoDup fps
  /\ forall h, In h fps ->
               In h (kgramHashes (normalise code) k) /\ isUint32 h.
Proof.
  intro Hw. cbv zeta. unfold fingerprint. cbn [fingerprints].
  destruct (winnow_invariant (kgramHashes (normalise code) k) w Hw)
    as (Hnd & Hsub & _).
  split; [exact Hnd|]. intros h Hh. split; [now apply Hsub|].
  pose proof (kgramHashes_uint32 (normalise code) k) as Hall.
  rewrite Forall_forall in Hall. now apply Hall, Hsub.
Qed.

(** X14.  The fingerprint set has no duplicates and consists of k-gram hashes
    of the normalised text, each a 32-bit unsigned value. *)
Theorem fingerprints_are_hashes (code : text) (k w : nat) :
  (1 <= w)%nat ->
  let fps := fingerprints (fingerprint sha256 code k w) in
  NoDup fps
  /\ forall h, In h fps ->
               In h (kgramHashes (normalise code) k) /\ isUint32 h.
Proof. exact (fingerprint_set code k w). Qed.

End WithDigest.

Lemma fingerprints_are_hashes_witness :
  let digest := fun t : text => string_of_list_ascii t in
  NoDup (fingerprints (fingerprint digest sumSource DEFAULT_K DEFAULT_W)).
Proof.
  intro digest.
  assert (Hw : (1 <= DEFAULT_W)%nat) by (unfold DEFAULT_W; lia).
  destruct (fingerprints_are_hashes digest sumSource DEFAULT_K DEFAULT_W Hw)
    as [Hnd _].
  exact Hnd.
Defined.

(** X15.  The winnowing guarantee: whenever w consecutive hashes exist, the
    least hash of every window of w consecutive hashes is selected. *)
Theorem winnow_covers_every_window (hashes : list Z) (w i : nat) :
  (1 <= w)%nat ->
  Forall (fun h => 0 <= h) hashes ->
  (i + w <= List.length hashes)%nat ->
  exists m,
    In m (winnow hashes w) /\ leastOf m (windowAt hashes w i).
Proof.
  intros Hw Hpos Hi.
  assert (Hne : windowAt hashes w i <> [])
    by (apply windowAt_nonempty; lia).
  pose proof (windowMin_least _ Hne) as Hleast.
  exists (windowMin (windowAt hashes w i)). split; [| exact Hleast].
  destruct (winnow_invariant hashes w Hw) as (_ & _ & Hadd).
  apply Hadd; [exact Hi|].
  destruct Hleast as [Hin _]. apply windowAt_incl in Hin.
  rewrite Forall_forall in Hpos. specialize (Hpos _ Hin). lia.
Qed.

Lemma winnow_covers_every_window_witness :
  let hashes := [77; 42; 17; 98; 50; 17; 98; 8; 88; 67] in
  exists m, In m (winnow hashes 4) /\ leastOf m (windowAt hashes 4 3).
Proof.
  intro hashes.
  apply (winnow_covers_every_window hashes 4 3).
  - lia.
  - repeat constructor; lia.
  - simpl. lia.
Defined.

End WinnowFacts.

Module JaccardFacts.

Import Similarity SimilarityShape Lqa.
Local Open Scope Z_scope.

Lemma intersection_symmetric (a b : list Z) :
  NoDup a -> NoDup b ->
  List.length (filter (fun v => setHas v b) a)
  = List.length (filter (fun v => setHas v a) b).
Proof.
  intros Ha Hb.
  assert (H : forall x y : list Z,
             NoDup x ->
             (List.length (filter (fun v => setHas v y) x)
              <= List.length (filter (fun v => setHas v x) y))%nat).
  { intros x y Hx. apply NoDup_incl_length; [now apply NoDup_filter|].
    intros v Hv. apply filter_In in Hv. destruct Hv as [Hvx Hvy].
    apply WinnowFacts.setHas_In in Hvy.
    apply filter_In. split; [exact Hvy | now apply WinnowFacts.setHas_In]. }
  apply Nat.le_antisymm; auto.
Qed.

Lemma intersection_bounds (a b : list Z) :
  NoDup a ->
  (List.length (filter (fun v => setHas v b) a) <= List.length a)%nat
  /\ (List.length (filter (fun v => setHas v b) a) <= List.length b)%nat.
Proof.
  intro Ha. split; [apply filter_length_le|].
  apply NoDup_incl_length; [now apply NoDup_filter|].
  intros v Hv. apply filter_In in Hv. now apply WinnowFacts.setHas_In.
Qed.

Lemma jaccard_on_sets (a b : list Z) :
  NoDup a -> NoDup b ->
  jaccardSimilarity a b = jaccardSimilarity b a
  /\ (0 <= jaccardSimilarity a b <= 1)%Q
  /\ (jaccardSimilarity a a == 1)%Q.
Proof.
  intros Ha Hb. split; [| split].
  - unfold jaccardSimilarity.
    destruct a as [| x a'] eqn:Ea, b as [| y b'] eqn:Eb; try reflexivity.
    rewrite <- Ea, <- Eb in *.
    rewrite (intersection_symmetric a b Ha Hb).
    now rewrite (Z.add_comm (Z.of_nat (List.length a))).
  - unfold jaccardSimilarity.
    destruct a as [| x a'] eqn:Ea, b as [| y b'] eqn:Eb;
      try (split; discriminate).
    rewrite <- Ea, <- Eb in *.
    destruct (intersection_bounds a b Ha) as [H1 H2].
    set (n := Z.of_nat (List.length (filter (fun v => setHas v b) a))) in *.
    assert (Hb1 : (1 <= List.length b)%nat) by (rewrite Eb; simpl; lia).
    assert (Hu : 0 < Z.of_nat (List.length a) + Z.of_nat (List.length b) - n)
      by lia.
    destruct (Z.eqb_spec (Z.of_nat (List.length a)
                          + Z.of_nat (List.length b) - n) 0) as [E | _];
      [lia|].
    assert (HuQ : (0 < inject_Z (Z.of_nat (List.length a)
                                 + Z.of_nat (List.length b) - n))%Q)
      by (change 0%Q with (inject_Z 0); now rewrite <- Zlt_Qlt).
    split.
    + apply Qle_shift_div_l; [exact HuQ|].
      rewrite Qmult_0_l. change 0%Q with (inject_Z 0).
      rewrite <- Zle_Qle. lia.
    + apply Qle_shift_div_r; [exact HuQ|].
      rewrite Qmult_1_l, <- Zle_Qle. lia.
  - unfold jaccardSimilarity. destruct a as [| x a'] eqn:Ea; [reflexivity|].
    rewrite <- Ea in *.
    assert (Hall : filter (fun v => setHas v a) a = a).
    { apply forallb_filter_id, forallb_forall.
      intros v Hv. now apply WinnowFacts.setHas_In. }
    rewrite Hall.
    replace (Z.of_nat (List.length a) + Z.of_nat (List.length a)
             - Z.of_nat (List.length a)) with (Z.of_nat (List.length a))
      by lia.
    assert (Hn : 0 < Z.of_nat (List.length a)) by (rewrite Ea; simpl; lia).
    destruct (Z.eqb_spec (Z.of_nat (List.length a)) 0) as [E | _]; [lia|].
    apply Qmult_inv_r. intro E.
    assert (Hq : (0 < inject_Z (Z.of_nat (List.length a)))%Q)
      by (change 0%Q with (inject_Z 0); now rewrite <- Zlt_Qlt).
    lra.
Qed.

(** X16.  On sets the Jaccard index is symmetric, lies in [0, 1], and is 1 for
    a set compared with itself. *)
Theorem jaccardSimilarity_set (a b : list Z) :
  NoDup a -> NoDup b ->
  jaccardSimilarity a b = jaccardSimilarity b a
  /\ (0 <= jaccardSimilarity a b <= 1)%Q
  /\ (jaccardSimilarity a a == 1)%Q.
Proof. exact (jaccard_on_sets a b). Qed.

Lemma jaccardSimilarity_set_witness :
  jaccardSimilarity [3; 5; 8] [8; 13; 3; 21]
  = jaccardSimilarity [8; 13; 3; 21] [3; 5; 8].
Proof.
  assert (Ha : NoDup [3; 5; 8])
    by (repeat constructor; simpl; intuition lia).
  assert (Hb : NoDup [8; 13; 3; 21])
    by (repeat constructor; simpl; intuition lia).
  destruct (jaccardSimilarity_set [3; 5; 8] [8; 13; 3; 21] Ha Hb)
    as [Hsym _].
  exact Hsym.
Defined.

Section WithDigest.

Variable sha256 : text -> string.

(** X17.  Comparing two texts gives the same similarity and the same
    identicalContent in either order, with the digests swapped; a text
    compared with itself gives 1.0 and identicalContent. *)
Theorem compareCode_symmetric (code1 code2 : text) :
  similarity (compareCode sha256 code1 code2)
  = similarity (compareCode sha256 code2 code1)
  /\ identicalContent (compareCode sha256 code1 code2)
     = identicalContent (compareCode sha256 code2 code1)
  /\ hash1 (compareCode sha256 code1 code2)
     = hash2 (compareCode sha256 code2 code1)
  /\ compareCode sha256 code1 code1
     = mkComparison 1 (sha256 (normalise code1)) (sha256 (normalise code1))
                    true.
Proof.
  unfold compareCode. cbn [similarity identicalContent hash1 hash2].
  assert (Hw : (1 <= DEFAULT_W)%nat) by (unfold DEFAULT_W; lia).
  destruct (WinnowFacts.fingerprint_set sha256 code1 DEFAULT_K
              DEFAULT_W Hw) as [H1 _].
  destruct (WinnowFacts.fingerprint_set sha256 code2 DEFAULT_K
              DEFAULT_W Hw) as [H2 _].
  cbv zeta in H1, H2.
  destruct (jaccard_on_sets _ _ H1 H2) as [Hsym _].
  rewrite Hsym, (String.eqb_sym (hash (fingerprint sha256 code1 _ _))).
  repeat split; try reflexivity.
  rewrite String.eqb_refl. reflexivity.
Qed.

End WithDigest.

End JaccardFacts.
(** ** Letter case and the shape of normalised text *)
Module NormaliseCaseFacts.

Import Similarity TextShape NormaliseFacts.
Local Open Scope char_scope.
Local Arguments Ascii.eqb : simpl never.















Lemma collapsed_no_lineTerminator (s : text) :
  collapsed s = true -> Forall (fun c => isLineTerminator c = false) s.
Proof.
  induction s as [| c s IH]; [constructor|].
  cbn [collapsed]. intro H. apply andb_true_iff in H. destruct H as [Hc Hs].
  constructor; [| now apply IH].
  destruct (isLineTerminator c) eqn:E; [| reflexivity].
  rewrite (lineTerminator_whiteSpace c E) in Hc.
  apply andb_true_iff in Hc. destruct Hc as [Hsp _].
  apply Ascii.eqb_eq in Hsp. subst c. discriminate E.
Qed.

Lemma trimEnd_last (s : text) : headWhiteSpace (rev (trimEnd s)) = false.
Proof.
  induction s as [| c s IH]; [reflexivity|].
  rewrite trimEnd_cons. destruct (trimEnd s) as [| k kept] eqn:E.
  - destruct (isWhiteSpace c) eqn:Ec; [reflexivity | simpl; exact Ec].
  - change (rev (c :: k :: kept)) with (rev (k :: kept) ++ [c]).
    destruct (rev (k :: kept)) as [| r rs] eqn:Er.
    + apply (f_equal (@List.length ascii)) in Er.
      rewrite length_rev in Er. discriminate Er.
    + exact IH.
Qed.

Section WithDigest.

Variable sha256 : text -> string.


End WithDigest.


(** X19.  Normalised text is one line of lower-case text: no line terminator,
    every white-space unit a single space between two other units, no white
    space at either end. *)
Theorem normalise_shape (code : text) :
  let norm := normalise code in
  Forall (fun c => isLineTerminator c = false) norm
  /\ toLowerCase norm = norm
  /\ collapsed norm = true
  /\ headWhiteSpace norm = false
  /\ headWhiteSpace (rev norm) = false.
Proof.
  cbv zeta.
  destruct (normalise_normalForm code) as (_ & _ & _ & Hc & Hl & _).
  split; [now apply collapsed_no_lineTerminator|].
  split; [exact Hl|]. split; [exact Hc|].
  unfold normalise, trim. split.
  - apply trimEnd_headWhiteSpace, trimStart_trimmed.
  - apply trimEnd_last.
Qed.

End NormaliseCaseFacts.
(** ** The result of the cross-repository scan *)
Module CrossCompareOrderFacts.

Import Similarity SimilarityShape GitHubSync Lqa.
Local Open Scope Q_scope.

Lemma insertFlag_perm (f : Flag) (sorted : list Flag) :
  Permutation (f :: sorted) (insertFlag f sorted).
Proof.
  induction sorted as [| g rest IH]; [apply Permutation_refl|].
  cbn [insertFlag]. destruct (Js.ltb _ _); [| apply Permutation_refl].
  eapply Permutation_trans; [apply perm_swap|]. now apply perm_skip.
Qed.

Lemma sortFlags_perm (flags : list Flag) :
  Permutation flags (sortFlags flags).
Proof.
  induction flags as [| f rest IH]; [constructor|].
  cbn [sortFlags fold_right]. fold (sortFlags rest).
  eapply Permutation_trans; [apply perm_skip, IH | apply insertFlag_perm].
Qed.

Lemma insertFlag_sorted (f : Flag) (sorted : list Flag) :
  StronglySorted notBelow sorted ->
  StronglySorted notBelow (insertFlag f sorted).
Proof.
  induction sorted as [| g rest IH]; intro H.
  - repeat constructor.
  - inversion H as [| ? ? Hrest Hall]; subst.
    cbn [insertFlag].
    destruct (Js.ltb (flagSimilarity f) (flagSimilarity g)) eqn:E.
    + apply JsFacts.ltb_lt in E. constructor; [now apply IH|].
      apply (Permutation_Forall (insertFlag_perm f rest)).
      constructor; [unfold notBelow; lra | exact Hall].
    + apply JsFacts.ltb_ge in E. constructor; [exact H|].
      constructor; [exact E|].
      eapply Forall_impl; [| exact Hall].
      unfold notBelow. intros x Hx. lra.
Qed.

Lemma sortFlags_sorted (flags : list Flag) :
  StronglySorted notBelow (sortFlags flags).
Proof.
  induction flags as [| f rest IH]; [constructor|].
  cbn [sortFlags fold_right]. now apply insertFlag_sorted.
Qed.

(** [Map.set] keeps keys unique, and reports which keys are present. *)
Lemma mapSet_keys {V : Type} (key : string) (v : V) (m : list (string * V)) :
  (forall k, In k (map fst (mapSet key v m)) <-> k = key \/ In k (map fst m))
  /\ (NoDup (map fst m) -> NoDup (map fst (mapSet key v m))).
Proof.
  induction m as [| [k0 v0] rest [IHin IHnd]].
  - simpl. split; [intro k; intuition | intros _; repeat constructor; auto].
  - cbn [mapSet]. destruct (String.eqb_spec k0 key) as [-> | Hne].
    + split; [intro k; simpl; intuition | intro H; exact H].
    + split.
      * intro k. cbn [map fst In]. rewrite IHin. intuition.
      * intro H. cbn [map fst] in *. inversion H as [| ? ? Hnot Hnd]; subst.
        constructor; [| now apply IHnd].
        intro Hin. apply IHin in Hin. destruct Hin as [-> | Hin]; auto.
Qed.

Lemma mapSet_values {V : Type} (P : V -> Prop) (key : string) (v : V)
    (m : list (string * V)) :
  P v -> Forall P (map snd m) -> Forall P (map snd (mapSet key v m)).
Proof.
  intros Hv. induction m as [| [k0 v0] rest IH]; intro H.
  - repeat constructor. exact Hv.
  - cbn [mapSet]. cbn [map snd] in H. inversion H as [| ? ? H0 Hrest]; subst.
    destruct (String.eqb k0 key); cbn [map snd]; constructor; auto.
Qed.

Section WithDigest.

Variable sha256 : text -> string.

Lemma buildIndex_invariant (repos : list Repo) :
  NoDup (map fst (buildIndex sha256 repos))
  /\ (forall k, In k (map fst (buildIndex sha256 repos))
                <-> In k (map repoId repos))
  /\ Forall setsOnly (map snd (buildIndex sha256 repos)).
Proof.
  unfold buildIndex.
  assert (H : forall index,
             NoDup (map fst index) -> Forall setsOnly (map snd index) ->
             let index' :=
               fold_left
                 (fun index repo =>
                    mapSet (repoId repo)
                      (fold_left
                         (fun fpMap file =>
                            mapSet (path file)
                              (fingerprint sha256 (content file) DEFAULT_K
                                           DEFAULT_W) fpMap)
                         (files repo) []) index)
                 repos index in
             NoDup (map fst index')
             /\ (forall k, In k (map fst index')
                           <-> In k (map fst index) \/ In k (map repoId repos))
             /\ Forall setsOnly (map snd index')).
  { induction repos as [| repo rest IH]; intros index Hnd Hsets; cbv zeta.
    - simpl. repeat split; auto; intuition.
    - cbn [fold_left].
      set (fpMap := fold_left _ (files repo) []).
      assert (Hmap : setsOnly fpMap).
      { subst fpMap. unfold setsOnly.
        assert (G : forall m,
                   Forall (fun fp => NoDup (fingerprints fp)) (map snd m) ->
                   Forall (fun fp => NoDup (fingerprints fp))
                     (map snd
                        (fold_left
                           (fun fpMap file =>
                              mapSet (path file)
                                (fingerprint sha256 (content file) DEFAULT_K
                                             DEFAULT_W) fpMap)
                           (files repo) m))).
        { induction (files repo) as [| file fs IHf]; intros m Hm; [exact Hm|].
          cbn [fold_left]. apply IHf. apply mapSet_values; [| exact Hm].
          unfold fingerprint. cbn [fingerprints].
          apply WinnowFacts.winnow_invariant. unfold DEFAULT_W. lia. }
        apply G. constructor. }
      destruct (mapSet_keys (repoId repo) fpMap index) as [Hin Hnd'].
      destruct (IH (mapSet (repoId repo) fpMap index) (Hnd' Hnd)
                  (mapSet_values setsOnly _ _ _ Hmap Hsets))
        as (H1 & H2 & H3).
      cbv zeta in H1, H2, H3.
      split; [exact H1|]. split; [| exact H3].
      intro k. rewrite H2, Hin. cbn [map In]. intuition. }
  destruct (H [] ltac:(constructor) ltac:(constructor)) as (H1 & H2 & H3).
  cbv zeta in H1, H2, H3.
  split; [exact H1|]. split; [| exact H3].
  intro k. rewrite H2. simpl. intuition.
Qed.

Lemma compareFiles_flag (threshold : Q) (idA idB : string)
    (a b : string * Fingerprint) (f : Flag) :
  NoDup (fingerprints (snd a)) -> NoDup (fingerprints (snd b)) ->
  In f (compareFiles threshold idA idB a b) ->
  repo1 f = idA /\ repo2 f = idB
  /\ Js.round3 threshold <= flagSimilarity f <= 1.
Proof.
  intros Ha Hb. destruct a as [pathA fpA], b as [pathB fpB].
  cbn [compareFiles snd] in *.
  destruct (negb _); [intros []|].
  destruct (Qle_bool threshold _) eqn:E; [| intros []].
  intros [<- | []]. cbn [repo1 repo2 flagSimilarity].
  apply Qle_bool_iff in E.
  destruct (JaccardFacts.jaccard_on_sets _ _ Ha Hb) as (_ & [_ H1] & _).
  repeat split; [now apply JsFacts.round3_mono|].
  rewrite <- JsFacts.round3_1. now apply JsFacts.round3_mono.
Qed.

Lemma comparePairs_flag (threshold : Q)
    (index : list (string * list (string * Fingerprint))) (f : Flag) :
  NoDup (map fst index) -> Forall setsOnly (map snd index) ->
  In f (comparePairs threshold index) ->
  repo1 f <> repo2 f
  /\ In (repo1 f) (map fst index) /\ In (repo2 f) (map fst index)
  /\ Js.round3 threshold <= flagSimilarity f <= 1.
Proof.
  induction index as [| A others IH]; intros Hnd Hsets; [intros []|].
  cbn [map fst snd] in Hnd, Hsets.
  inversion Hnd as [| ? ? Hnot Hnd']; subst.
  inversion Hsets as [| ? ? HA Hsets']; subst.
  cbn [comparePairs]. rewrite in_app_iff. intros [Hf | Hf].
  - apply in_flat_map in Hf. destruct Hf as (B & HB & Hf).
    unfold compareMaps in Hf.
    apply in_flat_map in Hf. destruct Hf as (a & Ha & Hf).
    apply in_flat_map in Hf. destruct Hf as (b & Hb & Hf).
    assert (HBs : setsOnly (snd B)).
    { rewrite Forall_forall in Hsets'. apply Hsets', in_map, HB. }
    unfold setsOnly in HA, HBs. rewrite Forall_forall in HA, HBs.
    destruct (compareFiles_flag threshold (fst A) (fst B) a b f
                (HA _ (in_map snd _ _ Ha)) (HBs _ (in_map snd _ _ Hb)) Hf)
      as (-> & -> & Hsim).
    assert (HinB : In (fst B) (map fst others)) by now apply in_map.
    split; [intro E; apply Hnot; now rewrite E|].
    split; [now left|]. split; [right; exact HinB | exact Hsim].
  - destruct (IH Hnd' Hsets' Hf) as (H1 & H2 & H3 & H4).
    split; [exact H1|]. split; [now right|]. split; [now right | exact H4].
Qed.

(** X20.  The matches come back ordered by similarity, highest first, and the
    ordering neither drops nor duplicates a match. *)
Theorem crossCompareRepos_sorted (repos : list Repo) (threshold : Q) :
  StronglySorted notBelow (crossCompareRepos sha256 repos threshold)
  /\ Permutation (comparePairs threshold (buildIndex sha256 repos))
                 (crossCompareRepos sha256 repos threshold).
Proof.
  unfold crossCompareRepos. split;
    [apply sortFlags_sorted | apply sortFlags_perm].
Qed.

(** X21.  Every reported match pairs two different repositories of the input,
    and its similarity lies between the rounded threshold and 1. *)
Theorem crossCompareRepos_flags (repos : list Repo) (threshold : Q)
    (f : Flag) :
  In f (crossCompareRepos sha256 repos threshold) ->
  repo1 f <> repo2 f
  /\ In (repo1 f) (map repoId repos) /\ In (repo2 f) (map repoId repos)
  /\ Js.round3 threshold <= flagSimilarity f <= 1.
Proof.
  unfold crossCompareRepos. intro Hf.
  apply (Permutation_in f (Permutation_sym (sortFlags_perm _))) in Hf.
  destruct (buildIndex_invariant repos) as (Hnd & Hkeys & Hsets).
  destruct (comparePairs_flag threshold _ f Hnd Hsets Hf)
    as (H1 & H2 & H3 & H4).
  split; [exact H1|]. split; [now apply Hkeys|].
  split; [now apply Hkeys | exact H4].
Qed.

End WithDigest.

Lemma crossCompareRepos_flags_witness :
  let digest := fun t : text => string_of_list_ascii t in
  let repos := [mkRepo "alice/sol" [mkFile "a.js" sumSource];
                mkRepo "bob/sol" [mkFile "b.js" sumSource];
                mkRepo "alice/sol" [mkFile "c.js" sumSource]] in
  let f := mkFlag "alice/sol" "bob/sol" "c.js" "b.js" (1000 # 1000) true in
  In f (crossCompareRepos digest repos (8 # 10))
  /\ repo1 f <> repo2 f.
Proof.
  intros digest repos f.
  assert (E : crossCompareRepos digest repos (8 # 10) = [f])
    by (vm_compute; reflexivity).
  assert (H : In f (crossCompareRepos digest repos (8 # 10)))
    by (rewrite E; left; reflexivity).
  split; [exact H|].
  destruct (crossCompareRepos_flags digest repos (8 # 10) f H) as [Hne _].
  exact Hne.
Defined.

End CrossCompareOrderFacts.

(** ** The repository score under the match-persisting operations *)
Module SyncScoreFacts.

Import GitHubAnalysis GitHubSync SyncShape Lqa.
Local Open Scope Q_scope.

Lemma burstWeight_mono (n m : Z) (s : Q) :
  (n <= m)%Z ->
  (if (0 <? n)%Z then s + Js.min (inject_Z n * (1 # 10)) (25 # 100) else s)
  <= (if (0 <? m)%Z then s + Js.min (inject_Z m * (1 # 10)) (25 # 100)
      else s).
Proof.
  intro H. unfold Js.min.
  destruct (Z.ltb_spec 0 n) as [Hn | Hn];
    destruct (Z.ltb_spec 0 m) as [Hm | Hm]; try lia.
  - assert (Hq : inject_Z n <= inject_Z m) by (rewrite <- Zle_Qle; exact H).
    assert (Hmin : Qmin (inject_Z n * (1 # 10)) (25 # 100)
                   <= Qmin (inject_Z m * (1 # 10)) (25 # 100)).
    { apply Q.min_le_compat_r. lra. }
    lra.
  - assert (Hq : inject_Z 0 <= inject_Z m) by (rewrite <- Zle_Qle; lia).
    change (inject_Z 0) with 0 in Hq.
    assert (Hmin : 0 <= Qmin (inject_Z m * (1 # 10)) (25 # 100)).
    { apply Q.min_glb; lra. }
    lra.
  - lra.
Qed.

Lemma similarityWeight_mono (h1 h2 s : Q) :
  h1 <= h2 ->
  (if Js.ltb (8 # 10) h1 then s + (4 # 10)
   else if Js.ltb (5 # 10) h1 then s + h1 * (3 # 10) else s)
  <= (if Js.ltb (8 # 10) h2 then s + (4 # 10)
      else if Js.ltb (5 # 10) h2 then s + h2 * (3 # 10) else s).
Proof.
  intro H.
  destruct (Js.ltb (8 # 10) h1) eqn:A1; destruct (Js.ltb (8 # 10) h2) eqn:A2;
    destruct (Js.ltb (5 # 10) h1) eqn:B1;
    destruct (Js.ltb (5 # 10) h2) eqn:B2;
    rewrite ?JsFacts.ltb_lt, ?JsFacts.ltb_ge in *; lra.
Qed.

Lemma commitWeight_mono (a b : Q) :
  a <= b ->
  (if Js.ltb 0 a then 0 + a * (35 # 100) else 0)
  <= (if Js.ltb 0 b then 0 + b * (35 # 100) else 0).
Proof.
  intro H.
  destruct (Js.ltb 0 a) eqn:A; destruct (Js.ltb 0 b) eqn:B;
    rewrite ?JsFacts.ltb_lt, ?JsFacts.ltb_ge in *; lra.
Qed.

Lemma rawScore_mono (a b : t) :
  avgCommitSuspicionScore a <= avgCommitSuspicionScore b ->
  (List.length (idleBursts a) <= List.length (idleBursts b))%nat ->
  highestSimilarity a <= highestSimilarity b ->
  rawScore a <= rawScore b.
Proof.
  intros Havg Hlen Hsim. unfold rawScore.
  set (wa := if Js.ltb 0 (avgCommitSuspicionScore a) then _ else _).
  set (wb := if Js.ltb 0 (avgCommitSuspicionScore b) then _ else _).
  assert (Hw : wa <= wb) by (apply commitWeight_mono; exact Havg).
  set (na := Z.of_nat (List.length (idleBursts a))).
  set (nb := Z.of_nat (List.length (idleBursts b))).
  assert (Hn : (na <= nb)%Z) by (unfold na, nb; lia).
  pose proof (burstWeight_mono na nb wa Hn) as Hb.
  set (ba := if (0 <? na)%Z then _ else _) in *.
  assert (Hb' : ba <= (if (0 <? nb)%Z
                       then wb + Js.min (inject_Z nb * (1 # 10)) (25 # 100)
                       else wb)).
  { eapply Qle_trans; [exact Hb|]. destruct (0 <? nb)%Z; lra. }
  set (bb := if (0 <? nb)%Z then _ else _) in *.
  eapply Qle_trans; [apply (similarityWeight_mono _ _ ba Hsim)|].
  destruct (Js.ltb (8 # 10) (highestSimilarity b));
    [| destruct (Js.ltb (5 # 10) (highestSimilarity b))]; lra.
Qed.

Lemma rawScore_nonneg (this : t) : 0 <= rawScore this.
Proof.
  unfold rawScore.
  set (w := if Js.ltb 0 (avgCommitSuspicionScore this) then _ else _).
  assert (Hw : 0 <= w).
  { subst w. destruct (Js.ltb 0 (avgCommitSuspicionScore this)) eqn:E;
      [apply JsFacts.ltb_lt in E; lra | lra]. }
  set (n := Z.of_nat (List.length (idleBursts this))).
  set (b := if (0 <? n)%Z then _ else _).
  assert (Hb : 0 <= b).
  { subst b. destruct (Z.ltb_spec 0 n) as [Hn | Hn]; [| exact Hw].
    assert (Hq : inject_Z 0 <= inject_Z n) by (rewrite <- Zle_Qle; lia).
    change (inject_Z 0) with 0 in Hq.
    assert (0 <= Js.min (inject_Z n * (1 # 10)) (25 # 100))
      by (apply Q.min_glb; lra).
    lra. }
  destruct (Js.ltb (8 # 10) (highestSimilarity this)) eqn:E8; [lra|].
  destruct (Js.ltb (5 # 10) (highestSimilarity this)) eqn:E5; [| lra].
  apply JsFacts.ltb_lt in E5. lra.
Qed.

Lemma recalculateSuspicion_bounds (this : t) :
  0 <= githubSuspicionScore (fst (recalculateSuspicion this)) <= 1.
Proof.
  cbn [recalculateSuspicion fst githubSuspicionScore]. unfold Js.min.
  split; [| apply Q.le_min_r].
  apply Q.min_glb; [| discriminate].
  apply Qle_trans with (y := Js.round3 0); [discriminate|].
  apply JsFacts.round3_mono, rawScore_nonneg.
Qed.

Lemma clamp_mono (x y : Q) :
  x <= y -> Js.min (Js.round3 x) 1 <= Js.min (Js.round3 y) 1.
Proof.
  intro H. unfold Js.min. now apply Q.min_le_compat_r, JsFacts.round3_mono.
Qed.

(** X22.  The recalculated score lies in [0, 1], the range the schema accepts
    for [githubSuspicionScore], whatever the stored signals are; and a
    document with a higher average commit score, at least as many idle bursts
    and a higher highest similarity never gets a lower score. *)
Theorem recalculateSuspicion_monotone (a b : t) :
  avgCommitSuspicionScore a <= avgCommitSuspicionScore b ->
  (List.length (idleBursts a) <= List.length (idleBursts b))%nat ->
  highestSimilarity a <= highestSimilarity b ->
  0 <= snd (recalculateSuspicion a)
  /\ snd (recalculateSuspicion a) <= snd (recalculateSuspicion b)
  /\ snd (recalculateSuspicion b) <= 1.
Proof.
  intros Havg Hlen Hsim.
  split; [apply (recalculateSuspicion_bounds a)|].
  split; [| apply (recalculateSuspicion_bounds b)].
  cbn [recalculateSuspicion snd].
  apply clamp_mono, rawScore_mono; assumption.
Qed.

Lemma recalculateSuspicion_monotone_witness :
  let a := mk "p1" [] (1 # 10) [] (6 # 10) 0 in
  let b := mk "p1" [mkIdleBurst 0 2700000 45 4] (2 # 10) [] (81 # 100) 0 in
  snd (recalculateSuspicion a) == (215 # 1000)
  /\ snd (recalculateSuspicion b) == (57 # 100)
  /\ snd (recalculateSuspicion a) <= snd (recalculateSuspicion b).
Proof.
  intros a b.
  split; [vm_compute; reflexivity|]. split; [vm_compute; reflexivity|].
  assert (Havg : avgCommitSuspicionScore a <= avgCommitSuspicionScore b)
    by (cbn; lra).
  assert (Hlen : (List.length (idleBursts a)
                  <= List.length (idleBursts b))%nat) by (cbn; lia).
  assert (Hsim : highestSimilarity a <= highestSimilarity b) by (cbn; lra).
  destruct (recalculateSuspicion_monotone a b Havg Hlen Hsim) as (_ & H & _).
  exact H.
Defined.

(** *** Documents of a collection, one by one *)

Lemma matchesKept_refl (doc : t) : matchesKept doc doc.
Proof. split; [reflexivity|]. exists []. now rewrite app_nil_r. Qed.

Lemma pushed_refl (doc : t) : pushed doc doc.
Proof.
  split; [apply matchesKept_refl|]. repeat split; try reflexivity. lra.
Qed.

Lemma pushed_pushMax (m : SimilarityMatch) (a b : t) :
  pushed a b /\ githubSuspicionScore b = githubSuspicionScore a ->
  pushed a (pushMax m b)
  /\ githubSuspicionScore (pushMax m b) = githubSuspicionScore a.
Proof.
  intros [([Hpid (added & Hadd)] & Hbursts & Havg & Hsim) Hscore].
  unfold pushed, matchesKept, pushMax.
  cbn [participantId similarityMatches idleBursts avgCommitSuspicionScore
       highestSimilarity githubSuspicionScore].
  split; [| exact Hscore].
  split; [split; [exact Hpid|]|].
  - exists (added ++ [m]). now rewrite Hadd, app_assoc.
  - split; [exact Hbursts|]. split; [exact Havg|].
    destruct (Js.ltb (highestSimilarity b) (similarity m)) eqn:E;
      [apply JsFacts.ltb_lt in E; lra | exact Hsim].
Qed.

Lemma settled_recalculate (a b : t) :
  settled a b -> settled a (fst (recalculateSuspicion b)).
Proof.
  intros [H _]. split; [exact H | right; reflexivity].
Qed.

Lemma findOneAndUpdate_related (R : t -> t -> Prop) (pid : string)
    (update : t -> t) (before after : list t) :
  (forall a b, R a b -> R a (update b)) ->
  Forall2 R before after ->
  Forall2 R before (findOneAndUpdate pid update after).
Proof.
  intros Hup H. induction H as [| a b l1 l2 Hab Hrest IH]; simpl.
  - constructor.
  - destruct (String.eqb (participantId b) pid); constructor; auto.
Qed.

Lemma fold_related {A : Type} (R : t -> t -> Prop)
    (step : list t -> A -> list t) (before : list t) :
  (forall after x,
      Forall2 R before after -> Forall2 R before (step after x)) ->
  forall xs after,
    Forall2 R before after -> Forall2 R before (fold_left step xs after).
Proof.
  intros Hstep xs. induction xs as [| x rest IH]; intros after H; simpl;
    [exact H | apply IH, Hstep, H].
Qed.

(** The relation kept while matches are pushed. *)
Lemma persistMatch_pushed (pid1 name1 pid2 name2 : string)
    (before after : list t) (m : Flag) :
  Forall2 (fun a b => pushed a b
                      /\ githubSuspicionScore b = githubSuspicionScore a)
          before after ->
  Forall2 (fun a b => pushed a b
                      /\ githubSuspicionScore b = githubSuspicionScore a)
          before (persistMatch pid1 name1 pid2 name2 after m).
Proof.
  intro H. unfold persistMatch.
  apply findOneAndUpdate_related; [intros a b; apply pushed_pushMax|].
  apply findOneAndUpdate_related; [intros a b; apply pushed_pushMax|].
  exact H.
Qed.

Lemma persistFlag_pushed (repoToParticipant : list (string * string))
    (before after : list t) (flag : Flag) :
  Forall2 (fun a b => pushed a b
                      /\ githubSuspicionScore b = githubSuspicionScore a)
          before after ->
  Forall2 (fun a b => pushed a b
                      /\ githubSuspicionScore b = githubSuspicionScore a)
          before (persistFlag repoToParticipant after flag).
Proof.
  intro H. unfold persistFlag.
  destruct (lookup (repo1 flag) repoToParticipant) as [pid1 |]; [| exact H].
  destruct (lookup (repo2 flag) repoToParticipant) as [pid2 |]; [| exact H].
  destruct (String.eqb pid1 "" || String.eqb pid2 ""); [exact H|].
  apply (persistMatch_pushed pid1 (repo1 flag) pid2 (repo2 flag) before after
           flag H).
Qed.

Lemma recalculateFor_settled (before after : list t) (pid : string) :
  Forall2 settled before after ->
  Forall2 settled before (recalculateFor after pid).
Proof.
  unfold recalculateFor. apply findOneAndUpdate_related.
  intros a b. apply settled_recalculate.
Qed.

Lemma start_pushed (store : list t) :
  Forall2 (fun a b => pushed a b
                      /\ githubSuspicionScore b = githubSuspicionScore a)
          store store.
Proof.
  induction store; constructor; auto using pushed_refl.
Qed.

Lemma pushed_settled (before after : list t) :
  Forall2 (fun a b => pushed a b
                      /\ githubSuspicionScore b = githubSuspicionScore a)
          before after ->
  Forall2 settled before after.
Proof.
  apply Forall2_impl. intros a b [H E]. split; [exact H | now left].
Qed.

Lemma runCrossComparison_settled (repoToParticipant : list (string * string))
    (flags : list Flag) (store : list t) :
  Forall2 settled store (runCrossComparison repoToParticipant flags store).
Proof.
  unfold runCrossComparison.
  destruct flags as [| f rest]; [apply pushed_settled, start_pushed|].
  apply fold_related; [intros after pid; apply recalculateFor_settled|].
  apply pushed_settled. unfold persistFlags.
  apply fold_related; [intros after flag; apply persistFlag_pushed|].
  apply start_pushed.
Qed.

Lemma compareRepositories_settled (pid1 name1 pid2 name2 : string)
    (matches : list Flag) (store : list t) :
  Forall2 settled store
          (compareRepositories pid1 name1 pid2 name2 matches store).
Proof.
  unfold compareRepositories.
  apply fold_related; [intros after pid; apply recalculateFor_settled|].
  apply pushed_settled.
  apply fold_related; [intros after m; apply persistMatch_pushed|].
  apply start_pushed.
Qed.

Lemma settled_matchesKept (before after : list t) :
  Forall2 settled before after -> Forall2 matchesKept before after.
Proof. apply Forall2_impl. now intros a b [[H _] _]. Qed.

Lemma settled_scoreNotLowered (before after : list t) :
  Forall upToDate before -> Forall2 settled before after ->
  Forall2 scoreNotLowered before after.
Proof.
  intros Hup H. induction H as [| a b l1 l2 Hab _ IH]; [constructor|].
  inversion Hup as [| ? ? Ha Hrest]; subst.
  constructor; [| now apply IH].
  destruct Hab as [(_ & Hbursts & Havg & Hsim) [E | E]];
    unfold scoreNotLowered; rewrite E; [lra|].
  unfold upToDate in Ha. rewrite Ha. cbn [recalculateSuspicion snd].
  apply clamp_mono, rawScore_mono; [rewrite Havg; lra | rewrite Hbursts; lia
                                   | exact Hsim].
Qed.

(** X23.  Neither the scheduled cross comparison nor the two-repository
    comparison creates, drops or reorders a document, and neither removes or
    rewrites a match that a document already records: the new matches come
    after the old ones. *)
Theorem matches_append_only (store : list t) :
  (forall repoToParticipant flags,
      Forall2 matchesKept store
              (runCrossComparison repoToParticipant flags store))
  /\ (forall pid1 name1 pid2 name2 matches,
         Forall2 matchesKept store
                 (compareRepositories pid1 name1 pid2 name2 matches store)).
Proof.
  split; intros; apply settled_matchesKept;
    [apply runCrossComparison_settled | apply compareRepositories_settled].
Qed.

(** X24.  On a collection whose stored scores are up to date, neither
    comparison lowers the stored score of any document. *)
Theorem comparison_never_lowers_score (store : list t) :
  Forall upToDate store ->
  (forall repoToParticipant flags,
      Forall2 scoreNotLowered store
              (runCrossComparison repoToParticipant flags store))
  /\ (forall pid1 name1 pid2 name2 matches,
         Forall2 scoreNotLowered store
                 (compareRepositories pid1 name1 pid2 name2 matches store)).
Proof.
  intro Hup.
  split; intros; apply settled_scoreNotLowered; try exact Hup;
    [apply runCrossComparison_settled | apply compareRepositories_settled].
Qed.

Lemma comparison_never_lowers_score_witness :
  let alice := fst (recalculateSuspicion
                      (mk "alice" [] (4 # 10) [] (6 # 10) 0)) in
  let store := [alice; fresh "bob"] in
  let m := mkFlag "a/x" "b/x" "index.js" "main.js" (912 # 1000) false in
  Forall upToDate store
  /\ map githubSuspicionScore store = [320 # 1000; 0]
  /\ map githubSuspicionScore
       (compareRepositories "alice" "a/x" "bob" "b/x" [m] store)
     = [540 # 1000; 400 # 1000]
  /\ Forall2 scoreNotLowered store
       (compareRepositories "alice" "a/x" "bob" "b/x" [m] store).
Proof.
  intros alice store m.
  assert (H : Forall upToDate store)
    by (repeat constructor; vm_compute; reflexivity).
  split; [exact H|]. split; [vm_compute; reflexivity|].
  split; [vm_compute; reflexivity|].
  destruct (comparison_never_lowers_score store H) as [_ Hcmp].
  exact (Hcmp "alice"%string "a/x"%string "bob"%string "b/x"%string [m]).
Defined.

End SyncScoreFacts.
(** ** Scores of a batch *)
Module IngestHandlerFacts.

Import Participant Events EventScoring IngestHandler Lqa.
Local Open Scope Q_scope.

Lemma scoreEvents_docs (id : string) (typingStats : TypingStats)
    (recentContext : RecentContext) (events : list (Event * option Z))
    (st : list EventDoc * Q) :
  fst (fold_left (scoreEvent id typingStats recentContext) events st)
  = fst st
    ++ map (fun e =>
              let score :=
                fst (calculateEventSuspicion (fst e) (snd e) typingStats
                       recentContext) in
              mkEventDoc id (type (fst e)) (timestamp (fst e))
                         (data (fst e)) score (flagged score))
           events.
Proof.
  revert st. induction events as [| e rest IH]; intro st; simpl.
  - now rewrite app_nil_r.
  - rewrite IH. cbn [scoreEvent fst]. now rewrite <- app_assoc.
Qed.

Lemma sum_bounds (intervals : list Z) (a : Q) :
  Forall (fun i => (0 < i < 30)%Z) intervals ->
  let n := inject_Z (Z.of_nat (List.length intervals)) in
  a + n <= fold_left Qplus (map inject_Z intervals) a
  /\ fold_left Qplus (map inject_Z intervals) a <= a + 29 * n.
Proof.
  intro H. revert a. induction H as [| i rest Hi _ IH]; intro a; cbv zeta.
  - simpl. change (inject_Z 0) with 0. lra.
  - cbn [map fold_left List.length]. specialize (IH (a + inject_Z i)).
    cbv zeta in IH.
    rewrite Nat2Z.inj_succ, <- Z.add_1_r, inject_Z_plus.
    change (inject_Z 1) with 1.
    assert (H1 : inject_Z 1 <= inject_Z i) by (rewrite <- Zle_Qle; lia).
    assert (H29 : inject_Z i <= inject_Z 29) by (rewrite <- Zle_Qle; lia).
    change (inject_Z 1) with 1 in H1. change (inject_Z 29) with 29 in H29.
    lra.
Qed.

(** The mean of a batch of intervals between 1 and 29 ms. *)
Lemma batch_mean_fast (typingPattern : list Z) :
  typingPattern <> [] ->
  Forall (fun i => (0 < i < 30)%Z) typingPattern ->
  exists mean,
    avgInterval (batchTypingStats typingPattern) = Some mean
    /\ 1 <= mean <= 29.
Proof.
  intros Hne H. destruct typingPattern as [| i rest]; [congruence|].
  unfold batchTypingStats. cbv zeta. cbn [avgInterval].
  eexists. split; [reflexivity|].
  rewrite length_map.
  destruct (sum_bounds (i :: rest) 0 H) as [Hlo Hhi]. cbv zeta in Hlo, Hhi.
  set (s := fold_left Qplus (map inject_Z (i :: rest)) 0) in *.
  set (n := inject_Z (Z.of_nat (List.length (i :: rest)))) in *.
  assert (Hn : 0 < n).
  { subst n. change 0 with (inject_Z 0). rewrite <- Zlt_Qlt.
    cbn [List.length]. lia. }
  split.
  - apply Qle_shift_div_l; [exact Hn | lra].
  - apply Qle_shift_div_r; [exact Hn | lra].
Qed.

Lemma fast_average_scores (event : Event) (interval : option Z)
    (typingStats : TypingStats) (recentContext : RecentContext) (mean : Q) :
  avgInterval typingStats = Some mean -> 0 < mean -> mean < 30 ->
  (4 # 10)
  <= fst (calculateEventSuspicion event interval typingStats recentContext).
Proof.
  intros Havg H0 H30. unfold calculateEventSuspicion. rewrite Havg.
  assert (E0 : optionGt (Some mean) 0 = true)
    by (apply JsFacts.ltb_lt; exact H0).
  assert (E30 : optionLt (Some mean) (inject_Z FAST_TYPING_INTERVAL_MS)
                = true) by (apply JsFacts.ltb_lt; exact H30).
  rewrite E0, E30. cbn [fst].
  apply Qle_trans with (y := Js.round3 (4 # 10)); [discriminate|].
  apply JsFacts.round3_mono. unfold Js.min.
  apply Q.min_glb; [| discriminate].
  match goal with
  | |- context [bump true FAST_TYPING_SCORE ?r ?st] =>
      assert (Hst : 0 <= fst st);
      [| assert (Hkey : (4 # 10) <= fst (bump true FAST_TYPING_SCORE r st))
           by (change (fst (bump true FAST_TYPING_SCORE r st))
                 with (fst st + (4 # 10)); lra);
         set (key := bump true FAST_TYPING_SCORE r st) in *;
         clearbody key; clear Hst ]
  end.
  - repeat match goal with
    | |- _ <= fst (bump _ _ _ _) =>
        eapply Qle_trans;
          [| apply EventScoringFacts.bump_fst_ge; discriminate]
    | |- _ <= fst (match ?c with _ => _ end) => destruct c
    | |- 0 <= fst (0, []) => apply Qle_refl
    end.
  - repeat match goal with
    | |- _ <= fst key => exact Hkey
    | |- _ <= fst (bump _ _ _ _) =>
        eapply Qle_trans;
          [| apply EventScoringFacts.bump_fst_ge; discriminate]
    | |- _ <= fst (match ?c with _ => _ end) => destruct c
    end.
Qed.

(** X25.  When every interval of the batch's typing pattern is between 1 and
    29 ms, every event of the batch is stored with a score of at least 0.4,
    whatever its type and payload. *)
Theorem fast_batch_marks_every_event (id : string)
    (events : list (Event * option Z)) (typingPattern : list Z)
    (recentContext : RecentContext) :
  typingPattern <> [] ->
  Forall (fun i => (0 < i < 30)%Z) typingPattern ->
  Forall (fun d => (4 # 10) <= docSuspicionScore d)
         (fst (scoreEvents id events (batchTypingStats typingPattern)
                 recentContext)).
Proof.
  intros Hne H. unfold scoreEvents. rewrite scoreEvents_docs. cbn [fst app].
  destruct (batch_mean_fast typingPattern Hne H) as (mean & Hmean & Hlo & Hhi).
  apply Forall_forall. intros d Hd. apply in_map_iff in Hd.
  destruct Hd as (e & <- & _). cbv zeta. cbn [docSuspicionScore].
  apply (fast_average_scores _ _ _ _ mean Hmean); [lra|].
  change (inject_Z FAST_TYPING_INTERVAL_MS) with 30. lra.
Qed.

Lemma fast_batch_marks_every_event_witness :
  let events :=
    [(mkEvent file_change 1000 noData, None);
     (mkEvent window_blur 2000 (mkData None None (Some true) None None),
      None)] in
  map docSuspicionScore
    (fst (scoreEvents "p1" events (batchTypingStats [12; 29; 1]%Z)
            (mkRecentContext (Some 0%Z) (Some true))))
  = [400 # 1000; 400 # 1000]
  /\ Forall (fun d => (4 # 10) <= docSuspicionScore d)
       (fst (scoreEvents "p1" events (batchTypingStats [12; 29; 1]%Z)
               (mkRecentContext (Some 0%Z) (Some true)))).
Proof.
  intro events. split; [vm_compute; reflexivity|].
  apply (fast_batch_marks_every_event "p1" events [12; 29; 1]%Z
           (mkRecentContext (Some 0%Z) (Some true))).
  - discriminate.
  - repeat constructor.
Defined.

(** X26.  Without a typing pattern in the batch, a clipboard event scores 0.3
    when more than 5 clipboard documents of the participant from the last 60
    seconds were stored before the batch, and 0 otherwise, however many
    clipboard events the batch itself holds; it is never flagged. *)
Theorem clipboard_score_from_stored_documents (collection : list EventDoc)
    (id : string) (now : Z) (events : list (Event * option Z))
    (doc : EventDoc) :
  In doc (fst (scoreEvents id events (batchTypingStats [])
                 (recentContextOf collection id now))) ->
  eventType doc = clipboard ->
  docSuspicionScore doc
  == (if (5 <? recentClipboard collection id now)%Z then 3 # 10 else 0)
  /\ docFlagged doc = false.
Proof.
  unfold scoreEvents. rewrite scoreEvents_docs. cbn [fst app].
  intros Hd Ht. apply in_map_iff in Hd. destruct Hd as ([event i] & <- & _).
  cbv zeta in *. cbn [eventType docSuspicionScore docFlagged fst snd] in *.
  unfold recentClipboard.
  set (ctx := recentContextOf collection id now).
  unfold calculateEventSuspicion, batchTypingStats. rewrite Ht.
  cbn [avgInterval variance optionGt]. unfold CLIPBOARD_BURST_COUNT.
  destruct (5 <? orZero (clipboardChanges60s ctx))%Z;
    split; vm_compute; reflexivity.
Qed.

Lemma clipboard_score_from_stored_documents_witness :
  let c t := (mkEvent clipboard t noData, @None Z) in
  let events := [c 1%Z; c 2%Z; c 3%Z; c 4%Z; c 5%Z; c 6%Z; c 7%Z] in
  let first := storeBatch [] "p1" 1000 events [] in
  let second := storeBatch first "p1" 2000 [c 1500%Z] [] in
  map docSuspicionScore first = repeat (0 # 1000) 7
  /\ map docSuspicionScore (skipn 7 second) = [300 # 1000]
  /\ docFlagged (nth 7 second (mkEventDoc "" paste 0 noData 0 true)) = false.
Proof.
  intros c events first second.
  split; [vm_compute; reflexivity|]. split; [vm_compute; reflexivity|].
  refine (proj2 (clipboard_score_from_stored_documents first "p1" 2000
                   [c 1500%Z] _ _ _)).
  - left. reflexivity.
  - reflexivity.
Defined.

End IngestHandlerFacts.
(** ** The typing pattern document *)
Module TypingPatternFacts.

Import Events SuspicionCalculator TypingPattern Lra.
Local Open Scope R_scope.

Lemma round_bounds (y : R) : y - / 2 < IZR (round y) <= y + / 2.
Proof.
  unfold round. pose proof (Zfloor_bound (y + / 2)) as H. lra.
Qed.

Lemma round2_close (x : R) : Rabs (round2 x - x) <= / 200.
Proof.
  unfold round2. pose proof (round_bounds (x * 100)) as H.
  apply Rabs_le. lra.
Qed.

Lemma round2_nonneg (x : R) : 0 <= x -> 0 <= round2 x.
Proof.
  intro H. unfold round2.
  assert (Hr : (0 <= round (x * 100))%Z).
  { rewrite <- (SuspicionCalculatorFacts.round_of_integer 0) at 1.
    apply SuspicionCalculatorFacts.round_monotone. lra. }
  apply IZR_le in Hr. lra.
Qed.

Lemma sum_squares_nonneg (m : R) (values : list R) (a : R) :
  0 <= a -> 0 <= fold_left Rplus (map (fun v => (v - m) ^ 2) values) a.
Proof.
  revert a. induction values as [| v rest IH]; intros a Ha; simpl;
    [exact Ha|].
  apply IH. pose proof (pow2_ge_0 (v - m)) as H. simpl in H. lra.
Qed.

Lemma appendIntervals_length (stored batch : list Z) :
  batch <> [] ->
  (0 < Z.of_nat (List.length (appendIntervals stored batch)) <= 10000)%Z.
Proof.
  intro Hne. unfold appendIntervals.
  destruct (Z.ltb_spec 10000 (Z.of_nat (List.length (stored ++ batch))))
    as [Hover | Hfit].
  - rewrite EventsFacts.sliceLast_length; lia.
  - split; [| exact Hfit]. rewrite length_app.
    destruct batch; [congruence | simpl; lia].
Qed.

(** X27.  After step 4 on a batch that carries a typing pattern, the pattern
    document holds the capped intervals, its sample count is their number
    (between 1 and 10000), its variance and standard deviation are not
    negative, and its average is within 0.005 of their mean. *)
Theorem typing_pattern_in_sync (patternDoc : option t)
    (typingPattern : list Z) :
  typingPattern <> [] ->
  exists doc,
    updateTypingPattern patternDoc typingPattern = Some doc
    /\ intervals doc
       = appendIntervals (storedIntervals patternDoc) typingPattern
    /\ sampleCount doc = Z.of_nat (List.length (intervals doc))
    /\ (0 < sampleCount doc <= 10000)%Z
    /\ 0 <= variance doc
    /\ 0 <= stdDev doc
    /\ Rabs (avgInterval doc - mean (intervals doc)) <= / 200.
Proof.
  intro Hne. unfold updateTypingPattern.
  destruct typingPattern as [| i rest] eqn:E; [congruence|]. rewrite <- E.
  assert (Hne' : typingPattern <> []) by (rewrite E; discriminate).
  clear E Hne i rest.
  assert (Hstored : intervals (match patternDoc with
                               | Some d => d
                               | None => fresh
                               end) = storedIntervals patternDoc)
    by (destruct patternDoc; reflexivity).
  rewrite Hstored.
  pose proof (appendIntervals_length (storedIntervals patternDoc)
                typingPattern Hne') as Hlen.
  eexists. split; [reflexivity|].
  unfold recalculate. cbn [intervals].
  destruct (appendIntervals (storedIntervals patternDoc) typingPattern)
    as [| v vs] eqn:Ea; [simpl in Hlen; lia|].
  cbn [intervals sampleCount variance stdDev avgInterval].
  split; [reflexivity|]. split; [reflexivity|]. split; [exact Hlen|].
  assert (Hvar : 0 <= round2
                        (sum (map (fun x => (x - mean (v :: vs)) ^ 2)
                                  (map IZR (v :: vs)))
                         / INR (List.length (v :: vs)))).
  { apply round2_nonneg. unfold sum.
    assert (Hn : 0 < INR (List.length (v :: vs)))
      by (apply lt_0_INR; simpl; lia).
    apply Rmult_le_pos; [apply sum_squares_nonneg; lra|].
    apply Rlt_le, Rinv_0_lt_compat, Hn. }
  split; [exact Hvar|]. split; [apply round2_nonneg, sqrt_pos|].
  apply round2_close.
Qed.

Lemma typing_pattern_in_sync_witness :
  exists doc,
    updateTypingPattern None [100; 120]%Z = Some doc
    /\ intervals doc = [100; 120]%Z
    /\ sampleCount doc = 2%Z.
Proof.
  destruct (typing_pattern_in_sync None [100; 120]%Z ltac:(discriminate))
    as (doc & Hdoc & Hints & Hcount & _).
  exists doc. split; [exact Hdoc|]. split; [exact Hints|].
  rewrite Hcount, Hints. reflexivity.
Defined.

End TypingPatternFacts.
(** ** A monitoring run *)
Module MonitorFacts.

Import GitHubAnalysis CommitAnalysis CommitPattern Monitor.
Local Open Scope Z_scope.







Lemma lastN_length {A : Type} (n : nat) (arr : list A) :
  (List.length (lastN n arr) <= n)%nat.
Proof. unfold lastN. rewrite length_skipn. lia. Qed.

Lemma lastN_keeps {A : Type} (n : nat) (old new : list A) :
  (List.length new <= n)%nat ->
  exists older, lastN n (old ++ new) = older ++ new.
Proof.
  intro H. unfold lastN. rewrite skipn_app, length_app.
  replace (List.length old + List.length new - n - List.length old)%nat
    with 0%nat by lia.
  eexists. reflexivity.
Qed.

(** X28.  A monitoring run keeps at most 200 suspicious commits and 100 burst
    commits, keeps the score in [0, 1], and stores the suspicious commits it
    finds (when they are at most 200) at the end of the list, after older
    ones. *)
Theorem monitorRepository_caps (analysis : Analysis)
    (rawCommits : list Commit) (now : Z) :
  let after := monitorRepository analysis rawCommits now in
  ((List.length (suspicious analysis) <= 200)%nat ->
   (List.length (suspicious after) <= 200)%nat)
  /\ ((List.length (bursts analysis) <= 100)%nat ->
      (List.length (bursts after) <= 100)%nat)
  /\ ((0 <= githubSuspicionScore (scored analysis) <= 1)%Q ->
      (0 <= githubSuspicionScore (scored after) <= 1)%Q)
  /\ ((List.length (found analysis rawCommits) <= 200)%nat ->
      exists older,
        suspicious after = older ++ found analysis rawCommits).
Proof.
  cbv zeta. unfold monitorRepository, found.
  assert (Hnone : collect (lastProcessedSha analysis) rawCommits = [] ->
                  let after := touch analysis now in
                  ((List.length (suspicious analysis) <= 200)%nat ->
                   (List.length (suspicious after) <= 200)%nat)
                  /\ ((List.length (bursts analysis) <= 100)%nat ->
                      (List.length (bursts after) <= 100)%nat)
                  /\ ((0 <= githubSuspicionScore (scored analysis) <= 1)%Q ->
                      (0 <= githubSuspicionScore (scored after) <= 1)%Q)
                  /\ ((List.length
                         (suspiciousCommits
                            (analyzeCommitPattern
                               (sortByDate
                                  (collect (lastProcessedSha analysis)
                                           rawCommits)))) <= 200)%nat ->
                      exists older,
                        suspicious after
                        = older
                          ++ suspiciousCommits
                               (analyzeCommitPattern
                                  (sortByDate
                                     (collect (lastProcessedSha analysis)
                                              rawCommits))))).
  { intro E. rewrite E. cbv zeta. cbn [touch suspicious bursts scored].
    split; [auto|]. split; [auto|]. split; [auto|]. intros _.
    exists (suspicious analysis). cbn. now rewrite app_nil_r. }
  destruct rawCommits as [| rc rest]; [apply Hnone; reflexivity|].
  destruct (collect (lastProcessedSha analysis) (rc :: rest))
    as [| c cs] eqn:E; [apply Hnone; reflexivity|].
  clear Hnone. cbn [suspicious bursts scored].
  split; [intros _; apply lastN_length|].
  split; [intros _; apply lastN_length|].
  split; [intros _; apply SyncScoreFacts.recalculateSuspicion_bounds|].
  apply lastN_keeps.
Qed.

Lemma monitorRepository_caps_witness :
  let c := mkCommit "abc" "wip" 1000 600 0 1 in
  let analysis :=
    mkAnalysis (fresh "p1") (calculateCommitStats []) (repeat 0 24) 0
               (repeat (mkSuspiciousCommit "old" "m" 0 (5 # 10) []) 200) []
               "" 0 in
  let after := monitorRepository analysis [c] 5000 in
  (List.length (suspicious after) <= 200)%nat
  /\ map suspiciousSha (lastN 2 (suspicious after)) = ["old"; "abc"]%string.
Proof.
  intros c analysis after.
  split; [| vm_compute; reflexivity].
  destruct (monitorRepository_caps analysis [c] 5000) as [Hcap _].
  apply Hcap. subst analysis. cbn [suspicious]. rewrite repeat_length. lia.
Defined.



End MonitorFacts.
(** ** Connecting with retries *)
Module DatabaseFacts.

Import Database.
Local Open Scope Z_scope.

Lemma backoff_from (a n : nat) :
  map (fun k => delayAfter (Z.of_nat k)) (seq a (S n))
  = delayAfter (Z.of_nat a)
    :: map (fun k => delayAfter (Z.of_nat k)) (seq (S a) n).
Proof. reflexivity. Qed.

Lemma attemptLoop_fails (connects : nat -> bool) (maxRetries : Z)
    (remaining : nat) :
  forall (a : nat) (slept : list Z),
    maxRetries = Z.of_nat (a + remaining) ->
    (forall k, (a <= k < a + remaining)%nat -> connects k = false) ->
    attemptLoop connects maxRetries remaining (Z.of_nat a) slept
    = (exited 1,
       slept ++ map (fun k => delayAfter (Z.of_nat k))
                    (seq (S a) (remaining - 1))).
Proof.
  induction remaining as [| r IH]; intros a slept HM Hfail.
  - simpl. now rewrite app_nil_r.
  - cbn [attemptLoop]. rewrite Nat2Z.id, (Hfail a) by lia.
    replace (Z.of_nat a + 1) with (Z.of_nat (S a)) by lia.
    rewrite (IH (S a)); [| lia | intros k Hk; apply Hfail; lia].
    replace (S r - 1)%nat with r by lia.
    destruct r as [| r'].
    + replace (Z.of_nat (S a) <? maxRetries) with false
        by (symmetry; apply Z.ltb_ge; lia).
      reflexivity.
    + replace (Z.of_nat (S a) <? maxRetries) with true
        by (symmetry; apply Z.ltb_lt; lia).
      replace (S r' - 1)%nat with r' by lia.
      rewrite backoff_from, <- app_assoc. reflexivity.
Qed.

Lemma attemptLoop_connects (connects : nat -> bool) (maxRetries : Z)
    (remaining : nat) :
  forall (a k : nat) (slept : list Z),
    maxRetries = Z.of_nat (a + remaining) ->
    (a <= k < a + remaining)%nat ->
    (forall j, (a <= j < k)%nat -> connects j = false) ->
    connects k = true ->
    attemptLoop connects maxRetries remaining (Z.of_nat a) slept
    = (connected,
       slept ++ map (fun k => delayAfter (Z.of_nat k)) (seq (S a) (k - a))).
Proof.
  induction remaining as [| r IH]; intros a k slept HM Hk Hfail Hok; [lia|].
  cbn [attemptLoop]. rewrite Nat2Z.id.
  destruct (Nat.eq_dec k a) as [-> | Hne].
  - rewrite Hok, Nat.sub_diag. simpl. now rewrite app_nil_r.
  - rewrite (Hfail a) by lia.
    replace (Z.of_nat a + 1) with (Z.of_nat (S a)) by lia.
    rewrite (IH (S a) k); [| lia | lia | intros j Hj; apply Hfail; lia
                           | exact Hok].
    replace (Z.of_nat (S a) <? maxRetries) with true
      by (symmetry; apply Z.ltb_lt; lia).
    replace (k - a)%nat with (S (k - S a)) by lia.
    rewrite backoff_from, <- app_assoc. reflexivity.
Qed.

Lemma delayAfter_range (k : nat) :
  (1 <= k)%nat -> 2000 <= delayAfter (Z.of_nat k) <= 30000.
Proof.
  intro H. unfold delayAfter. split; [| apply Z.le_min_r].
  apply Z.min_glb; [| lia].
  assert (2 ^ 1 <= 2 ^ Z.of_nat k) by (apply Z.pow_le_mono_r; lia).
  change (2 ^ 1) with 2 in *. lia.
Qed.

Lemma backoff_range (n : nat) :
  Forall (fun d => 2000 <= d <= 30000) (backoff n).
Proof.
  unfold backoff. apply Forall_forall. intros d Hd.
  apply in_map_iff in Hd. destruct Hd as (k & <- & Hk).
  apply in_seq in Hk. apply delayAfter_range. lia.
Qed.

(** X30.  [connectDatabase] returns at the first call of [mongoose.connect]
    that succeeds among the first [maxRetries] ones, having waited 2 s, 4 s, 8
    s, ... (at most 30 s each) after the failed calls before it; when all of
    them fail it exits with code 1, without waiting after the last failure,
    and with [maxRetries <= 0] it exits at once. *)
Theorem connectDatabase_backoff (connects : nat -> bool) (maxRetries : Z) :
  (forall k,
      Z.of_nat k < maxRetries ->
      (forall j, (j < k)%nat -> connects j = false) ->
      connects k = true ->
      connectDatabase connects maxRetries = (connected, backoff k))
  /\ ((forall k, Z.of_nat k < maxRetries -> connects k = false) ->
      connectDatabase connects maxRetries
      = (exited 1, backoff (Z.to_nat maxRetries - 1)))
  /\ Forall (fun d => 2000 <= d <= 30000)
            (snd (connectDatabase connects maxRetries)).
Proof.
  unfold connectDatabase, backoff.
  assert (Hok : forall k,
             Z.of_nat k < maxRetries ->
             (forall j, (j < k)%nat -> connects j = false) ->
             connects k = true ->
             attemptLoop connects maxRetries (Z.to_nat maxRetries) 0 []
             = (connected, backoff k)).
  { intros k Hk Hfail Hc.
    pose proof (attemptLoop_connects connects maxRetries
                  (Z.to_nat maxRetries) 0 k [] ltac:(lia) ltac:(lia)
                  (fun j Hj => Hfail j (proj2 Hj)) Hc) as E.
    change (Z.of_nat 0) with 0 in E. rewrite E.
    unfold backoff. now rewrite Nat.sub_0_r. }
  assert (Hfails : (forall k, Z.of_nat k < maxRetries -> connects k = false) ->
                   attemptLoop connects maxRetries (Z.to_nat maxRetries) 0 []
                   = (exited 1, backoff (Z.to_nat maxRetries - 1))).
  { intro Hfail.
    destruct (Z.le_gt_cases maxRetries 0) as [Hle | Hpos].
    - replace (Z.to_nat maxRetries) with 0%nat by lia. reflexivity.
    - assert (Hall : forall k, (0 <= k < 0 + Z.to_nat maxRetries)%nat ->
                                 connects k = false)
        by (intros k Hk; apply Hfail; lia).
      pose proof (attemptLoop_fails connects maxRetries
                    (Z.to_nat maxRetries) 0 [] ltac:(lia) Hall) as E.
      change (Z.of_nat 0) with 0 in E. rewrite E. reflexivity. }
  split; [exact Hok|]. split; [exact Hfails|].
  (* either some call within the limit succeeds, or none does *)
  assert (Hcases : (exists k, Z.of_nat k < maxRetries
                              /\ (forall j, (j < k)%nat -> connects j = false)
                              /\ connects k = true)
                   \/ (forall k, Z.of_nat k < maxRetries ->
                                 connects k = false)).
  { assert (G : forall n,
               (exists k, (k < n)%nat
                          /\ (forall j, (j < k)%nat -> connects j = false)
                          /\ connects k = true)
               \/ (forall k, (k < n)%nat -> connects k = false)).
    { induction n as [| n [(k & Hk & Hf & Hc) | Hnone]].
      - right. intros k Hk. lia.
      - left. exists k. repeat split; auto.
      - destruct (connects n) eqn:En.
        + left. exists n. repeat split; auto.
        + right. intros k Hk.
          destruct (Nat.eq_dec k n) as [-> | Hne]; [exact En|].
          apply Hnone. lia. }
    destruct (G (Z.to_nat maxRetries)) as [(k & Hk & Hf & Hc) | Hnone].
    - left. exists k. split; [lia|]. split; assumption.
    - right. intros k Hk. apply Hnone. lia. }
  destruct Hcases as [(k & Hk & Hf & Hc) | Hnone].
  - rewrite (Hok k Hk Hf Hc). apply backoff_range.
  - rewrite (Hfails Hnone). apply backoff_range.
Qed.

Lemma connectDatabase_backoff_witness :
  connectDatabase (fun _ => false) 5 = (exited 1, [2000; 4000; 8000; 16000])
  /\ connectDatabase (fun k => (5 <=? k)%nat) 8
     = (connected, [2000; 4000; 8000; 16000; 30000]).
Proof.
  split.
  - apply (proj1 (proj2 (connectDatabase_backoff (fun _ => false) 5))).
    reflexivity.
  - apply (proj1 (connectDatabase_backoff (fun k => (5 <=? k)%nat) 8)
             5%nat).
    + reflexivity.
    + intros j Hj. apply Nat.leb_gt. exact Hj.
    + reflexivity.
Defined.

End DatabaseFacts.
